(** * FreeIPA service installer: step runner and CA installation pipeline

    A shallow embedding of [ipaserver/install/service.py] and of the
    step-list construction of [ipaserver/install/cainstance.py].

    Conventions of the embedding.
    - Python code that can raise is a function from a state to a state and
      an [outcome]; [x <- c ;; k] sequences two such computations and
      stops at the first exception.
    - Exceptions are values of type [exn]: the class name, the text of
      [str(e)] and the part of the class hierarchy the code tests with
      [isinstance] / [except].
    - [root_logger] is a log sink without influence on control flow; calls
      to it are left out.  Wall-clock readings in [run_step] only feed
      such a log line and are left out with it.
    - Integers are [Z] (Python integers are unbounded); ['%d' % n] is
      [pretty n]. *)

From stdpp Require Import gmap strings list pretty.

Open Scope Z_scope.

(** ** Exceptions and outcomes *)

(** The [code] attribute of a [SystemExit]: [None], an integer, or some
    other object (a message string), which never compares equal to [0]. *)
Inductive exit_code :=
| CodeNone
| CodeInt (n : Z)
| CodeOther (s : string).

(** What the code asks of an exception's class: is it a [SystemExit]
    (with its code), another subclass of [Exception], or a bare
    [BaseException] such as [KeyboardInterrupt]. *)
Inductive exn_class :=
| ClsSystemExit (code : exit_code)
| ClsException
| ClsBaseException.

Record exn := mkExn {
  exn_name : string;      (* type(e).__name__ *)
  exn_str : string;       (* str(e) *)
  exn_class_of : exn_class
}.

Definition SystemExit (code : Z) : exn :=
  mkExn "SystemExit" (pretty code) (ClsSystemExit (CodeInt code)).

Definition RuntimeError (msg : string) : exn :=
  mkExn "RuntimeError" msg ClsException.

Definition IOError (msg : string) : exn :=
  mkExn "IOError" msg ClsException.

Definition KeyError (msg : string) : exn :=
  mkExn "KeyError" msg ClsException.

(** [isinstance(e, SystemExit) and e.code == 0] *)
Definition is_exit_zero (e : exn) : bool :=
  match exn_class_of e with
  | ClsSystemExit (CodeInt n) => bool_decide (n = 0)
  | _ => false
  end.

(** [isinstance(e, Exception)], what [except Exception] catches *)
Definition is_Exception (e : exn) : bool :=
  match exn_class_of e with
  | ClsException => true
  | _ => false
  end.

Inductive outcome (A : Type) :=
| Returned (a : A)
| Raise (e : exn).
Arguments Returned {A} a.
Arguments Raise {A} e.

(** State and exception monad of the embedded code. *)
Definition Py (S A : Type) : Type := S → S * outcome A.

Definition ret {S A} (a : A) : Py S A := λ s, (s, Returned a).

Definition raise {S A} (e : exn) : Py S A := λ s, (s, Raise e).

Definition bind {S A B} (c : Py S A) (k : A → Py S B) : Py S B :=
  λ s, match c s with
       | (s', Returned a) => k a s'
       | (s', Raise e) => (s', Raise e)
       end.

Declare Scope py_scope.
Delimit Scope py_scope with py.
Notation "x <- c ;; k" := (bind c (λ x, k))
  (at level 100, c at next level, right associativity) : py_scope.
Notation "c ;;; k" := (bind c (λ _, k))
  (at level 100, right associativity) : py_scope.
Open Scope py_scope.

(** ** [format_seconds] (service.py, lines 70-82) *)

(** [parts[-1] += 's'] when the count is not [1]. *)
Definition plural_if_not_one (n : Z) (part : string) : string :=
  if bool_decide (n ≠ 1) then part +:+ "s" else part.

Definition format_seconds (seconds : Z) : string :=
  let parts : list string := [] in
  let minutes := seconds `div` 60 in
  let seconds := seconds `mod` 60 in
  let parts :=
    if bool_decide (minutes ≠ 0)
    then parts ++ [plural_if_not_one minutes (pretty minutes +:+ " minute")]
    else parts in
  let parts :=
    if bool_decide (seconds ≠ 0) || bool_decide (minutes = 0)
    then parts ++ [plural_if_not_one seconds (pretty seconds +:+ " second")]
    else parts in
  String.concat " " parts.

(** The phrase of the specification for one unit: the count, the unit's
    name, and a plural [s] unless the count is one. *)
Definition unit_phrase (n : Z) (unit : string) : string :=
  pretty n +:+ " " +:+ unit +:+ (if bool_decide (n = 1) then "" else "s").

(** The duration phrase as the specification words it: minutes, then
    seconds, a zero part being dropped unless the whole duration is under
    a minute. *)
Definition duration_phrase (seconds : Z) : string :=
  let m := seconds `div` 60 in
  let s := seconds `mod` 60 in
  if bool_decide (m = 0) then unit_phrase s "second"
  else if bool_decide (s = 0) then unit_phrase m "minute"
  else unit_phrase m "minute" +:+ " " +:+ unit_phrase s "second".

(** ** The step runner (service.py, class [Service]) *)

(** One entry of [self.steps]: the tuple
    [(message, method, run_after_failure)]. *)
Record Step (Method : Type) := mkStep {
  message : string;
  method : Method;
  run_after_failure : bool
}.
Arguments mkStep {Method} _ _ _.
Arguments message {Method} _.
Arguments method {Method} _.
Arguments run_after_failure {Method} _.

(** What an observer of a run sees, in order: a line written to
    [self.output_fd] by [print_msg], and the call of a step's method. *)
Inductive Event (Method : Type) :=
| Printed (line : string)
| Called (m : Method).
Arguments Printed {Method} line.
Arguments Called {Method} m.

(** The attributes of a [Service] object the runner uses.  [output_fd]
    is the sink [print_msg] writes to; the calls of step methods are
    recorded in the same sequence. *)
Record Service (Method : Type) := mkService {
  service_name : string;
  service_desc : option string;
  steps : list (Step Method);
  output_fd : list (Event Method)
}.
Arguments mkService {Method} _ _ _ _.
Arguments service_name {Method} _.
Arguments service_desc {Method} _.
Arguments steps {Method} _.
Arguments output_fd {Method} _.

Definition set_steps {Method} (l : list (Step Method)) (self : Service Method)
  : Service Method :=
  mkService (service_name self) (service_desc self) l (output_fd self).

Definition emit {Method} (evs : list (Event Method)) (self : Service Method)
  : Service Method :=
  mkService (service_name self) (service_desc self) (steps self)
            (output_fd self ++ evs).

(** [Service.step]: [self.steps.append((message, method, run_after_failure))] *)
Definition step {Method} (message : string) (method : Method)
    (run_after_failure : bool) (self : Service Method) : Service Method :=
  set_steps (steps self ++ [mkStep message method run_after_failure]) self.

Section StepRunner.

Context {W Method : Type}.

(** The effect of calling a step's method on everything outside the
    runner: the steps are closures over installer state, here names
    interpreted on a world [W].  No step method of these sources
    registers a step or starts a run, so the list of steps is the same
    all through a run. *)
Variable invoke : Method → Py W ().

Abbreviation State := (Service Method * W)%type.

(** [Service.print_msg] *)
Definition print_msg (message : string) : Py State () :=
  λ st, ((emit [Printed message] st.1, st.2), Returned ()).

(** [method()] *)
Definition call (m : Method) : Py State () :=
  λ st, let '(w, r) := invoke m st.2 in ((emit [Called m] st.1, w), r).

(** The local function [run_step] of [start_creation]. *)
Definition run_step (message : string) (method : Method) : Py State () :=
  print_msg message ;;; call method.

Definition progress_line (total step : nat) (message : string) : string :=
  "  [" +:+ pretty (step + 1)%nat +:+ "/" +:+ pretty total +:+ "]: "
  +:+ message.

Definition cleanup_line (message : string) : string :=
  "  [cleanup]: " +:+ message.

Definition error_line (e : exn) : string :=
  "  [error] " +:+ exn_name e +:+ ": " +:+ exn_str e.

(** The [for] loop of the [try] block over [steps_iter].  When a step
    raises, the loop is left with the exception and the iterator where it
    stands: just past the step that raised. *)
Fixpoint try_steps (total step : nat) (steps_iter : list (Step Method))
    (st : State) : State * option (exn * list (Step Method)) :=
  match steps_iter with
  | [] => (st, None)
  | s :: steps_iter =>
      let full_msg := progress_line total step (message s) in
      match run_step full_msg (method s) st with
      | (st, Returned _) => try_steps total (step + 1) steps_iter st
      | (st, Raise e) => (st, Some (e, steps_iter))
      end
  end.

(** The [for] loop of the handler, over what is left of [steps_iter]. *)
Fixpoint cleanup_steps (steps_iter : list (Step Method)) : Py State () :=
  match steps_iter with
  | [] => ret ()
  | s :: steps_iter =>
      (if run_after_failure s
       then run_step (cleanup_line (message s)) (method s)
       else ret ()) ;;;
      cleanup_steps steps_iter
  end.

Definition default_start_message (self : Service Method)
    (show_service_name : bool) : string :=
  match service_desc self with
  | None => "Configuring " +:+ service_name self
  | Some desc =>
      let start_message := "Configuring " +:+ desc in
      if show_service_name
      then start_message +:+ " (" +:+ service_name self +:+ ")"
      else start_message
  end.

Definition default_end_message (self : Service Method)
    (show_service_name : bool) : string :=
  match service_desc self with
  | None =>
      if show_service_name
      then "Done configuring " +:+ service_name self +:+ "."
      else "Done."
  | Some desc =>
      if show_service_name
      then "Done configuring " +:+ desc +:+ " (" +:+ service_name self +:+ ")."
      else "Done configuring " +:+ desc +:+ "."
  end.

(** [Service.start_creation] (service.py, lines 366-440).  The defaults
    of the source are [start_message=None], [end_message=None],
    [show_service_name=True], [runtime=-1]. *)
Definition start_creation (start_message end_message : option string)
    (show_service_name : bool) (runtime : Z) : Py State () :=
  λ st,
  let self := st.1 in
  let start_message :=
    from_option id (default_start_message self show_service_name)
                start_message in
  let end_message :=
    from_option id (default_end_message self show_service_name)
                end_message in
  let '(st, _) :=
    (if bool_decide (runtime > 0)
     then print_msg (start_message +:+ ". Estimated time: "
                     +:+ format_seconds runtime)
     else print_msg start_message) st in
  match try_steps (length (steps st.1)) 0 (steps st.1) st with
  | (st, Some (e, steps_iter)) =>
      (* except BaseException as e *)
      if negb (is_exit_zero e)
      then (print_msg (error_line e) ;;;
            (* run through remaining methods marked run_after_failure *)
            cleanup_steps steps_iter ;;;
            raise e) st
      else raise e st
  | (st, None) =>
      (print_msg end_message ;;;
       λ st, ((set_steps [] st.1, st.2), Returned ())) st
  end.

(** The first line [start_creation] prints. *)
Definition start_line (self : Service Method)
    (start_message : option string) (show_service_name : bool)
    (runtime : Z) : string :=
  let start_message :=
    from_option id (default_start_message self show_service_name)
                start_message in
  if bool_decide (runtime > 0)
  then start_message +:+ ". Estimated time: " +:+ format_seconds runtime
  else start_message.

End StepRunner.

(** ** Vocabulary for statements about a run *)

Section RunVocabulary.

Context {W Method : Type}.
Variable invoke : Method → Py W ().

(** Calling the methods [ms] one after the other, each returning
    normally: the world they leave, or [None] when one of them raises. *)
Fixpoint run_all (ms : list Method) (w : W) : option W :=
  match ms with
  | [] => Some w
  | m :: ms =>
      match invoke m w with
      | (w, Returned _) => run_all ms w
      | (_, Raise _) => None
      end
  end.

(** What the runner shows for steps that run in the main pass, the first
    of them being number [step + 1] of [total]. *)
Fixpoint progress_events (total step : nat) (l : list (Step Method))
  : list (Event Method) :=
  match l with
  | [] => []
  | s :: l =>
      Printed (progress_line total step (message s)) :: Called (method s)
      :: progress_events total (step + 1) l
  end.

(** What the runner shows for steps that run in the cleanup pass. *)
Fixpoint cleanup_events (l : list (Step Method)) : list (Event Method) :=
  match l with
  | [] => []
  | s :: l =>
      Printed (cleanup_line (message s)) :: Called (method s)
      :: cleanup_events l
  end.

(** The methods called, in order, among a sequence of events. *)
Fixpoint calls (evs : list (Event Method)) : list Method :=
  match evs with
  | [] => []
  | Called m :: evs => m :: calls evs
  | Printed _ :: evs => calls evs
  end.

(** The lines printed, in order, among a sequence of events. *)
Fixpoint printed (evs : list (Event Method)) : list string :=
  match evs with
  | [] => []
  | Printed l :: evs => l :: printed evs
  | Called _ :: evs => printed evs
  end.

End RunVocabulary.

(** The steps flagged [run_after_failure=True], in their order. *)
Definition flagged {Method} (l : list (Step Method)) : list (Step Method) :=
  filter (λ s, run_after_failure s = true) l.

(** ** Scripted steps, for concrete runs

    A scripted method is a name and the exception it raises, if any; the
    world is the list of the names called so far. *)
Definition scripted : Type := string * option exn.

Definition invoke_scripted (m : scripted) : Py (list string) () :=
  λ w, (w ++ [m.1], from_option Raise (Returned ()) m.2).

(** ** The directory and [Service.ldap_enable] (service.py, lines 442-488) *)

(** [SERVICE_LIST]: the service name as stored in
    [cn=masters,cn=ipa,cn=etc], with the *nix service name and the start
    order. *)
Definition SERVICE_LIST : gmap string (string * Z) :=
  list_to_map
    [ ("KDC", ("krb5kdc", 10));
      ("KPASSWD", ("kadmin", 20));
      ("DNS", ("named", 30));
      ("MEMCACHE", ("ipa_memcached", 39));
      ("HTTP", ("httpd", 40));
      ("KEYS", ("ipa-custodia", 41));
      ("NTP", ("ntpd", 45));
      ("CA", ("pki-tomcatd", 50));
      ("KRA", ("pki-tomcatd", 51));
      ("ADTRUST", ("smb", 60));
      ("EXTID", ("winbind", 70));
      ("OTPD", ("ipa-otpd", 80));
      ("DNSKeyExporter", ("ipa-ods-exporter", 90));
      ("DNSSEC", ("ods-enforcerd", 100));
      ("DNSKeySync", ("ipa-dnskeysyncd", 110)) ].

(** [val.lower()], on the ASCII letters. *)
Definition lower_ascii (c : Ascii.ascii) : Ascii.ascii :=
  let n := Ascii.N_of_ascii c in
  if bool_decide (65 ≤ n ≤ 90)%N then Ascii.ascii_of_N (n + 32) else c.

Fixpoint lower (s : string) : string :=
  match s with
  | EmptyString => EmptyString
  | String c s => String (lower_ascii c) (lower s)
  end.

(** A distinguished name: its components [(attribute, value)], the most
    specific first. *)
Definition DN : Type := list (string * string).

(** A directory entry, with the attributes [ldap_enable] writes. *)
Record Entry := mkEntry {
  objectclass : list string;
  cn : list string;
  ipaConfigString : list string
}.

Definition set_ipaConfigString (l : list string) (entry : Entry) : Entry :=
  mkEntry (objectclass entry) (cn entry) l.

(** The operations [ldap_enable] performs on its collaborators. *)
Inductive Op :=
| OsDisable
| DirGet (dn : DN)
| DirUpdate (dn : DN)
| DirAdd (dn : DN).

(** The host [ldap_enable] acts on: the state [os] of the platform's
    service manager, the directory, and the operations performed so far. *)
Record Host (Os : Type) := mkHost {
  os : Os;
  directory : gmap DN Entry;
  ops : list Op
}.
Arguments mkHost {Os} _ _ _.
Arguments os {Os} _.
Arguments directory {Os} _.
Arguments ops {Os} _.

Definition NotFound : exn := mkExn "NotFound" "no such entry" ClsException.
Definition DuplicateEntry : exn :=
  mkExn "DuplicateEntry" "This entry already exists" ClsException.
Definition EmptyModlist : exn :=
  mkExn "EmptyModlist" "no modifications to be performed" ClsException.

(** [except errors.X]: the class of the exception is [X]. *)
Definition is_a (cls : exn) (e : exn) : bool :=
  bool_decide (exn_name e = exn_name cls).

(** [try: body / except cls: handler / else: orelse].  An exception of
    [orelse] is not caught. *)
Definition try_except_else {S A B} (body : Py S A) (catches : exn → bool)
    (handler : exn → Py S B) (orelse : A → Py S B) : Py S B :=
  λ s, match body s with
       | (s, Returned a) => orelse a s
       | (s, Raise e) => if catches e then handler e s else (s, Raise e)
       end.

(** The number of values that are the tag [enabledService], compared
    as the code compares them. *)
Definition is_enabled_tag (val : string) : bool :=
  bool_decide ("enabledservice" = lower val).

Definition enabled_count (vals : list string) : nat :=
  length (List.filter is_enabled_tag vals).

Section Directory.

Context {Os : Type}.

(** [self.service.disable()] of the platform's service manager, which
    is not part of these sources. *)
Variable service_disable : Py Os ().

Definition log_op (op : Op) (h : Host Os) : Host Os :=
  mkHost (os h) (directory h) (ops h ++ [op]).

(** [Service.disable] *)
Definition disable : Py (Host Os) () :=
  λ h, let h := log_op OsDisable h in
       let '(o, r) := service_disable (os h) in
       (mkHost o (directory h) (ops h), r).

(** Modelled from the spec: the directory-access abstraction
    [api.Backend.ldap2], which is not part of these sources.
    [get_entry] signals "not found" for an absent entry. *)
Definition get_entry (dn : DN) : Py (Host Os) Entry :=
  λ h, let h := log_op (DirGet dn) h in
       match directory h !! dn with
       | Some entry => (h, Returned entry)
       | None => (h, Raise NotFound)
       end.

(** Modelled from the spec: [update_entry] of the directory-access
    abstraction.  It signals "empty change list" when the entry already
    has the values asked for. *)
Definition update_entry (dn : DN) (entry : Entry) : Py (Host Os) () :=
  λ h, let h := log_op (DirUpdate dn) h in
       match directory h !! dn with
       | None => (h, Raise NotFound)
       | Some old =>
           if bool_decide (ipaConfigString old = ipaConfigString entry)
           then (h, Raise EmptyModlist)
           else (mkHost (os h) (<[dn := entry]> (directory h)) (ops h),
                 Returned ())
       end.

(** Modelled from the spec: [add_entry] of the directory-access
    abstraction.  It signals "duplicate entry" for an entry that
    exists. *)
Definition add_entry (dn : DN) (entry : Entry) : Py (Host Os) () :=
  λ h, let h := log_op (DirAdd dn) h in
       match directory h !! dn with
       | Some _ => (h, Raise DuplicateEntry)
       | None => (mkHost (os h) (<[dn := entry]> (directory h)) (ops h),
                  Returned ())
       end.

(** The name of the startup entry of service [name] on host [fqdn]. *)
Definition service_entry_dn (name fqdn : string) (ldap_suffix : DN) : DN :=
  [("cn", name); ("cn", fqdn); ("cn", "masters"); ("cn", "ipa");
   ("cn", "etc")] ++ ldap_suffix.

(** [Service.ldap_enable].  [ldap_suffix] is a [DN] by its type, which is
    what the assertion of the source asks for. *)
Definition ldap_enable (name fqdn : string) (dm_password : option string)
    (ldap_suffix : DN) (config : list string) : Py (Host Os) () :=
  disable ;;;
  let entry_name := service_entry_dn name fqdn ldap_suffix in
  (* enable disabled service *)
  try_except_else (get_entry entry_name) (is_a NotFound)
    (λ _,
       (* except errors.NotFound: pass, and on to creating the entry *)
       match SERVICE_LIST !! name with
       | None => raise (KeyError name)
       | Some (_, order) =>
           let entry :=
             mkEntry ["nsContainer"; "ipaConfigObject"] [name]
                     (["enabledService"; "startOrder " +:+ pretty order]
                      ++ config) in
           try_except_else (add_entry entry_name entry) (is_a DuplicateEntry)
             (λ e, raise e) ret
       end)
    (λ entry,
       if existsb is_enabled_tag (ipaConfigString entry)
       then ret ()
       else
         let entry :=
           set_ipaConfigString (ipaConfigString entry ++ ["enabledService"])
                               entry in
         try_except_else (update_entry entry_name entry) (is_a EmptyModlist)
           (λ _, ret ()) ret).

End Directory.

(** ** The CA instance (cainstance.py) *)

(** The methods [CAInstance.configure_instance] registers as steps. *)
Inductive CAStep :=
| m_create_ca_user
| m_create_ds_db
| m_setup_replication
| m_setup_admin
| m_spawn_instance
| m_stop_instance
| m_backup_config
| m_disable_nonce
| m_enable_crl_publish
| m_enable_pkix
| m_teardown_admin
| m_start_instance
| m_configure_certmonger_renewal
| m_request_ra_certificate
| m_import_ra_key
| m_import_ra_cert (ra_p12 : option string)
| m_import_ca_chain
| m_setup_sign_profile
| m_set_audit_renewal
| m_restart_instance
| m_create_ca_agent
| m_configure_profiles_acl
| m_configure_lightweight_ca_acls
| m_ensure_lightweight_cas_container
| m_dogtag10_migration
| m_configure_renewal
| m_track_servercert
| m_http_proxy
| m_migrate_profiles_to_ldap
| m_import_included_profiles
| m_ensure_default_caacl
| m_ensure_ipa_authority_entry
| m_update_ipa_conf
| m_enable_instance
| m_add_lightweight_ca_tracking_requests.

Global Instance CAStep_eq_dec : EqDecision CAStep.
Proof. solve_decision. Defined.

(** The attributes of a [CAInstance] that decide the control flow.
    [external] is the state machine of the source:
    0 = not an externally signed CA, 1 = generating CSR to be signed,
    2 = have signed cert, continue installation. *)
Record CAInstance := mkCA {
  external : Z;
  csr_file : option string;
  cert_file : option string;
  cert_chain_file : option string;
  clone : bool
}.

(** [CAInstance.__init__], lines 307-311.  [clone] is set by the base
    class [DogtagInstance], which is not part of these sources. *)
Definition CAInstance_init (clone : bool) : CAInstance :=
  mkCA 0 None None None clone.

(** What the steps act on besides the instance: the standard output, the
    state of the [pki-tomcat] service, the files, and the rest [ext]. *)
Record Env (Ext : Type) := mkEnv {
  stdout : list string;
  pki_tomcatd_running : bool;
  files : gmap string string;
  ext : Ext
}.
Arguments mkEnv {Ext} _ _ _ _.
Arguments stdout {Ext} _.
Arguments pki_tomcatd_running {Ext} _.
Arguments files {Ext} _.
Arguments ext {Ext} _.

Definition set_files {Ext} (f : gmap string string) (env : Env Ext) : Env Ext :=
  mkEnv (stdout env) (pki_tomcatd_running env) f (ext env).

(** [print(line)] *)
Definition print {Ext} (line : string) : Py (Env Ext) () :=
  λ env, (mkEnv (stdout env ++ [line]) (pki_tomcatd_running env) (files env)
                (ext env),
          Returned ()).

(** [shutil.copy(src, dst)] on files *)
Definition shutil_copy {Ext} (src dst : string) : Py (Env Ext) () :=
  λ env, match files env !! src with
         | None => (env, Raise (IOError ("No such file or directory: " +:+ src)))
         | Some content => (set_files (<[dst := content]> (files env)) env,
                            Returned ())
         end.

(** [shutil.move(src, dst)] on files *)
Definition shutil_move {Ext} (src dst : string) : Py (Env Ext) () :=
  λ env, match files env !! src with
         | None => (env, Raise (IOError ("No such file or directory: " +:+ src)))
         | Some content =>
             (set_files (<[dst := content]> (delete src (files env))) env,
              Returned ())
         end.

(** [x |> f]: the object [x] after the update [f]. *)
Definition then_do {A} (x : A) (f : A → A) : A := f x.
Infix "|>" := then_do (at level 45, left associativity).

(** [if cond: ...] around updates of the object *)
Definition when {A} (cond : bool) (f : A → A) : A → A :=
  if cond then f else id.

Section CA.

Context {Ext : Type}.

(** Constants of [ipaplatform.paths] and [sys.argv[0]]. *)
Variable CA_CS_CFG_PATH : string.
Variable CA_BACKUP_KEYS_P12 : string.
Variable CACERT_P12 : string.
Variable argv0 : string.

(** [certs.CertDB(self.realm).get_cert_from_db(nickname)] *)
Variable get_cert_from_db : Env Ext → string → string.

(** The part of [__spawn_instance] that writes the configuration of
    [pkispawn] and runs it (lines 463-613). *)
Variable pkispawn : CAInstance → Py (Env Ext) ().

(** The steps that only call collaborators outside these sources. *)
Variable collaborator : CAStep → CAInstance → Py (Env Ext) ().

(** The module-level [backup_config] (lines 1325-1333): create a backup
    copy of CS.cfg. *)
Definition backup_config : Py (Env Ext) () :=
  let path := CA_CS_CFG_PATH in
  λ env,
    if pki_tomcatd_running env
    then raise (RuntimeError
                  ("Dogtag must be stopped when creating backup of " +:+ path))
               env
    else shutil_copy path (path +:+ ".ipabkp") env.

(** [CAInstance.backup_config] (lines 625-629): the step logs a warning
    when the backup fails with an [Exception], and goes on. *)
Definition CAInstance_backup_config : Py (Env Ext) () :=
  try_except_else backup_config is_Exception (λ _, ret ()) ret.

Definition next_step_line (self : CAInstance) : string :=
  "The next step is to get " +:+ from_option id "None" (csr_file self)
  +:+ " signed by your CA and re-run " +:+ argv0 +:+ " as:".

Definition rerun_line : string :=
  argv0 +:+ " --external-cert-file=/path/to/signed_certificate"
  +:+ " --external-cert-file=/path/to/external_ca_certificate".

(** [CAInstance.__spawn_instance] from line 606 on. *)
Definition spawn_instance (self : CAInstance) : Py (Env Ext) () :=
  pkispawn self ;;;
  if bool_decide (external self = 1)
  then
    print (next_step_line self) ;;;
    print rerun_line ;;;
    raise (SystemExit 0)
  else
    shutil_move CA_BACKUP_KEYS_P12 CACERT_P12.

(** The call of a step's method, on the instance and its environment.
    No step assigns to the attributes of [CAInstance] modelled here. *)
Definition ca_invoke (m : CAStep) : Py (CAInstance * Env Ext) () :=
  λ w,
    let self := w.1 in
    let '(env, r) :=
      match m with
      | m_spawn_instance => spawn_instance self w.2
      | m_backup_config => CAInstance_backup_config w.2
      | _ => collaborator m self w.2
      end in
    ((self, env), r).

(** Lines 373-381 of [configure_instance]: determine if we are
    installing as an externally-signed CA and what stage we're in. *)
Definition determine_external (csr_file cert_file cert_chain_file
    : option string) (self : CAInstance) : CAInstance :=
  let '(mkCA external0 csr_file0 cert_file0 cert_chain_file0 clone0) := self in
  match csr_file, cert_file with
  | Some _, _ => mkCA 1 csr_file cert_file0 cert_chain_file0 clone0
  | None, Some _ => mkCA 2 csr_file0 cert_file cert_chain_file clone0
  | None, None => self
  end.

(** Lines 352-353: to create a clone, pass in [pkcs12_info]. *)
Definition set_clone (pkcs12_info : option string) (self : CAInstance)
  : CAInstance :=
  match pkcs12_info with
  | Some _ => mkCA (external self) (csr_file self) (cert_file self)
                   (cert_chain_file self) true
  | None => self
  end.

(** Lines 383-387: whether the RA agent certificate exists already. *)
Definition has_ra_cert_check (self : CAInstance) (env : Env Ext) : bool :=
  if clone self
  then negb (bool_decide (get_cert_from_db env "ipaCert" = ""))
  else false.

Abbreviation step_ msg m := (step msg m false).

(** Lines 389-452 of [configure_instance]: the steps it registers. *)
Definition register_steps (self : CAInstance) (has_ra_cert : bool)
    (ra_p12 : option string) (ra_only promote : bool)
    (svc : Service CAStep) : Service CAStep :=
  svc
  |> when (negb ra_only) (λ svc, svc
       |> step_ "creating certificate server user" m_create_ca_user
       |> when promote (λ svc, svc
            (* Setup Database *)
            |> step_ "creating certificate server db" m_create_ds_db
            |> step_ "setting up initial replication" m_setup_replication
            |> step_ "creating installation admin user" m_setup_admin)
       |> step_ "configuring certificate server instance" m_spawn_instance
       |> step_ "stopping certificate server instance to update CS.cfg"
                m_stop_instance
       |> step_ "backing up CS.cfg" m_backup_config
       |> step_ "disabling nonces" m_disable_nonce
       |> step_ "set up CRL publishing" m_enable_crl_publish
       |> step_ "enable PKIX certificate path discovery and validation"
                m_enable_pkix
       |> when promote (λ svc, svc
            |> step_ "destroying installation admin user" m_teardown_admin)
       |> step_ "starting certificate server instance" m_start_instance)
  (* Step 1 of external is getting a CSR so we don't need to do these
     steps until we get a cert back from the external CA. *)
  |> when (bool_decide (external self ≠ 1)) (λ svc, svc
       |> when (negb has_ra_cert) (λ svc, svc
            |> step_ "configure certmonger for renewals"
                     m_configure_certmonger_renewal
            |> (if negb (clone self)
                then step_ "requesting RA certificate from CA"
                           m_request_ra_certificate
                else if promote
                then step_ "Importing RA key" m_import_ra_key
                else step_ "importing RA certificate from PKCS #12 file"
                           (m_import_ra_cert ra_p12)))
       |> when (negb ra_only) (λ svc, svc
            |> step_ "importing CA chain to RA certificate database"
                     m_import_ca_chain
            |> step_ "setting up signing cert profile" m_setup_sign_profile
            |> step_ "setting audit signing renewal to 2 years"
                     m_set_audit_renewal
            |> step_ "restarting certificate server" m_restart_instance
            |> when (negb (clone self)) (λ svc, svc
                 |> step_ "adding RA agent as a trusted user" m_create_ca_agent)
            |> step_ "authorizing RA to modify profiles"
                     m_configure_profiles_acl
            |> step_ "authorizing RA to manage lightweight CAs"
                     m_configure_lightweight_ca_acls
            |> step_ "Ensure lightweight CAs container exists"
                     m_ensure_lightweight_cas_container
            |> when (clone self && negb promote) (λ svc, svc
                 |> step_ "Ensuring backward compatibility"
                          m_dogtag10_migration)
            |> step_ "configure certificate renewals" m_configure_renewal
            |> step_ "configure Server-Cert certificate renewal"
                     m_track_servercert
            |> step_ "Configure HTTP to proxy connections" m_http_proxy
            |> step_ "restarting certificate server" m_restart_instance
            |> when (negb promote) (λ svc, svc
                 |> step_ "migrating certificate profiles to LDAP"
                          m_migrate_profiles_to_ldap
                 |> step_ "importing IPA certificate profiles"
                          m_import_included_profiles
                 |> step_ "adding default CA ACL" m_ensure_default_caacl
                 |> step_ "adding 'ipa' CA entry" m_ensure_ipa_authority_entry)
            |> step_ "updating IPA configuration" m_update_ipa_conf
            |> step_ "enabling CA instance" m_enable_instance
            |> step_ "configuring certmonger renewal for lightweight CAs"
                     m_add_lightweight_ca_tracking_requests)).

(** [CAInstance.configure_instance] (lines 329-454).  Of its arguments,
    those that only end in attributes read by collaborators are left
    out. *)
Definition configure_instance (pkcs12_info csr_file cert_file cert_chain_file
    ra_p12 : option string) (ra_only promote : bool)
  : Py (Service CAStep * (CAInstance * Env Ext)) () :=
  λ st,
    let '(svc, (self, env)) := st in
    let self := set_clone pkcs12_info self in
    let self := determine_external csr_file cert_file cert_chain_file self in
    let has_ra_cert := has_ra_cert_check self env in
    let svc := register_steps self has_ra_cert ra_p12 ra_only promote svc in
    start_creation ca_invoke None None true 210 (svc, (self, env)).

End CA.

(** ** The decision table of the step list, as the specification words it *)

(** The steps [configure_instance] registers on a runner without steps. *)
Definition declared_steps (self : CAInstance) (has_ra_cert : bool)
    (ra_p12 : option string) (ra_only promote : bool) : list (Step CAStep) :=
  steps (register_steps self has_ra_cert ra_p12 ra_only promote
           (mkService "" None [] [])).

(** 1. If not agent-cert-only: user creation; in promotion mode the
    database, initial replication and temporary admin user; subsystem
    spawn, stop, config backup, nonce disable, CRL publishing, PKIX; in
    promotion mode the teardown of the temporary admin user; start. *)
Definition spawn_group (ra_only promote : bool) : list CAStep :=
  if ra_only then []
  else
    [m_create_ca_user]
    ++ (if promote then [m_create_ds_db; m_setup_replication; m_setup_admin]
        else [])
    ++ [m_spawn_instance; m_stop_instance; m_backup_config; m_disable_nonce;
        m_enable_crl_publish; m_enable_pkix]
    ++ (if promote then [m_teardown_admin] else [])
    ++ [m_start_instance].

(** 2a. Certmonger renewal configuration, then exactly one of: request a
    new RA certificate (fresh master), import the RA key (promotion),
    import the RA certificate from a file (plain clone). *)
Definition agent_cert_branch (clone promote : bool) (ra_p12 : option string)
  : list CAStep :=
  [ m_configure_certmonger_renewal;
    if negb clone then m_request_ra_certificate
    else if promote then m_import_ra_key
    else m_import_ra_cert ra_p12 ].

(** 2b. The chain import, profile, ACL and renewal steps. *)
Definition chain_profile_acl_branch (clone promote : bool) : list CAStep :=
  [m_import_ca_chain; m_setup_sign_profile; m_set_audit_renewal;
   m_restart_instance]
  ++ (if negb clone then [m_create_ca_agent] else [])
  ++ [m_configure_profiles_acl; m_configure_lightweight_ca_acls;
      m_ensure_lightweight_cas_container]
  ++ (if clone && negb promote then [m_dogtag10_migration] else [])
  ++ [m_configure_renewal; m_track_servercert; m_http_proxy;
      m_restart_instance]
  ++ (if negb promote
      then [m_migrate_profiles_to_ldap; m_import_included_profiles;
            m_ensure_default_caacl; m_ensure_ipa_authority_entry]
      else [])
  ++ [m_update_ipa_conf; m_enable_instance;
      m_add_lightweight_ca_tracking_requests].

(** The steps of the first group that come before the subsystem spawn. *)
Definition before_spawn (promote : bool) : list CAStep :=
  [m_create_ca_user]
  ++ (if promote then [m_create_ds_db; m_setup_replication; m_setup_admin]
      else []).

(** ** More of the directory: [ldap_disable],
    [ldap_remove_service_container], [find_providing_server]
    (service.py) *)

Definition IndexError (msg : string) : exn := mkExn "IndexError" msg ClsException.
Definition AssertionError : exn := mkExn "AssertionError" "" ClsException.

(** [l.remove(x)]: without the first element equal to [x]. *)
Fixpoint list_remove (x : string) (l : list string) : list string :=
  match l with
  | [] => []
  | y :: l => if bool_decide (y = x) then l else y :: list_remove x l
  end.

(** The loop of [ldap_disable] over the values: the first value that is
    the tag, compared without case, is removed, and the loop is left. *)
Fixpoint remove_enabled_tag_loop (values rest : list string) : list string :=
  match rest with
  | [] => values
  | value :: rest =>
      if bool_decide (lower value = "enabledservice")
      then list_remove value values
      else remove_enabled_tag_loop values rest
  end.

Definition remove_enabled_tag (values : list string) : list string :=
  remove_enabled_tag_loop values values.

Section MoreDirectory.

Context {Os : Type}.

(** Modelled from the spec: [find_entries] of the directory-access
    abstraction, with a filter and the scope of the base entry alone.
    The filter is given as the test it makes on an entry.  "Not found"
    is signalled when no entry passes.  A search is recorded like the
    read of the entry. *)
Definition find_entries_base (passes : Entry → bool) (base_dn : DN)
  : Py (Host Os) (list (DN * Entry)) :=
  λ h, let h := log_op (DirGet base_dn) h in
       match directory h !! base_dn with
       | Some entry =>
           if passes entry then (h, Returned [(base_dn, entry)])
           else (h, Raise NotFound)
       | None => (h, Raise NotFound)
       end.

(** Modelled from the spec: [find_entries] with the scope of the whole
    subtree below the base entry: the entries whose name ends with the
    name of the base and that pass the filter. *)
Definition find_entries_subtree (passes : Entry → bool) (base_dn : DN)
  : Py (Host Os) (list (DN * Entry)) :=
  λ h, let found :=
         List.filter (λ de : DN * Entry,
                        bool_decide (base_dn `suffix_of` de.1) && passes de.2)
                     (map_to_list (directory h)) in
       match found with
       | [] => (h, Raise NotFound)
       | _ => (h, Returned found)
       end.

(** Modelled from the spec: [delete_entry] of the directory-access
    abstraction; "not found" for an entry that is absent. *)
Definition delete_entry (dn : DN) : Py (Host Os) () :=
  λ h, match directory h !! dn with
       | Some _ => (mkHost (os h) (delete dn (directory h)) (ops h),
                    Returned ())
       | None => (h, Raise NotFound)
       end.

(** The filter [(ipaConfigString=enabledService)]; the attribute is
    compared without case. *)
Definition has_enabled_tag (entry : Entry) : bool :=
  existsb is_enabled_tag (ipaConfigString entry).

(** [Service.ldap_disable] (service.py, lines 490-524) *)
Definition ldap_disable (name fqdn : string) (ldap_suffix : DN)
  : Py (Host Os) () :=
  let entry_dn := service_entry_dn name fqdn ldap_suffix in
  try_except_else (find_entries_base has_enabled_tag entry_dn)
    (is_a NotFound)
    (λ _, (* service startup entry already disabled *) ret ())
    (λ entries,
       match entries with
       | [(dn, entry)] =>
           (* case insensitive *)
           let entry :=
             set_ipaConfigString (remove_enabled_tag (ipaConfigString entry))
                                 entry in
           try_except_else (update_entry dn entry) (is_a EmptyModlist)
             (λ _, ret ()) ret
       | _ => (* only one entry is expected *) raise AssertionError
       end).

(** [Service.ldap_remove_service_container] (lines 526-534) *)
Definition ldap_remove_service_container (name fqdn : string)
    (ldap_suffix : DN) : Py (Host Os) () :=
  let entry_dn := service_entry_dn name fqdn ldap_suffix in
  try_except_else (delete_entry entry_dn) (is_a NotFound)
    (λ _, (* service container already removed *) ret ()) ret.

(** The filter of [find_providing_server]: all of
    [objectClass=ipaConfigObject], [ipaConfigString=enabledService] and
    [cn=svcname], each compared without case. *)
Definition provides_service (svcname : string) (entry : Entry) : bool :=
  existsb (λ oc, bool_decide (lower oc = lower "ipaConfigObject"))
          (objectclass entry)
  && has_enabled_tag entry
  && existsb (λ c, bool_decide (lower c = lower svcname)) (cn entry).

(** [entry.dn[1].value] *)
Definition dn_second_value (dn : DN) : outcome string :=
  match dn !! 1%nat with
  | Some (_, value) => Returned value
  | None => Raise (IndexError "list index out of range")
  end.

(** The loop over the entries that looks for the preferred host. *)
Fixpoint find_preferred (host_name : string) (entries : list (DN * Entry))
  : outcome bool :=
  match entries with
  | [] => Returned false
  | (dn, _) :: entries =>
      match dn_second_value dn with
      | Raise e => Raise e
      | Returned value =>
          if bool_decide (value = host_name) then Returned true
          else find_preferred host_name entries
      end
  end.

(** [find_providing_server] (service.py, lines 113-137), the connection
    being the directory of the host and [basedn] the value of
    [api.env.basedn].  The result [None] is that of the source. *)
Definition find_providing_server (svcname : string) (host_name : option string)
    (basedn : DN) : Py (Host Os) (option string) :=
  let dn := [("cn", "masters"); ("cn", "ipa"); ("cn", "etc")] ++ basedn in
  try_except_else (find_entries_subtree (provides_service svcname) dn)
    (is_a NotFound)
    (λ _, ret None)
    (λ entries,
       match entries with
       | [] => ret None
       | (first_dn, _) :: _ =>
           let first :=
             (* if the preferred is not found, return the first in the list *)
             match dn_second_value first_dn with
             | Returned value => ret (Some value)
             | Raise e => raise e
             end in
           match host_name with
           | None => first
           | Some host_name =>
               match find_preferred host_name entries with
               | Raise e => raise e
               | Returned true => ret (Some host_name)
               | Returned false => first
               end
           end
       end).

End MoreDirectory.

(** ** Parsing the answers of Dogtag (cainstance.py, lines 141-225) *)

(** Characters the parser looks for. *)
Definition double_quote : Ascii.ascii := Eval cbv in Ascii.ascii_of_nat 34.
Definition semicolon : Ascii.ascii := Eval cbv in Ascii.ascii_of_nat 59.
Definition equals_sign : Ascii.ascii := Eval cbv in Ascii.ascii_of_nat 61.
Definition backslash : Ascii.ascii := Eval cbv in Ascii.ascii_of_nat 92.
Definition line_feed : Ascii.ascii := Eval cbv in Ascii.ascii_of_nat 10.
Definition carriage_return : Ascii.ascii := Eval cbv in Ascii.ascii_of_nat 13.

(** The characters of a string. *)
Fixpoint chars (s : string) : list Ascii.ascii :=
  match s with
  | EmptyString => []
  | String a s => a :: chars s
  end.

(** [s.replace(old, new)] for a pattern [old] that is not empty: the
    occurrences of [old] are replaced from the left, each start of an
    occurrence being looked for after the end of the one before.
    [skip] counts the characters of an occurrence still to pass. *)
Fixpoint str_replace_from (old new : string) (skip : nat) (s : string)
  : string :=
  match s with
  | EmptyString => EmptyString
  | String a s' =>
      match skip with
      | S skip => str_replace_from old new skip s'
      | O =>
          if String.prefix old s
          then new +:+ str_replace_from old new (String.length old - 1) s'
          else String a (str_replace_from old new 0 s')
      end
  end.

Definition str_replace (old new s : string) : string :=
  str_replace_from old new 0 s.

(** [s.split(sep, 1)] for a separator of one character: the text before
    the first separator and the text after it, or [None] when the list
    has the one element [s]. *)
Fixpoint split_once (sep : Ascii.ascii) (s : string)
  : option (string * string) :=
  match s with
  | EmptyString => None
  | String a s =>
      if bool_decide (a = sep) then Some (EmptyString, s)
      else match split_once sep s with
           | Some (before, after) => Some (String a before, after)
           | None => None
           end
  end.

(** [get_value]: parse out a name/value pair from a Javascript
    variable.  [None] is the answer of the source when [expr[1]] raises
    [IndexError]. *)
Definition get_value (s : string) : option string :=
  match split_once equals_sign s with
  | None => None
  | Some (_, value) =>
      let value := str_replace (String double_quote "") "" value in
      let value := str_replace ";" "" value in
      let value := str_replace (String backslash "n")
                               (String line_feed "") value in
      let value := str_replace (String backslash "r")
                               (String carriage_return "") value in
      Some value
  end.

(** [find_substring]: scan through a list looking for a string that
    starts with [value].  A list without one gives [None]. *)
Fixpoint find_substring (data : list string) (value : string)
  : option string :=
  match data with
  | [] => None
  | d :: data =>
      if String.prefix value d then get_value d
      else find_substring data value
  end.

(** The truth of a value in [if varname and value]: neither [None] nor
    the empty string. *)
Definition truthy (v : option string) : bool :=
  match v with
  | Some (String _ _) => true
  | _ => false
  end.

(** The variables of the loop of [get_outputList]. *)
Record output_state := mkOutputState {
  out_varname : option string;
  out_value : option string;
  outputdict : gmap string string
}.

(** One round of the loop of [get_outputList]. *)
Definition get_outputList_step (st : output_state) (d : string)
  : output_state :=
  let varname := out_varname st in
  let value := out_value st in
  let '(varname, value) :=
    if String.prefix "outputList = new" d then (None, None)
    else (varname, value) in
  let varname :=
    if String.prefix "outputList.outputId" d then get_value d else varname in
  let value :=
    if String.prefix "outputList.outputVal" d then get_value d else value in
  match varname, value with
  | Some name, Some val =>
      if truthy varname && truthy value
      then mkOutputState None None (<[name := val]> (outputdict st))
      else mkOutputState varname value (outputdict st)
  | _, _ => mkOutputState varname value (outputdict st)
  end.

(** [get_outputList]: return a dictionary of outputList name/value
    pairs. *)
Definition get_outputList (data : list string) : gmap string string :=
  outputdict (foldl get_outputList_step (mkOutputState None None ∅) data).




Definition letter_n : Ascii.ascii := Eval cbv in Ascii.ascii_of_nat 110.
Definition letter_r : Ascii.ascii := Eval cbv in Ascii.ascii_of_nat 114.

(** How a value is written in a Javascript assignment: a line feed as
    backslash and [n], a carriage return as backslash and [r]. *)
Fixpoint js_escape (value : string) : string :=
  match value with
  | EmptyString => EmptyString
  | String a value =>
      if bool_decide (a = line_feed)
      then String backslash (String letter_n (js_escape value))
      else if bool_decide (a = carriage_return)
      then String backslash (String letter_r (js_escape value))
      else String a (js_escape value)
  end.

(** The line [name="value";] *)
Definition js_assign (name value : string) : string :=
  name +:+ String equals_sign
             (String double_quote
                (js_escape value +:+ String double_quote ";")).

(** A value that survives the parser: without double quote, semicolon
    and backslash. *)
Definition plain (value : string) : Prop :=
  (double_quote ∉ chars value) ∧ (semicolon ∉ chars value)
  ∧ (backslash ∉ chars value).

(** The lines of one entry of the output list of Dogtag. *)
Definition output_block (kv : string * string) : list string :=
  [ "outputList = new Object;";
    js_assign "outputList.outputId" kv.1;
    js_assign "outputList.outputVal" kv.2 ].



(** A text the parser keeps and takes for true. *)
Definition kept (value : string) : Prop := plain value ∧ value ≠ "".

(** [outputdict[varname] = value] for each pair, from the left. *)
Definition assign_all (m : gmap string string)
    (pairs : list (string * string)) : gmap string string :=
  foldl (λ m kv, <[kv.1 := kv.2]> m) m pairs.


(** ** The renewal master (cainstance.py, lines 1091-1133 and
    1200-1206) *)

(** The test [x.lower() != 'carenewalmaster'] of [set_renewal_master],
    negated. *)
Definition is_renewal_tag (value : string) : bool :=
  bool_decide (lower value = "carenewalmaster").

(** The filter [(ipaConfigString=caRenewalMaster)]; the attribute is
    compared without case. *)
Definition has_renewal_tag (entry : Entry) : bool :=
  existsb is_renewal_tag (ipaConfigString entry).

(** The filter [(&(cn=CA)(ipaConfigString=caRenewalMaster))]. *)
Definition is_ca_renewal_master (entry : Entry) : bool :=
  existsb (λ c, bool_decide (lower c = lower "CA")) (cn entry)
  && has_renewal_tag entry.

(** [[x for x in values if x.lower() != 'carenewalmaster']] *)
Definition without_renewal_tag (values : list string) : list string :=
  List.filter (λ x, negb (is_renewal_tag x)) values.

(** [DN(('cn', 'masters'), ('cn', 'ipa'), ('cn', 'etc'), basedn)] *)
Definition masters_dn (basedn : DN) : DN :=
  [("cn", "masters"); ("cn", "ipa"); ("cn", "etc")] ++ basedn.

(** [DN(('cn', 'CA'), ('cn', fqdn), base_dn)] *)
Definition ca_master_dn (fqdn : string) (basedn : DN) : DN :=
  [("cn", "CA"); ("cn", fqdn)] ++ masters_dn basedn.

Section RenewalMaster.

Context {Os : Type}.

(** [entry['ipaConfigString']]: an entry of the directory has an
    attribute when it has a value of it, and the lookup of an attribute
    that it has not raises [KeyError]. *)
Definition getitem_ipaConfigString (entry : Entry)
  : Py (Host Os) (list string) :=
  match ipaConfigString entry with
  | [] => raise (KeyError "ipaConfigString")
  | values => ret values
  end.

(** [CAInstance.is_renewal_master] (lines 1091-1104), [fqdn] being given
    and [basedn] the value of [api.env.basedn]. *)
Definition is_renewal_master (fqdn : string) (basedn : DN)
  : Py (Host Os) bool :=
  let dn := ca_master_dn fqdn basedn in
  try_except_else (find_entries_subtree has_renewal_tag dn)
    (is_a NotFound)
    (λ _, ret false)
    (λ _, ret true).

(** The loop of [set_renewal_master] over the entries found.
    [master_entry] is the variable of that name, [None] once the entry
    of the new master was met. *)
Fixpoint demote_renewal_masters (master_entry : option (DN * Entry))
    (entries : list (DN * Entry)) : Py (Host Os) (option (DN * Entry)) :=
  match entries with
  | [] => ret master_entry
  | (dn, entry) :: entries =>
      if match master_entry with
         | Some (master_dn, _) => bool_decide (dn = master_dn)
         | None => false
         end
      then demote_renewal_masters None entries
      else
        values <- getitem_ipaConfigString entry ;;
        update_entry dn
          (set_ipaConfigString (without_renewal_tag values) entry) ;;;
        demote_renewal_masters master_entry entries
  end.

(** [CAInstance.set_renewal_master] (lines 1106-1133) *)
Definition set_renewal_master (fqdn : string) (basedn : DN)
  : Py (Host Os) () :=
  let base_dn := masters_dn basedn in
  entries <- try_except_else
               (find_entries_subtree is_ca_renewal_master base_dn)
               (is_a NotFound) (λ _, ret []) ret ;;
  let dn := ca_master_dn fqdn basedn in
  master_entry <- get_entry dn ;;
  master_entry <- demote_renewal_masters (Some (dn, master_entry)) entries ;;
  match master_entry with
  | Some (dn, master_entry) =>
      values <- getitem_ipaConfigString master_entry ;;
      update_entry dn
        (set_ipaConfigString (values ++ ["caRenewalMaster"]) master_entry)
  | None => ret ()
  end.

(** [self.service.disable()] of the platform's service manager. *)
Variable service_disable : Py Os ().

(** [CAInstance.__enable_instance] (lines 1200-1206), [basedn] being the
    value of [ipautil.realm_to_suffix(self.realm)]. *)
Definition enable_instance (fqdn : string) (basedn : DN) (self : CAInstance)
  : Py (Host Os) () :=
  let config := if negb (clone self) then ["caRenewalMaster"] else [] in
  ldap_enable service_disable "CA" fqdn None basedn config.

End RenewalMaster.

(** ** The key retrieval of lightweight CAs (cainstance.py, lines
    1208-1228) *)

(** Modelled from the spec: the state of upgrades kept by [sysupgrade],
    a value by module and name of the state. *)
Abbreviation UpgradeState := (gmap (string * string) bool).

Section KeyRetrieval.

Context {W : Type}.

(** Modelled from the spec: [sysupgrade.get_upgrade_state], [None] for a
    state that was never set. *)
Definition get_upgrade_state (module state : string)
  : Py (UpgradeState * W) (option bool) :=
  λ s, (s, Returned (s.1 !! (module, state))).

(** Modelled from the spec: [sysupgrade.set_upgrade_state]. *)
Definition set_upgrade_state (module state : string) (value : bool)
  : Py (UpgradeState * W) () :=
  λ s, ((<[(module, state) := value]> s.1, s.2), Returned ()).

(** A call that acts on the world besides the state of upgrades. *)
Definition on_world {A} (c : Py W A) : Py (UpgradeState * W) A :=
  λ s, let '(w, r) := c s.2 in ((s.1, w), r).

Variable CA_CS_CFG_PATH : string.

(** The two private methods of the setup, and
    [installutils.set_directive(filename, directive, value, quotes=False,
    separator='=')], which are not part of the model. *)
Variable setup_kerberos : Py W ().
Variable setup_custodia : Py W ().
Variable set_directive : string → string → string → Py W ().

(** [for k, v in directives: installutils.set_directive(...)] *)
Fixpoint set_directives (directives : list (string * string)) : Py W () :=
  match directives with
  | [] => ret ()
  | (k, v) :: directives =>
      set_directive CA_CS_CFG_PATH k v ;;; set_directives directives
  end.

(** What the method does between its guard and its last line. *)
Definition key_retrieval_setup : Py W () :=
  setup_kerberos ;;;
  setup_custodia ;;;
  set_directives
    [ ("features.authority.keyRetrieverClass",
       "com.netscape.ca.ExternalProcessKeyRetriever");
      ("features.authority.keyRetrieverConfig.executable",
       "/usr/libexec/ipa/ipa-pki-retrieve-key") ].

(** [CAInstance.setup_lightweight_ca_key_retrieval] *)
Definition setup_lightweight_ca_key_retrieval : Py (UpgradeState * W) () :=
  done <- get_upgrade_state "dogtag" "setup_lwca_key_retrieval" ;;
  if bool_decide (done = Some true) then ret ()
  else
    on_world key_retrieval_setup ;;;
    set_upgrade_state "dogtag" "setup_lwca_key_retieval" true.

End KeyRetrieval.

(** ** [Service.move_service] (service.py, lines 235-259) *)

(** The values of an attribute: texts and names of entries. *)
Inductive attr_value :=
  | Text (s : string)
  | Name (dn : DN).

#[global] Instance attr_value_eq_dec : EqDecision attr_value.
Proof. solve_decision. Defined.

(** An entry as a dictionary from the names of its attributes, in lower
    case, to their values, and the directory of such entries. *)
Abbreviation LdapEntry := (gmap string (list attr_value)).
Abbreviation Ldap := (gmap DN LdapEntry).

Definition TypeError (msg : string) : exn := mkExn "TypeError" msg ClsException.

(** Modelled from the spec: [get_entry], [delete_entry] and [add_entry]
    of the directory-access abstraction, with the signals "not found"
    and "duplicate entry". *)
Definition ldap_get_entry (dn : DN) : Py Ldap LdapEntry :=
  λ d, match d !! dn with
       | Some entry => (d, Returned entry)
       | None => (d, Raise NotFound)
       end.

Definition ldap_delete_entry (dn : DN) : Py Ldap () :=
  λ d, match d !! dn with
       | Some _ => (delete dn d, Returned ())
       | None => (d, Raise NotFound)
       end.

Definition ldap_add_entry (dn : DN) (entry : LdapEntry) : Py Ldap () :=
  λ d, match d !! dn with
       | Some _ => (d, Raise DuplicateEntry)
       | None => (<[dn := entry]> d, Returned ())
       end.

Section MoveService.

(** [list(set(classes))]: the values without repetition, in the order
    the set gives them. *)
Variable list_of_set : list attr_value → list attr_value.

Definition kerberos_principal_dn (principal realm : string) (suffix : DN)
  : DN :=
  [("krbprincipalname", principal); ("cn", realm); ("cn", "kerberos")]
  ++ suffix.

Definition service_principal_dn (principal : string) (suffix : DN) : DN :=
  [("krbprincipalname", principal); ("cn", "services"); ("cn", "accounts")]
  ++ suffix.

Definition host_dn (fqdn : string) (suffix : DN) : DN :=
  [("fqdn", fqdn); ("cn", "computers"); ("cn", "accounts")] ++ suffix.

(** The entry under its new name: lines 248 and 253-257. *)
Definition moved_entry (fqdn : string) (suffix : DN)
    (classes : list attr_value) (entry : LdapEntry) : LdapEntry :=
  let classes := classes ++ [Text "ipaobject"; Text "ipaservice";
                             Text "pkiuser"] in
  <["managedby" := [Name (host_dn fqdn suffix)]]>
    (<["ipauniqueid" := [Text "autogenerate"]]>
       (<["objectclass" := list_of_set classes]> entry)).

(** [Service.move_service]: used to move a principal entry created by
    kadmin.local from cn=kerberos to cn=services.  [realm], [fqdn] and
    [suffix] are the attributes of the service. *)
Definition move_service (principal realm fqdn : string) (suffix : DN)
  : Py Ldap (option DN) :=
  let dn := kerberos_principal_dn principal realm suffix in
  try_except_else (ldap_get_entry dn) (is_a NotFound)
    (λ _,
       (* There is no service in the wrong location, nothing to do. *)
       ret None)
    (λ entry,
       (* don't copy virtual attr *)
       let entry := delete "krbpwdpolicyreference" entry in
       let newdn := service_principal_dn principal suffix in
       ldap_delete_entry dn ;;;
       match entry !! "objectclass" with
       | None =>
           raise (TypeError
                    "unsupported operand type(s) for +: 'NoneType' and 'list'")
       | Some classes =>
           ldap_add_entry newdn (moved_entry fqdn suffix classes entry) ;;;
           ret (Some newdn)
       end).

End MoveService.

(** ** [SimpleServiceInstance] (service.py, lines 589-628) *)

(** Modelled from the spec: the service as the platform manages it,
    running or not, started on boot or not, with operations that
    succeed. *)
Record Managed := mkManaged {
  running : bool;
  enabled : bool
}.

(** Modelled from the spec: the persistent state store, a value by
    service and key.  [backup_state] writes the value, [restore_state]
    returns and clears the stored value, or [None] if none is stored,
    and [has_state] tells whether any state exists for the service. *)
Abbreviation StateStore := (gmap (string * string) bool).

Definition has_state (module : string) (store : StateStore) : bool :=
  existsb (λ mk : string * string, bool_decide (mk.1 = module))
          (map_to_list store).*1.

(** The two steps of [create_instance]. *)
Inductive SimpleStep := m_start | m_enable.

(** The attributes [create_instance] sets. *)
Record SimpleServiceInstance := mkSimple {
  gensvc_name : option string;
  simple_fqdn : string;
  simple_suffix : DN;
  simple_realm : option string
}.

(** What the steps act on: the host and the state store. *)
Abbreviation Machine := (Host Managed * StateStore)%type.

Definition on_managed {A} (c : Py Managed A) : Py Machine A :=
  λ m, let '(o, r) := c (os m.1) in
       ((mkHost o (directory m.1) (ops m.1), m.2), r).

Definition on_host {A} (c : Py (Host Managed) A) : Py Machine A :=
  λ m, let '(h, r) := c m.1 in ((h, m.2), r).

(** [Service.is_running], [restart], [start], [stop], [is_enabled],
    [enable] and [disable], which hand over to the platform. *)
Definition is_running : Py Managed bool := λ o, (o, Returned (running o)).
Definition restart : Py Managed () :=
  λ o, (mkManaged true (enabled o), Returned ()).
Definition start : Py Managed () :=
  λ o, (mkManaged true (enabled o), Returned ()).
Definition stop : Py Managed () :=
  λ o, (mkManaged false (enabled o), Returned ()).
Definition is_enabled : Py Managed bool := λ o, (o, Returned (enabled o)).
Definition enable : Py Managed () :=
  λ o, (mkManaged (running o) true, Returned ()).
Definition managed_disable : Py Managed () :=
  λ o, (mkManaged (running o) false, Returned ()).

Section Simple.

(** [self.service_name] *)
Variable name : string.

(** [Service.backup_state] and [Service.restore_state] *)
Definition backup_state (key : string) (value : bool) : Py Machine () :=
  λ m, ((m.1, <[(name, key) := value]> m.2), Returned ()).

Definition restore_state (key : string) : Py Machine (option bool) :=
  λ m, ((m.1, delete (name, key) m.2), Returned (m.2 !! (name, key))).

(** [SimpleServiceInstance.__start] *)
Definition simple_start : Py Machine () :=
  r <- on_managed is_running ;;
  backup_state "running" r ;;;
  on_managed restart.

(** [SimpleServiceInstance.__enable] *)
Definition simple_enable (self : SimpleServiceInstance) : Py Machine () :=
  e <- on_managed is_enabled ;;
  backup_state "enabled" e ;;;
  match gensvc_name self with
  | None => on_managed enable
  | Some gensvc_name =>
      on_host (ldap_enable managed_disable gensvc_name (simple_fqdn self)
                           None (simple_suffix self) [])
  end.

Definition simple_invoke (m : SimpleStep)
  : Py (SimpleServiceInstance * Machine) () :=
  λ w, let '(machine, r) :=
         match m with
         | m_start => simple_start w.2
         | m_enable => simple_enable w.1 w.2
         end in
       ((w.1, machine), r).

(** [SimpleServiceInstance.create_instance] *)
Definition create_instance (gensvc_name : option string) (fqdn : string)
    (ldap_suffix : DN) (realm : option string)
  : Py (Service SimpleStep * (SimpleServiceInstance * Machine)) () :=
  λ st,
    let '(svc, (_, machine)) := st in
    let self := mkSimple gensvc_name fqdn ldap_suffix realm in
    let svc := svc
      |> step ("starting " +:+ name +:+ " ") m_start false
      |> step ("configuring " +:+ name +:+ " to start on boot") m_enable
              false in
    start_creation simple_invoke (Some ("Configuring " +:+ name)) None true
                   (-1) (svc, (self, machine)).

(** A call on the machine from the service object. *)
Definition on_machine {A} (c : Py Machine A)
  : Py (Service SimpleStep * (SimpleServiceInstance * Machine)) A :=
  λ st, let '(machine, r) := c st.2.2 in ((st.1, (st.2.1, machine)), r).

(** [SimpleServiceInstance.uninstall] *)
Definition uninstall
  : Py (Service SimpleStep * (SimpleServiceInstance * Machine)) () :=
  (λ st, (if has_state name st.2.2.2
          then print_msg ("Unconfiguring " +:+ name)
          else ret ()) st) ;;;
  on_machine (on_managed stop) ;;;
  on_machine (on_managed managed_disable) ;;;
  running <- on_machine (restore_state "running") ;;
  enabled <- on_machine (restore_state "enabled") ;;
  (* restore the original state of service *)
  (if bool_decide (running = Some true)
   then on_machine (on_managed start) else ret ()) ;;;
  (if bool_decide (enabled = Some true)
   then on_machine (on_managed enable) else ret ()).

End Simple.

(** * Properties *)

(** ** [format_seconds] *)

Lemma string_app_assoc (a b c : string) : (a +:+ b) +:+ c = a +:+ (b +:+ c).
Proof.
  induction a as [|ch a IH]; [done|].
  change (String ch ((a +:+ b) +:+ c) = String ch (a +:+ b +:+ c)).
  by rewrite IH.
Qed.

Lemma format_seconds_phrase (n : Z) : format_seconds n = duration_phrase n.
Proof.
  unfold format_seconds, duration_phrase, plural_if_not_one, unit_phrase.
  repeat case_bool_decide; simpl; try lia;
    rewrite ?string_app_assoc; reflexivity.
Qed.

(** ** The step runner *)

Section StepRunnerFacts.

Context {W Method : Type}.
Variable invoke : Method → Py W ().

Abbreviation State := (Service Method * W)%type.

Lemma emit_nil (self : Service Method) : emit [] self = self.
Proof. destruct self; unfold emit; simpl. by rewrite app_nil_r. Qed.

Lemma emit_emit (a b : list (Event Method)) (self : Service Method) :
  emit b (emit a self) = emit (a ++ b) self.
Proof. unfold emit; simpl. by rewrite app_assoc. Qed.

Lemma run_step_returns msg m self w w' :
  invoke m w = (w', Returned ()) →
  run_step invoke msg m (self, w)
  = ((emit [Printed msg; Called m] self, w'), Returned ()).
Proof.
  intros H. unfold run_step, bind, print_msg, call; simpl.
  rewrite H. by rewrite emit_emit.
Qed.

Lemma run_step_raises msg m self w w' e :
  invoke m w = (w', Raise e) →
  run_step invoke msg m (self, w)
  = ((emit [Printed msg; Called m] self, w'), Raise e).
Proof.
  intros H. unfold run_step, bind, print_msg, call; simpl.
  rewrite H. by rewrite emit_emit.
Qed.

(** The main pass over steps that all return normally. *)
Lemma try_steps_app total pre : ∀ step rest self w w',
  run_all invoke (method <$> pre) w = Some w' →
  try_steps invoke total step (pre ++ rest) (self, w)
  = try_steps invoke total (step + length pre) rest
      (emit (progress_events total step pre) self, w').
Proof.
  induction pre as [|s pre IH]; intros step rest self w w' Hrun; simpl in *.
  - injection Hrun as ->. by rewrite emit_nil, Nat.add_0_r.
  - destruct (invoke (method s) w) as [w1 [[]|e]] eqn:Hs; [|done].
    rewrite (run_step_returns _ _ _ _ _ Hs).
    rewrite (IH _ _ _ _ _ Hrun), emit_emit.
    by replace (step + 1 + length pre)%nat with (step + S (length pre))%nat by lia.
Qed.

(** The main pass when the step at the head raises. *)
Lemma try_steps_raise total step s post self w w' e :
  invoke (method s) w = (w', Raise e) →
  try_steps invoke total step (s :: post) (self, w)
  = ((emit (progress_events total step [s]) self, w'), Some (e, post)).
Proof. intros Hs; simpl. by rewrite (run_step_raises _ _ _ _ _ _ Hs). Qed.

Lemma progress_events_app total step (l1 l2 : list (Step Method)) :
  progress_events total step (l1 ++ l2)
  = progress_events total step l1
    ++ progress_events total (step + length l1) l2.
Proof.
  revert step; induction l1 as [|s l1 IH]; intros step; simpl.
  - by rewrite Nat.add_0_r.
  - rewrite IH.
    by replace (step + 1 + length l1)%nat with (step + S (length l1))%nat by lia.
Qed.

(** The cleanup pass when every flagged step returns normally. *)
Lemma cleanup_steps_returns post : ∀ self w w',
  run_all invoke (method <$> flagged post) w = Some w' →
  cleanup_steps invoke post (self, w)
  = ((emit (cleanup_events (flagged post)) self, w'), Returned ()).
Proof.
  induction post as [|s post IH]; intros self w w' Hrun; simpl in *.
  - injection Hrun as ->. by rewrite emit_nil.
  - unfold flagged in *. rewrite filter_cons in Hrun |- *. unfold bind.
    destruct (decide (run_after_failure s = true)) as [Hf|Hf].
    + rewrite Hf. simpl in *.
      destruct (invoke (method s) w) as [w1 [[]|e]] eqn:Hs; [|done].
      rewrite (run_step_returns _ _ _ _ _ Hs).
      by rewrite (IH _ _ _ Hrun), emit_emit.
    + apply not_true_is_false in Hf. rewrite Hf. simpl.
      by rewrite (IH _ _ _ Hrun).
Qed.

Lemma print_msg_if (b : bool) (m1 m2 : string) (st : State) :
  (if b then print_msg m1 else print_msg m2) st
  = ((emit [Printed (if b then m1 else m2)] st.1, st.2), Returned ()).
Proof. by destruct b. Qed.

(** What [start_creation] does once a step of the main pass raises. *)
Lemma start_creation_raise self w0 w1 w2 pre s post e sm em ssn rt :
  steps self = pre ++ s :: post →
  run_all invoke (method <$> pre) w0 = Some w1 →
  invoke (method s) w1 = (w2, Raise e) →
  start_creation invoke sm em ssn rt (self, w0)
  = let shown :=
      Printed (start_line self sm ssn rt)
      :: progress_events (length (steps self)) 0 (pre ++ [s]) in
    if is_exit_zero e
    then ((emit shown self, w2), Raise e)
    else
      match cleanup_steps invoke post
              (emit (shown ++ [Printed (error_line e)]) self, w2) with
      | (st, Returned _) => (st, Raise e)
      | (st, Raise e') => (st, Raise e')
      end.
Proof.
  intros Hsteps Hpre Hs. unfold start_creation, start_line.
  rewrite print_msg_if. simpl. rewrite Hsteps.
  rewrite (try_steps_app _ _ _ _ _ _ _ Hpre).
  rewrite (try_steps_raise _ _ _ _ _ _ _ _ Hs).
  rewrite !emit_emit, progress_events_app. simpl.
  destruct (is_exit_zero e); simpl; [done|].
  unfold bind, print_msg, raise; simpl. rewrite emit_emit.
  match goal with
  | |- (let (_, _) := cleanup_steps invoke post (emit ?a self, w2) in _)
       = (let (_, _) := cleanup_steps invoke post (emit ?b self, w2) in _) =>
      assert (a = b) as ->
  end.
  { simpl. by rewrite <- app_assoc. }
  by destruct (cleanup_steps invoke post _) as [st [[]|e']].
Qed.

Lemma calls_app (a b : list (Event Method)) :
  calls (a ++ b) = calls a ++ calls b.
Proof.
  induction a as [|[l|m] a IH]; simpl; [done|done|by rewrite IH].
Qed.

Lemma calls_progress_events total step (l : list (Step Method)) :
  calls (progress_events total step l) = method <$> l.
Proof. revert step; induction l as [|s l IH]; intros; simpl; [done|by rewrite IH]. Qed.

Lemma calls_cleanup_events (l : list (Step Method)) :
  calls (cleanup_events l) = method <$> l.
Proof. induction l as [|s l IH]; simpl; [done|by rewrite IH]. Qed.

Lemma run_step_emits msg m (st st' : State) r :
  run_step invoke msg m st = (st', r) →
  st'.1 = emit [Printed msg; Called m] st.1.
Proof.
  unfold run_step, bind, print_msg, call; simpl.
  destruct (invoke m st.2) as [w' r']; intros [= <- <-]; simpl.
  by rewrite emit_emit.
Qed.

(** The main pass calls the methods of an initial segment of the
    iterator, and leaves the iterator at the rest. *)
Lemma try_steps_calls total : ∀ it step (st st' : State) r,
  try_steps invoke total step it st = (st', r) →
  ∃ evs done,
    st'.1 = emit evs st.1 ∧ calls evs = method <$> done ∧
    match r with
    | None => it = done
    | Some (_, rest) => it = done ++ rest
    end.
Proof.
  induction it as [|s it IH]; intros step st st' r; simpl.
  - intros [= <- <-]. exists [], []. by rewrite emit_nil.
  - destruct (run_step invoke _ (method s) st) as [st1 [[]|e]] eqn:Hs.
    + intros Hrest. apply run_step_emits in Hs.
      destruct (IH _ _ _ _ Hrest) as (evs & done & H1 & H2 & H3).
      exists ([Printed (progress_line total step (message s));
               Called (method s)] ++ evs), (s :: done).
      rewrite H1, Hs, emit_emit. split; [done|]. split.
      { simpl. by rewrite H2. }
      destruct r as [[e rest]|]; by subst.
    + intros [= <- <-]. apply run_step_emits in Hs.
      exists [Printed (progress_line total step (message s));
              Called (method s)], [s].
      done.
Qed.

(** The cleanup pass calls methods of the iterator only, each at most
    once and in the iterator's order. *)
Lemma cleanup_steps_calls : ∀ it (st st' : State) r,
  cleanup_steps invoke it st = (st', r) →
  ∃ evs, st'.1 = emit evs st.1 ∧ calls evs `sublist_of` method <$> it.
Proof.
  induction it as [|s it IH]; intros st st' r; simpl.
  - intros [= <- <-]. exists []. by rewrite emit_nil.
  - unfold bind. destruct (run_after_failure s).
    + destruct (run_step invoke _ (method s) st) as [st1 [[]|e]] eqn:Hs;
        apply run_step_emits in Hs.
      * intros Hrest. destruct (IH _ _ _ Hrest) as (evs & H1 & H2).
        exists ([Printed (cleanup_line (message s)); Called (method s)] ++ evs).
        rewrite H1, Hs, emit_emit. split; [done|]. simpl.
        by apply sublist_skip.
      * intros [= <- <-].
        exists [Printed (cleanup_line (message s)); Called (method s)].
        split; [done|]. simpl. apply sublist_skip, sublist_nil_l.
    + simpl. intros Hrest. destruct (IH _ _ _ Hrest) as (evs & H1 & H2).
      exists evs. split; [done|]. by apply sublist_cons.
Qed.

(** Whatever happens, [start_creation] calls declared steps only, each at
    most once and in the declared order. *)
Lemma start_creation_calls sm em ssn rt (st st' : State) r :
  start_creation invoke sm em ssn rt st = (st', r) →
  ∃ evs, output_fd st'.1 = output_fd st.1 ++ evs
         ∧ calls evs `sublist_of` method <$> steps st.1.
Proof.
  unfold start_creation. rewrite print_msg_if. simpl.
  set (l0 := Printed _).
  destruct (try_steps invoke _ 0 (steps st.1) (emit [l0] st.1, st.2))
    as [st1 [[e rest]|]] eqn:Htry;
    apply try_steps_calls in Htry as (evs & done & H1 & H2 & H3);
    simpl in H1, H3.
  - assert (Hsub : ∀ evs', calls evs' `sublist_of` method <$> rest →
              calls ([l0] ++ evs ++ evs') `sublist_of` method <$> steps st.1).
    { intros evs' Hs. rewrite H3, fmap_app, !calls_app, H2. simpl.
      by apply sublist_app. }
    destruct (is_exit_zero e); simpl.
    + intros [= <- <-]. exists ([l0] ++ evs ++ []).
      rewrite H1, emit_emit. simpl. rewrite app_nil_r. split; [done|].
      specialize (Hsub [] (sublist_nil_l _)). by rewrite app_nil_r in Hsub.
    + unfold bind, print_msg, raise. simpl.
      destruct (cleanup_steps invoke rest _) as [st2 r2] eqn:Hc.
      apply cleanup_steps_calls in Hc as (evs' & H4 & H5). simpl in H4.
      intros Hr.
      assert (st' = st2) as -> by (destruct r2 as [[]|]; congruence).
      exists ([l0] ++ evs ++ [Printed (error_line e)] ++ evs').
      rewrite H4, H1, !emit_emit. simpl. split.
      { simpl. by rewrite <- ?app_assoc. }
      specialize (Hsub (Printed (error_line e) :: evs') H5).
      exact Hsub.
  - unfold bind, print_msg. simpl. intros [= <- <-]. simpl.
    exists ([l0] ++ evs ++ [Printed (from_option id
              (default_end_message st.1 ssn) em)]).
    rewrite H1. simpl. split.
    { simpl. by rewrite <- ?app_assoc. }
    rewrite calls_app. simpl. rewrite app_nil_r, H2, H3. done.
Qed.

Lemma is_exit_zero_spec (e : exn) :
  is_exit_zero e = true ↔ exn_class_of e = ClsSystemExit (CodeInt 0).
Proof.
  unfold is_exit_zero. destruct (exn_class_of e) as [[|n|]| |]; try done.
  rewrite bool_decide_eq_true. split; [by intros ->|by intros [= ->]].
Qed.

(** C1 (as amended).  When step [s] raises [e], which is not an exit
    with code zero, after the steps [pre] before it returned normally,
    and every step flagged [run_after_failure] among the steps [post]
    after it returns normally in its turn, then [start_creation] calls
    exactly the flagged steps of [post], in their order, each shown with
    the cleanup prefix, after the line of the error; it then raises [e]
    itself, and the list of steps stays as it was. *)
Theorem start_creation_failure_runs_cleanup
    self w0 w1 w2 w3 pre s post e sm em ssn rt :
  steps self = pre ++ s :: post →
  run_all invoke (method <$> pre) w0 = Some w1 →
  invoke (method s) w1 = (w2, Raise e) →
  is_exit_zero e = false →
  run_all invoke (method <$> flagged post) w2 = Some w3 →
  start_creation invoke sm em ssn rt (self, w0)
  = ((emit (Printed (start_line self sm ssn rt)
            :: progress_events (length (steps self)) 0 (pre ++ [s])
            ++ Printed (error_line e)
            :: cleanup_events (flagged post)) self,
      w3),
     Raise e).
Proof.
  intros Hsteps Hpre Hs He Hpost.
  rewrite (start_creation_raise _ _ _ _ _ _ _ _ sm em ssn rt Hsteps Hpre Hs).
  rewrite He. simpl.
  rewrite (cleanup_steps_returns _ _ _ _ Hpost), emit_emit.
  simpl. by rewrite <- ?app_assoc.
Qed.

(** C2 (as amended).  When step [s] raises a [SystemExit] whose code is
    zero, after the steps before it returned normally, [start_creation]
    prints no error line and calls no further step, flagged or not; the
    exit itself still propagates to the caller, so that neither the end
    message is printed nor the list of steps cleared. *)
Theorem start_creation_exit_zero_skips_cleanup
    self w0 w1 w2 pre s post e sm em ssn rt :
  steps self = pre ++ s :: post →
  run_all invoke (method <$> pre) w0 = Some w1 →
  invoke (method s) w1 = (w2, Raise e) →
  is_exit_zero e = true →
  start_creation invoke sm em ssn rt (self, w0)
  = ((emit (Printed (start_line self sm ssn rt)
            :: progress_events (length (steps self)) 0 (pre ++ [s])) self,
      w2),
     Raise e).
Proof.
  intros Hsteps Hpre Hs He.
  rewrite (start_creation_raise _ _ _ _ _ _ _ _ sm em ssn rt Hsteps Hpre Hs).
  by rewrite He.
Qed.

(** C9 (as amended).  Only a [SystemExit] whose code is the integer zero
    is exempt from the failure handling.  When step [s] raises a
    [SystemExit] with any other code, the error line is printed, the
    cleanup pass runs over the flagged steps that remain, and, every one
    of these returning normally, the same [SystemExit] is raised again. *)
Theorem start_creation_nonzero_exit_is_failure
    self w0 w1 w2 w3 pre s post e code sm em ssn rt :
  exn_class_of e = ClsSystemExit code →
  code ≠ CodeInt 0 →
  steps self = pre ++ s :: post →
  run_all invoke (method <$> pre) w0 = Some w1 →
  invoke (method s) w1 = (w2, Raise e) →
  run_all invoke (method <$> flagged post) w2 = Some w3 →
  (∀ e', is_exit_zero e' = true ↔ exn_class_of e' = ClsSystemExit (CodeInt 0))
  ∧ start_creation invoke sm em ssn rt (self, w0)
    = ((emit (Printed (start_line self sm ssn rt)
              :: progress_events (length (steps self)) 0 (pre ++ [s])
              ++ Printed (error_line e)
              :: cleanup_events (flagged post)) self,
        w3),
       Raise e).
Proof.
  intros Hcls Hcode Hsteps Hpre Hs Hpost. split; [apply is_exit_zero_spec|].
  assert (He : is_exit_zero e = false).
  { apply not_true_is_false. rewrite is_exit_zero_spec. congruence. }
  rewrite (start_creation_raise _ _ _ _ _ _ _ _ sm em ssn rt Hsteps Hpre Hs).
  rewrite He. simpl.
  rewrite (cleanup_steps_returns _ _ _ _ Hpost), emit_emit.
  simpl. by rewrite <- ?app_assoc.
Qed.

End StepRunnerFacts.

(** *** Concrete runs of the step runner *)

Definition scripted_step (name : string) (raises : option exn)
    (run_after_failure : bool) : Step scripted :=
  mkStep name (name, raises) run_after_failure.

Definition install_failed : exn := RuntimeError "install failed".
Definition cleanup_failed : exn := RuntimeError "cleanup failed".

(** Six steps: the second one raises, the fourth and the sixth are
    flagged for the cleanup pass. *)
Definition six_steps (e : exn) : Service scripted :=
  mkService "svc" None
    [ scripted_step "a" None false;
      scripted_step "b" (Some e) false;
      scripted_step "c" None false;
      scripted_step "d" None true;
      scripted_step "e" None false;
      scripted_step "f" None true ] [].

Lemma start_creation_failure_runs_cleanup_witness :
  start_creation invoke_scripted None None true 210 (six_steps install_failed, [])
  = ((emit [ Printed "Configuring svc. Estimated time: 3 minutes 30 seconds";
             Printed "  [1/6]: a"; Called ("a", None);
             Printed "  [2/6]: b"; Called ("b", Some install_failed);
             Printed "  [error] RuntimeError: install failed";
             Printed "  [cleanup]: d"; Called ("d", None);
             Printed "  [cleanup]: f"; Called ("f", None) ]
           (six_steps install_failed),
      ["a"; "b"; "d"; "f"]),
     Raise install_failed).
Proof.
  exact (start_creation_failure_runs_cleanup invoke_scripted
           (six_steps install_failed) [] ["a"] ["a"; "b"] ["a"; "b"; "d"; "f"]
           [scripted_step "a" None false]
           (scripted_step "b" (Some install_failed) false)
           [scripted_step "c" None false; scripted_step "d" None true;
            scripted_step "e" None false; scripted_step "f" None true]
           install_failed None None true 210
           eq_refl eq_refl eq_refl eq_refl eq_refl).
Defined.

(** C1 as the specification states it: after a step raised, the flagged
    steps that remain are all called and the exception of the step is
    raised again, whatever the cleanup steps do. *)
Definition failure_always_reraised {W Method} (invoke : Method → Py W ())
    (self : Service Method) (w0 : W) : Prop :=
  ∀ pre s post w1 w2 e,
    steps self = pre ++ s :: post →
    run_all invoke (method <$> pre) w0 = Some w1 →
    invoke (method s) w1 = (w2, Raise e) →
    is_exit_zero e = false →
    ∃ st, start_creation invoke None None true (-1) (self, w0) = (st, Raise e)
          ∧ calls (output_fd st.1)
            = calls (output_fd self) ++ (method <$> pre ++ s :: flagged post).

(** Three steps: the first raises, the second is a cleanup step that
    raises too, the third is a cleanup step. *)
Definition failing_cleanup : Service scripted :=
  mkService "svc" None
    [ scripted_step "a" (Some install_failed) false;
      scripted_step "b" (Some cleanup_failed) true;
      scripted_step "c" None true ] [].

(** The run on [failing_cleanup]: the cleanup pass stops at the cleanup
    step that raises, and its exception is the one the caller gets. *)
Example start_creation_failing_cleanup_run :
  start_creation invoke_scripted None None true (-1) (failing_cleanup, [])
  = ((emit [ Printed "Configuring svc";
             Printed "  [1/3]: a"; Called ("a", Some install_failed);
             Printed "  [error] RuntimeError: install failed";
             Printed "  [cleanup]: b"; Called ("b", Some cleanup_failed) ]
           failing_cleanup,
      ["a"; "b"]),
     Raise cleanup_failed).
Proof. reflexivity. Qed.

Lemma start_creation_failing_cleanup_counterexample :
  ¬ failure_always_reraised invoke_scripted failing_cleanup [].
Proof.
  intros H.
  destruct (H [] (scripted_step "a" (Some install_failed) false)
              [scripted_step "b" (Some cleanup_failed) true;
               scripted_step "c" None true]
              [] ["a"] install_failed eq_refl eq_refl eq_refl eq_refl)
    as (st & Hrun & _).
  rewrite start_creation_failing_cleanup_run in Hrun. discriminate Hrun.
Qed.

(** One step, which asks for a successful exit. *)
Definition exits_zero : Service scripted :=
  mkService "svc" None
    [ scripted_step "spawn" (Some (SystemExit 0)) false;
      scripted_step "undo" None true ] [].

Lemma start_creation_exit_zero_skips_cleanup_witness :
  start_creation invoke_scripted None None true (-1) (exits_zero, [])
  = ((emit [ Printed "Configuring svc";
             Printed "  [1/2]: spawn"; Called ("spawn", Some (SystemExit 0)) ]
           exits_zero,
      ["spawn"]),
     Raise (SystemExit 0)).
Proof.
  exact (start_creation_exit_zero_skips_cleanup invoke_scripted
           exits_zero [] [] ["spawn"] []
           (scripted_step "spawn" (Some (SystemExit 0)) false)
           [scripted_step "undo" None true]
           (SystemExit 0) None None true (-1)
           eq_refl eq_refl eq_refl eq_refl).
Defined.

(** C2 as the specification states it: after a step asked for a
    successful exit, no further step is called and nothing is raised to
    the caller. *)
Definition exit_zero_not_reraised {W Method} (invoke : Method → Py W ())
    (self : Service Method) (w0 : W) : Prop :=
  ∀ pre s post w1 w2 e,
    steps self = pre ++ s :: post →
    run_all invoke (method <$> pre) w0 = Some w1 →
    invoke (method s) w1 = (w2, Raise e) →
    is_exit_zero e = true →
    ∃ st, start_creation invoke None None true (-1) (self, w0)
          = (st, Returned ())
          ∧ calls (output_fd st.1)
            = calls (output_fd self) ++ (method <$> pre ++ [s]).

Lemma start_creation_exit_zero_counterexample :
  ¬ exit_zero_not_reraised invoke_scripted exits_zero [].
Proof.
  intros H.
  destruct (H [] (scripted_step "spawn" (Some (SystemExit 0)) false)
              [scripted_step "undo" None true]
              [] ["spawn"] (SystemExit 0) eq_refl eq_refl eq_refl eq_refl)
    as (st & Hrun & _).
  vm_compute in Hrun. discriminate Hrun.
Qed.

Lemma start_creation_nonzero_exit_is_failure_witness :
  (∀ e', is_exit_zero e' = true ↔ exn_class_of e' = ClsSystemExit (CodeInt 0))
  ∧ start_creation invoke_scripted None None true 210
      (six_steps (SystemExit 1), [])
    = ((emit [ Printed "Configuring svc. Estimated time: 3 minutes 30 seconds";
               Printed "  [1/6]: a"; Called ("a", None);
               Printed "  [2/6]: b"; Called ("b", Some (SystemExit 1));
               Printed "  [error] SystemExit: 1";
               Printed "  [cleanup]: d"; Called ("d", None);
               Printed "  [cleanup]: f"; Called ("f", None) ]
             (six_steps (SystemExit 1)),
        ["a"; "b"; "d"; "f"]),
       Raise (SystemExit 1)).
Proof.
  refine (start_creation_nonzero_exit_is_failure invoke_scripted
           (six_steps (SystemExit 1)) [] ["a"] ["a"; "b"] ["a"; "b"; "d"; "f"]
           [scripted_step "a" None false]
           (scripted_step "b" (Some (SystemExit 1)) false)
           [scripted_step "c" None false; scripted_step "d" None true;
            scripted_step "e" None false; scripted_step "f" None true]
           (SystemExit 1) (CodeInt 1) None None true 210
           eq_refl _ eq_refl eq_refl eq_refl eq_refl).
  discriminate.
Defined.

(** C9 as stated: after a step raised a [SystemExit] with a code other
    than zero, the error line is printed, the flagged steps that remain
    are all called, and the same [SystemExit] is raised again, whatever
    the cleanup steps do. *)
Definition nonzero_exit_always_reraised {W Method}
    (invoke : Method → Py W ()) (self : Service Method) (w0 : W) : Prop :=
  ∀ pre s post w1 w2 e code,
    exn_class_of e = ClsSystemExit code →
    code ≠ CodeInt 0 →
    steps self = pre ++ s :: post →
    run_all invoke (method <$> pre) w0 = Some w1 →
    invoke (method s) w1 = (w2, Raise e) →
    ∃ st, start_creation invoke None None true (-1) (self, w0) = (st, Raise e)
          ∧ error_line e ∈ printed (output_fd st.1)
          ∧ calls (output_fd st.1)
            = calls (output_fd self) ++ (method <$> pre ++ s :: flagged post).

(** A step that exits with code one, before a cleanup step that raises. *)
Definition exit_one_failing_cleanup : Service scripted :=
  mkService "svc" None
    [ scripted_step "a" (Some (SystemExit 1)) false;
      scripted_step "b" (Some cleanup_failed) true ] [].

Lemma start_creation_nonzero_exit_counterexample :
  ¬ nonzero_exit_always_reraised invoke_scripted exit_one_failing_cleanup [].
Proof.
  intros H.
  destruct (H [] (scripted_step "a" (Some (SystemExit 1)) false)
              [scripted_step "b" (Some cleanup_failed) true]
              [] ["a"] (SystemExit 1) (CodeInt 1) eq_refl) as (st & Hrun & _);
    [discriminate|reflexivity..|].
  vm_compute in Hrun. discriminate Hrun.
Qed.

(** ** [ldap_enable] *)

Section DirectoryFacts.

Context {Os : Type}.
Variable service_disable : Py Os ().

Lemma enabled_count_app (l1 l2 : list string) :
  enabled_count (l1 ++ l2) = (enabled_count l1 + enabled_count l2)%nat.
Proof. unfold enabled_count. by rewrite List.filter_app, length_app. Qed.

Lemma existsb_enabled_count (l : list string) :
  existsb is_enabled_tag l = false ↔ enabled_count l = 0%nat.
Proof.
  unfold enabled_count. induction l as [|x l IH]; simpl; [done|].
  destruct (is_enabled_tag x); simpl; [done|]. exact IH.
Qed.

Lemma enabled_count_singleton (x : string) :
  enabled_count [x] = if is_enabled_tag x then 1%nat else 0%nat.
Proof. unfold enabled_count. simpl. by destruct (is_enabled_tag x). Qed.

Lemma start_order_is_no_tag (order : string) :
  is_enabled_tag ("startOrder " +:+ order) = false.
Proof. unfold is_enabled_tag. by apply bool_decide_eq_false. Qed.

Lemma app_singleton_neq {A} (l : list A) (x : A) : l ≠ l ++ [x].
Proof.
  intros H. apply (f_equal length) in H. rewrite length_app in H.
  simpl in H. lia.
Qed.

(** [ldap_enable], case by case. *)
Lemma ldap_enable_cases name fqdn pw suffix config (h : Host Os) :
  ldap_enable service_disable name fqdn pw suffix config h
  = let dn := service_entry_dn name fqdn suffix in
    let '(o, r) := service_disable (os h) in
    match r with
    | Raise e => (mkHost o (directory h) (ops h ++ [OsDisable]), Raise e)
    | Returned _ =>
        match directory h !! dn with
        | Some entry =>
            if existsb is_enabled_tag (ipaConfigString entry)
            then (mkHost o (directory h) (ops h ++ [OsDisable; DirGet dn]),
                  Returned ())
            else (mkHost o
                    (<[dn := set_ipaConfigString
                               (ipaConfigString entry ++ ["enabledService"])
                               entry]> (directory h))
                    (ops h ++ [OsDisable; DirGet dn; DirUpdate dn]),
                  Returned ())
        | None =>
            match SERVICE_LIST !! name with
            | None => (mkHost o (directory h) (ops h ++ [OsDisable; DirGet dn]),
                       Raise (KeyError name))
            | Some (_, order) =>
                (mkHost o
                   (<[dn := mkEntry ["nsContainer"; "ipaConfigObject"] [name]
                              (["enabledService";
                                "startOrder " +:+ pretty order] ++ config)]>
                      (directory h))
                   (ops h ++ [OsDisable; DirGet dn; DirAdd dn]),
                 Returned ())
            end
        end
    end.
Proof.
  unfold ldap_enable. cbv zeta.
  generalize (SERVICE_LIST !! name), (service_entry_dn name fqdn suffix).
  intros svc dn.
  unfold bind, disable, try_except_else, get_entry, log_op. cbn.
  destruct (service_disable (os h)) as [o [[]|e]]; cbn; [|done].
  destruct (directory h !! dn) as [entry|] eqn:Hentry; cbn.
  - destruct (existsb is_enabled_tag (ipaConfigString entry)); cbn.
    { unfold ret. by rewrite <- app_assoc. }
    unfold update_entry, log_op. cbn. rewrite Hentry.
    rewrite bool_decide_eq_false_2 by apply app_singleton_neq.
    unfold ret. by rewrite <- !app_assoc.
  - destruct svc as [[svc order]|]; cbn.
    + unfold add_entry, log_op. cbn. rewrite Hentry.
      unfold ret. by rewrite <- !app_assoc.
    + unfold raise. by rewrite <- app_assoc.
Qed.

(** The call on a record that carries the tag already: nothing but the
    OS-level disable and the look at the record happens. *)
Lemma ldap_enable_enabled name fqdn pw suffix config (h : Host Os) entry :
  directory h !! service_entry_dn name fqdn suffix = Some entry →
  existsb is_enabled_tag (ipaConfigString entry) = true →
  ldap_enable service_disable name fqdn pw suffix config h
  = let '(o, r) := service_disable (os h) in
    match r with
    | Returned _ =>
        (mkHost o (directory h)
                (ops h ++ [OsDisable; DirGet (service_entry_dn name fqdn suffix)]),
         Returned ())
    | Raise e => (mkHost o (directory h) (ops h ++ [OsDisable]), Raise e)
    end.
Proof.
  intros Hentry Htag. rewrite ldap_enable_cases. cbv zeta.
  destruct (service_disable (os h)) as [o [[]|e]]; [|done].
  by rewrite Hentry, Htag.
Qed.

(** A call that returns leaves a record that carries the tag; the tag
    is counted once when the call did not find more than one and was not
    given one in [config]. *)
Lemma ldap_enable_returned name fqdn pw suffix config (h h1 : Host Os) :
  ldap_enable service_disable name fqdn pw suffix config h
  = (h1, Returned ()) →
  ∃ entry1,
    directory h1 !! service_entry_dn name fqdn suffix = Some entry1
    ∧ existsb is_enabled_tag (ipaConfigString entry1) = true
    ∧ (enabled_count config = 0%nat →
       (∀ entry, directory h !! service_entry_dn name fqdn suffix = Some entry →
                 (enabled_count (ipaConfigString entry) ≤ 1)%nat) →
       enabled_count (ipaConfigString entry1) = 1%nat).
Proof.
  rewrite ldap_enable_cases. cbv zeta.
  generalize (SERVICE_LIST !! name). intros svc.
  destruct (service_disable (os h)) as [o [[]|e]]; [|done].
  destruct (directory h !! service_entry_dn name fqdn suffix)
    as [entry|] eqn:Hentry.
  - destruct (existsb is_enabled_tag (ipaConfigString entry)) eqn:Htag.
    + intros [= <-]. cbn [ipaConfigString set_ipaConfigString directory]. exists entry. split; [done|]. split; [done|].
      intros _ Hle. specialize (Hle _ eq_refl).
      assert (enabled_count (ipaConfigString entry) ≠ 0%nat); [|lia].
      rewrite <- existsb_enabled_count. by rewrite Htag.
    + intros [= <-]. cbn [ipaConfigString set_ipaConfigString directory]. rewrite lookup_insert_eq.
      eexists. split; [done|]. cbn [ipaConfigString set_ipaConfigString directory]. split.
      * rewrite existsb_app. cbn [ipaConfigString set_ipaConfigString directory]. by rewrite orb_true_r.
      * intros _ _. rewrite enabled_count_app.
        apply existsb_enabled_count in Htag. by rewrite Htag.
  - destruct svc as [[svc order]|]; [|done].
    intros [= <-]. cbn [ipaConfigString set_ipaConfigString directory]. rewrite lookup_insert_eq.
    eexists. split; [done|]. cbn [ipaConfigString set_ipaConfigString directory]. split; [done|].
    intros Hconfig _.
    change (enabled_count (["enabledService"]
              ++ ["startOrder " +:+ pretty order] ++ config) = 1%nat).
    rewrite !enabled_count_app, Hconfig, !enabled_count_singleton.
    by rewrite start_order_is_no_tag.
Qed.

(** C7.  A call of [ldap_enable] that returns leaves a record on which a
    second call for the same service and host is a no-op: whatever the
    second call is given as [config], it changes nothing in the directory
    and returns once the OS-level disable has returned.  The record then
    carries the tag exactly once, the comparison being that of the code,
    provided the first call was not handed the tag in [config] and did
    not find it more than once in the record. *)
Theorem ldap_enable_twice name fqdn pw pw' suffix config config'
    (h h1 h2 : Host Os) r :
  enabled_count config = 0%nat →
  (∀ entry, directory h !! service_entry_dn name fqdn suffix = Some entry →
            (enabled_count (ipaConfigString entry) ≤ 1)%nat) →
  ldap_enable service_disable name fqdn pw suffix config h
  = (h1, Returned ()) →
  ldap_enable service_disable name fqdn pw' suffix config' h1 = (h2, r) →
  directory h2 = directory h1
  ∧ ((service_disable (os h1)).2 = Returned () → r = Returned ())
  ∧ ∃ entry,
      directory h2 !! service_entry_dn name fqdn suffix = Some entry
      ∧ enabled_count (ipaConfigString entry) = 1%nat.
Proof.
  intros Hconfig Hle Hfirst Hsecond.
  destruct (ldap_enable_returned _ _ _ _ _ _ _ Hfirst)
    as (entry1 & Hentry1 & Htag1 & Hcount).
  rewrite (ldap_enable_enabled _ _ _ _ _ _ _ Hentry1 Htag1) in Hsecond.
  destruct (service_disable (os h1)) as [o [[]|e]];
    injection Hsecond as <- <-; cbn.
  - split; [done|]. split; [done|]. exists entry1. auto.
  - split; [done|]. split; [done|]. exists entry1. auto.
Qed.

(** C10.  Every call of [ldap_enable] starts with the OS-level disable,
    whatever the directory holds: it is the first operation of the call,
    and the state of the service manager after the call is the one the
    disable leaves.  On the path where the record carries the tag
    already, the call goes on to read the record and changes nothing
    else. *)
Theorem ldap_enable_disables_first name fqdn pw suffix config (h : Host Os) :
  let h' := (ldap_enable service_disable name fqdn pw suffix config h).1 in
  (∃ rest, ops h' = ops h ++ OsDisable :: rest)
  ∧ os h' = (service_disable (os h)).1
  ∧ (∀ entry,
       directory h !! service_entry_dn name fqdn suffix = Some entry →
       existsb is_enabled_tag (ipaConfigString entry) = true →
       directory h' = directory h
       ∧ (∃ rest, (ops h' = ops h ++ OsDisable :: rest)
                  ∧ (∀ dn, (DirUpdate dn ∉ rest) ∧ (DirAdd dn ∉ rest)))).
Proof.
  cbv zeta. split; [|split].
  - rewrite ldap_enable_cases. cbv zeta.
    generalize (SERVICE_LIST !! name). intros svc.
    destruct (service_disable (os h)) as [o [[]|e]]; [|by exists []].
    destruct (directory h !! service_entry_dn name fqdn suffix) as [entry|].
    + destruct (existsb is_enabled_tag (ipaConfigString entry));
        by eexists.
    + destruct svc as [[svc order]|]; by eexists.
  - rewrite ldap_enable_cases. cbv zeta.
    generalize (SERVICE_LIST !! name). intros svc.
    destruct (service_disable (os h)) as [o [[]|e]]; [|done].
    destruct (directory h !! service_entry_dn name fqdn suffix) as [entry|].
    + by destruct (existsb is_enabled_tag (ipaConfigString entry)).
    + by destruct svc as [[svc order]|].
  - intros entry Hentry Htag.
    rewrite (ldap_enable_enabled _ _ _ _ _ _ _ Hentry Htag).
    destruct (service_disable (os h)) as [o [[]|e]]; cbn.
    + split; [done|]. eexists. split; [done|].
      intros dn. split; intros Hin; apply list_elem_of_singleton in Hin;
        discriminate Hin.
    + split; [done|]. exists []. split; [done|].
      intros dn. split; apply not_elem_of_nil.
Qed.

End DirectoryFacts.

(** *** Concrete calls of [ldap_enable] *)

(** A service manager whose state is whether the service is enabled, and
    whose disable always succeeds. *)
Definition disable_succeeds : Py bool () := λ _, (false, Returned ()).

Definition example_suffix : DN := [("dc", "example"); ("dc", "test")].

Definition fresh_host : Host bool := mkHost true ∅ [].

Definition ca_entry_dn : DN :=
  service_entry_dn "CA" "ipa.example.test" example_suffix.

(** The host after the CA service was enabled once. *)
Definition ca_enabled_host : Host bool :=
  mkHost false
    {[ ca_entry_dn :=
         mkEntry ["nsContainer"; "ipaConfigObject"] ["CA"]
                 ["enabledService"; "startOrder 50"; "caRenewalMaster"] ]}
    [OsDisable; DirGet ca_entry_dn; DirAdd ca_entry_dn].

Example ldap_enable_first_call :
  ldap_enable disable_succeeds "CA" "ipa.example.test" None example_suffix
              ["caRenewalMaster"] fresh_host
  = (ca_enabled_host, Returned ()).
Proof. reflexivity. Qed.

(** The host after a second call: the directory is the same. *)
Definition ca_enabled_twice_host : Host bool :=
  mkHost false (directory ca_enabled_host)
    (ops ca_enabled_host ++ [OsDisable; DirGet ca_entry_dn]).

Example ldap_enable_second_call :
  ldap_enable disable_succeeds "CA" "ipa.example.test" None example_suffix
              ["caRenewalMaster"] ca_enabled_host
  = (ca_enabled_twice_host, Returned ()).
Proof. reflexivity. Qed.

Example fresh_host_has_no_record (entry : Entry) :
  directory fresh_host !! ca_entry_dn = Some entry →
  (enabled_count (ipaConfigString entry) ≤ 1)%nat.
Proof. intros H. simpl in H. rewrite lookup_empty in H. discriminate H. Qed.

Lemma ldap_enable_twice_witness :
  directory ca_enabled_twice_host = directory ca_enabled_host
  ∧ ((disable_succeeds (os ca_enabled_host)).2 = Returned () →
     Returned () = Returned ())
  ∧ ∃ entry, directory ca_enabled_twice_host !! ca_entry_dn = Some entry
             ∧ enabled_count (ipaConfigString entry) = 1%nat.
Proof.
  exact (ldap_enable_twice disable_succeeds "CA" "ipa.example.test" None None
           example_suffix ["caRenewalMaster"] ["caRenewalMaster"]
           fresh_host ca_enabled_host ca_enabled_twice_host (Returned ())
           eq_refl fresh_host_has_no_record
           ldap_enable_first_call ldap_enable_second_call).
Defined.

Lemma ldap_enable_disables_first_witness :
  let h' :=
    (ldap_enable disable_succeeds "CA" "ipa.example.test" None example_suffix
                 [] ca_enabled_host).1 in
  directory h' = directory ca_enabled_host
  ∧ ops h' = ops ca_enabled_host ++ [OsDisable; DirGet ca_entry_dn].
Proof.
  destruct (ldap_enable_disables_first disable_succeeds "CA"
              "ipa.example.test" None example_suffix [] ca_enabled_host)
    as (_ & _ & H).
  destruct (H (mkEntry ["nsContainer"; "ipaConfigObject"] ["CA"]
                 ["enabledService"; "startOrder 50"; "caRenewalMaster"])
              eq_refl eq_refl) as [Hdir _].
  split; [exact Hdir|reflexivity].
Defined.

(** ** The CA installation pipeline *)

Section StepRunnerInvariant.

Context {W Method A : Type}.
Variable invoke : Method → Py W ().
Variable f : W → A.
Hypothesis invoke_keeps : ∀ m w, f (invoke m w).1 = f w.

Lemma run_step_keeps msg m (st : Service Method * W) :
  f (run_step invoke msg m st).1.2 = f st.2.
Proof.
  unfold run_step, bind, print_msg, call; simpl.
  specialize (invoke_keeps m st.2).
  by destruct (invoke m st.2) as [w r].
Qed.

Lemma try_steps_keeps total : ∀ it step (st : Service Method * W),
  f (try_steps invoke total step it st).1.2 = f st.2.
Proof.
  induction it as [|s it IH]; intros step st; simpl; [done|].
  pose proof (run_step_keeps (progress_line total step (message s))
                (method s) st) as Hs.
  destruct (run_step invoke _ (method s) st) as [st1 [[]|e]]; simpl in *.
  - by rewrite IH.
  - done.
Qed.

Lemma cleanup_steps_keeps : ∀ it (st : Service Method * W),
  f (cleanup_steps invoke it st).1.2 = f st.2.
Proof.
  induction it as [|s it IH]; intros st; simpl; [done|].
  unfold bind. destruct (run_after_failure s).
  - pose proof (run_step_keeps (cleanup_line (message s)) (method s) st) as Hs.
    destruct (run_step invoke _ (method s) st) as [st1 [[]|e]]; simpl in *.
    + by rewrite IH.
    + done.
  - simpl. by rewrite IH.
Qed.

(** What no step changes, [start_creation] does not change. *)
Lemma start_creation_keeps sm em ssn rt (st : Service Method * W) :
  f (start_creation invoke sm em ssn rt st).1.2 = f st.2.
Proof.
  unfold start_creation. rewrite print_msg_if. simpl.
  set (st0 := (emit _ st.1, st.2)).
  pose proof (try_steps_keeps (length (steps st.1)) (steps st.1) 0 st0) as Ht.
  destruct (try_steps invoke _ 0 (steps st.1) st0) as [st1 [[e rest]|]];
    simpl in Ht.
  - destruct (is_exit_zero e); simpl; [done|].
    unfold bind, print_msg, raise; simpl.
    pose proof (cleanup_steps_keeps rest
                  (emit [Printed (error_line e)] st1.1, st1.2)) as Hc.
    destruct (cleanup_steps invoke rest _) as [st2 [[]|e']]; simpl in *;
      by rewrite Hc.
  - unfold bind, print_msg; simpl. done.
Qed.

End StepRunnerInvariant.

Section CAFacts.

Context {Ext : Type}.
Variable CA_CS_CFG_PATH : string.
Variable CA_BACKUP_KEYS_P12 : string.
Variable CACERT_P12 : string.
Variable argv0 : string.
Variable get_cert_from_db : Env Ext → string → string.
Variable pkispawn : CAInstance → Py (Env Ext) ().
Variable collaborator : CAStep → CAInstance → Py (Env Ext) ().

Abbreviation invoke_ca :=
  (ca_invoke CA_CS_CFG_PATH CA_BACKUP_KEYS_P12 CACERT_P12 argv0 pkispawn
             collaborator).
Abbreviation configure :=
  (configure_instance CA_CS_CFG_PATH CA_BACKUP_KEYS_P12 CACERT_P12 argv0
                      get_cert_from_db pkispawn collaborator).

(** Updates of the runner that only append steps. *)
Definition appends (f : Service CAStep → Service CAStep) : Prop :=
  ∃ l, ∀ svc, f svc = set_steps (steps svc ++ l) svc.

Lemma appends_id : appends (λ svc, svc).
Proof.
  exists []. intros [name desc l out]. unfold set_steps. simpl.
  by rewrite app_nil_r.
Qed.

Lemma appends_step msg m b : appends (step msg m b).
Proof. by exists [mkStep msg m b]. Qed.

Lemma appends_then f g :
  appends f → appends g → appends (λ svc, f svc |> g).
Proof.
  intros [l1 H1] [l2 H2]. exists (l1 ++ l2). intros svc.
  unfold then_do. rewrite H2, H1. unfold set_steps. simpl.
  by rewrite app_assoc.
Qed.

Lemma appends_when c f : appends f → appends (when c f).
Proof. intros H. destruct c; [exact H|apply appends_id]. Qed.

Lemma appends_if (c : bool) f g :
  appends f → appends g → appends (if c then f else g).
Proof. by destruct c. Qed.

Lemma appends_spec f :
  appends f →
  ∀ svc, f svc = set_steps (steps svc ++ steps (f (mkService "" None [] []))) svc.
Proof. intros [l H] svc. rewrite (H (mkService _ _ _ _)). simpl. apply H. Qed.

Lemma register_steps_only_appends self has_ra_cert ra_p12 ra_only promote :
  appends (register_steps self has_ra_cert ra_p12 ra_only promote).
Proof.
  unfold register_steps.
  repeat first
    [ apply appends_id | apply appends_step | apply appends_when
    | apply appends_if | apply appends_then ].
Qed.

(** [configure_instance] appends to the steps of the runner. *)
Lemma register_steps_appends self has_ra_cert ra_p12 ra_only promote svc :
  register_steps self has_ra_cert ra_p12 ra_only promote svc
  = set_steps (steps svc
               ++ declared_steps self has_ra_cert ra_p12 ra_only promote) svc.
Proof. apply (appends_spec _ (register_steps_only_appends _ _ _ _ _)). Qed.

(** The step list is the decision table of the specification. *)
Lemma declared_steps_table self has_ra_cert ra_p12 ra_only promote :
  method <$> declared_steps self has_ra_cert ra_p12 ra_only promote
  = spawn_group ra_only promote
    ++ (if bool_decide (external self ≠ 1)
        then (if has_ra_cert then []
              else agent_cert_branch (clone self) promote ra_p12)
             ++ (if ra_only then []
                 else chain_profile_acl_branch (clone self) promote)
        else []).
Proof.
  unfold declared_steps, register_steps.
  destruct ra_only, promote, has_ra_cert, (clone self),
    (bool_decide (external self ≠ 1)); vm_compute; reflexivity.
Qed.

Lemma ca_invoke_keeps_instance m (w : CAInstance * Env Ext) :
  (invoke_ca m w).1.1 = w.1.
Proof.
  unfold ca_invoke.
  by destruct m;
    match goal with |- context [let '(_, _) := ?c in _] => destruct c end.
Qed.

Lemma determine_external_spec csr cert chain self :
  match csr, cert with
  | Some _, _ =>
      external (determine_external csr cert chain self) = 1
      ∧ csr_file (determine_external csr cert chain self) = csr
  | None, Some _ =>
      external (determine_external csr cert chain self) = 2
      ∧ cert_file (determine_external csr cert chain self) = cert
      ∧ cert_chain_file (determine_external csr cert chain self) = chain
  | None, None => determine_external csr cert chain self = self
  end.
Proof. by destruct self, csr, cert. Qed.

Lemma set_clone_external pkcs12_info self :
  external (set_clone pkcs12_info self) = external self.
Proof. by destruct pkcs12_info. Qed.

(** C4.  [configure_instance] determines the state of the external-CA
    protocol from its optional arguments, the path of the CSR before
    that of the certificate: 1 with the path recorded when [csr_file] is
    given; otherwise 2 with certificate and chain recorded when
    [cert_file] is given; otherwise the state stays what it was, which is
    0 on a [CAInstance] as [__init__] leaves it.  No step changes the
    instance, and the state at the end of the run, however it ends, is
    the state determined at its start. *)
Theorem configure_instance_external_state
    pkcs12_info csr cert chain ra_p12 ra_only promote svc self env :
  let self' :=
    (configure pkcs12_info csr cert chain ra_p12 ra_only promote
               (svc, (self, env))).1.2.1 in
  match csr, cert with
  | Some _, _ => external self' = 1 ∧ csr_file self' = csr
  | None, Some _ =>
      external self' = 2 ∧ cert_file self' = cert
      ∧ cert_chain_file self' = chain
  | None, None => external self' = external self
  end
  ∧ (∀ clone0, external (CAInstance_init clone0) = 0)
  ∧ self' = determine_external csr cert chain (set_clone pkcs12_info self)
  ∧ ∀ m w, (invoke_ca m w).1.1 = w.1.
Proof.
  intros self'.
  assert (Hrun : self' = determine_external csr cert chain
                           (set_clone pkcs12_info self)).
  { subst self'. unfold configure_instance.
    apply (start_creation_keeps invoke_ca fst ca_invoke_keeps_instance). }
  split; [|split; [done|split; [exact Hrun|apply ca_invoke_keeps_instance]]].
  rewrite Hrun.
  pose proof (determine_external_spec csr cert chain
                (set_clone pkcs12_info self)) as H.
  destruct csr, cert; try exact H.
  rewrite H. apply set_clone_external.
Qed.

(** C5.  On an invocation that is not in the CSR-pending state, the
    check for an existing agent certificate is made once, on the
    environment as it is before [start_creation] runs any step, and the
    step list is fixed from its value.  The value decides only whether
    the certmonger renewal configuration and the one RA certificate
    request or import step are registered; the chain import, profile,
    ACL and renewal steps follow whenever [ra_only] is false, whatever
    the value. *)
Theorem has_ra_cert_gates_agent_branch_only
    pkcs12_info csr cert chain ra_p12 ra_only promote svc self env :
  let self' :=
    determine_external csr cert chain (set_clone pkcs12_info self) in
  external self' ≠ 1 →
  configure pkcs12_info csr cert chain ra_p12 ra_only promote
            (svc, (self, env))
  = start_creation invoke_ca None None true 210
      (register_steps self' (has_ra_cert_check get_cert_from_db self' env)
                      ra_p12 ra_only promote svc,
       (self', env))
  ∧ ∀ has_ra_cert,
      method <$> steps (register_steps self' has_ra_cert ra_p12 ra_only
                                       promote svc)
      = (method <$> steps svc)
        ++ spawn_group ra_only promote
        ++ (if has_ra_cert then []
            else agent_cert_branch (clone self') promote ra_p12)
        ++ (if ra_only then []
            else chain_profile_acl_branch (clone self') promote).
Proof.
  intros self' Hext. split; [done|].
  intros has_ra_cert. rewrite register_steps_appends.
  cbn [steps set_steps]. rewrite fmap_app, declared_steps_table.
  by rewrite (bool_decide_eq_true_2 _ Hext).
Qed.

(** C8.  The module-level [backup_config] refuses to work while the
    [pki-tomcat] service runs: it raises a [RuntimeError] and leaves the
    files as they are.  Otherwise, the configuration file being there,
    it copies it to the path with the suffix [.ipabkp] besides it. *)
Theorem backup_config_refused_when_running (env : Env Ext) :
  (pki_tomcatd_running env = true →
   backup_config CA_CS_CFG_PATH env
   = (env, Raise (RuntimeError
                    ("Dogtag must be stopped when creating backup of "
                     +:+ CA_CS_CFG_PATH))))
  ∧ (pki_tomcatd_running env = false →
     ∀ content, files env !! CA_CS_CFG_PATH = Some content →
       backup_config CA_CS_CFG_PATH env
       = (set_files (<[CA_CS_CFG_PATH +:+ ".ipabkp" := content]> (files env))
                    env,
          Returned ())).
Proof.
  unfold backup_config, shutil_copy, raise. split.
  - by intros ->.
  - intros -> content Hfile. by rewrite Hfile.
Qed.

(** As a step, the refused backup is logged and the run goes on. *)
Lemma CAInstance_backup_config_running (env : Env Ext) :
  pki_tomcatd_running env = true →
  CAInstance_backup_config CA_CS_CFG_PATH env = (env, Returned ()).
Proof.
  intros H. unfold CAInstance_backup_config, try_except_else, backup_config.
  by rewrite H.
Qed.

(** The steps of the first group, around the subsystem spawn. *)
Definition steps_before_spawn (promote : bool) : list (Step CAStep) :=
  [mkStep "creating certificate server user" m_create_ca_user false]
  ++ (if promote
      then [ mkStep "creating certificate server db" m_create_ds_db false;
             mkStep "setting up initial replication" m_setup_replication false;
             mkStep "creating installation admin user" m_setup_admin false ]
      else []).

Definition spawn_step : Step CAStep :=
  mkStep "configuring certificate server instance" m_spawn_instance false.

Definition steps_after_spawn (promote : bool) : list (Step CAStep) :=
  [ mkStep "stopping certificate server instance to update CS.cfg"
           m_stop_instance false;
    mkStep "backing up CS.cfg" m_backup_config false;
    mkStep "disabling nonces" m_disable_nonce false;
    mkStep "set up CRL publishing" m_enable_crl_publish false;
    mkStep "enable PKIX certificate path discovery and validation"
           m_enable_pkix false ]
  ++ (if promote
      then [mkStep "destroying installation admin user" m_teardown_admin false]
      else [])
  ++ [mkStep "starting certificate server instance" m_start_instance false].

(** In the CSR-pending state, only the first group of steps is
    registered. *)
Lemma declared_steps_csr_pending self has_ra_cert ra_p12 promote :
  external self = 1 →
  declared_steps self has_ra_cert ra_p12 false promote
  = steps_before_spawn promote ++ spawn_step :: steps_after_spawn promote.
Proof.
  intros H. unfold declared_steps, register_steps.
  rewrite (bool_decide_eq_false_2 (external self ≠ 1)) by tauto.
  destruct promote; vm_compute; reflexivity.
Qed.

Lemma steps_before_spawn_methods promote :
  method <$> steps_before_spawn promote = before_spawn promote.
Proof. by destruct promote. Qed.

(** What the environment looks like once the instructions of the first
    phase are printed. *)
Definition instructions_printed (self : CAInstance) (env : Env Ext)
  : Env Ext :=
  mkEnv (stdout env ++ [next_step_line argv0 self; rerun_line argv0])
        (pki_tomcatd_running env) (files env) (ext env).

(** The subsystem spawn in the CSR-pending state: once [pkispawn] has
    returned, the two lines of instructions are printed and the exit with
    code zero follows at once. *)
Lemma spawn_instance_csr_pending self env1 env2 :
  external self = 1 →
  pkispawn self env1 = (env2, Returned ()) →
  spawn_instance CA_BACKUP_KEYS_P12 CACERT_P12 argv0 pkispawn self env1
  = (instructions_printed self env2, Raise (SystemExit 0)).
Proof.
  intros Hext Hspawn. unfold spawn_instance, bind. rewrite Hspawn.
  rewrite (bool_decide_eq_true_2 _ Hext).
  unfold print, raise, instructions_printed. cbn.
  by rewrite <- app_assoc.
Qed.

(** C3 (as amended).  On an invocation with [csr_file] given, on a
    runner without earlier steps, the methods called are, in their order,
    among the steps of the first group only (that is none when [ra_only]
    is set), however the run ends.  When [ra_only] is false and the steps
    before the subsystem spawn and [pkispawn] itself return normally, the
    spawn step prints the two lines of instructions, the first naming
    the CSR file, and the run ends there with [SystemExit] of code zero:
    the steps called are those up to the spawn, and none after it. *)
Theorem csr_pending_stops_at_spawn
    pkcs12_info csr cert chain ra_p12 ra_only promote svc self env :
  let self' :=
    determine_external (Some csr) cert chain (set_clone pkcs12_info self) in
  steps svc = [] →
  (∀ st' r,
     configure pkcs12_info (Some csr) cert chain ra_p12 ra_only promote
               (svc, (self, env)) = (st', r) →
     ∃ evs, output_fd st'.1 = output_fd svc ++ evs
            ∧ calls evs `sublist_of` spawn_group ra_only promote)
  ∧ (ra_only = false →
     ∀ env1 env2,
       run_all invoke_ca (before_spawn promote) (self', env)
       = Some (self', env1) →
       pkispawn self' env1 = (env2, Returned ()) →
       csr_file self' = Some csr
       ∧ ∃ evs,
           configure pkcs12_info (Some csr) cert chain ra_p12 ra_only promote
                     (svc, (self, env))
           = ((emit evs (register_steps self'
                           (has_ra_cert_check get_cert_from_db self' env)
                           ra_p12 ra_only promote svc),
               (self', instructions_printed self' env2)),
              Raise (SystemExit 0))
           ∧ calls evs = before_spawn promote ++ [m_spawn_instance]).
Proof.
  intros self' Hsvc.
  destruct (determine_external_spec (Some csr) cert chain
              (set_clone pkcs12_info self)) as [Hext Hcsr].
  fold self' in Hext, Hcsr.
  split.
  - intros st' r Hrun. unfold configure_instance in Hrun. fold self' in Hrun.
    apply start_creation_calls in Hrun as (evs & Hout & Hsub).
    cbn [fst] in Hout, Hsub. rewrite register_steps_appends in Hout, Hsub.
    cbn [steps output_fd set_steps] in Hout, Hsub.
    exists evs. split; [done|].
    rewrite Hsvc, app_nil_l, declared_steps_table in Hsub.
    rewrite (bool_decide_eq_false_2 (external self' ≠ 1)) in Hsub by tauto.
    by rewrite app_nil_r in Hsub.
  - intros -> env1 env2 Hpre Hspawn. split; [done|].
    assert (Hinvoke : invoke_ca m_spawn_instance (self', env1)
                      = ((self', instructions_printed self' env2),
                         Raise (SystemExit 0))).
    { unfold ca_invoke. cbn [fst snd].
      by rewrite (spawn_instance_csr_pending _ _ _ Hext Hspawn). }
    unfold configure_instance. fold self'.
    set (svc1 := register_steps self' _ ra_p12 false promote svc).
    assert (Hsteps : steps svc1
                     = steps_before_spawn promote
                       ++ spawn_step :: steps_after_spawn promote).
    { subst svc1. rewrite register_steps_appends.
      change (steps svc ++ declared_steps self'
                (has_ra_cert_check get_cert_from_db self' env) ra_p12 false
                promote
              = steps_before_spawn promote
                ++ spawn_step :: steps_after_spawn promote).
      by rewrite Hsvc, app_nil_l, (declared_steps_csr_pending _ _ _ _ Hext). }
    rewrite <- steps_before_spawn_methods in Hpre.
    eexists. split.
    + exact (start_creation_raise invoke_ca svc1 (self', env) (self', env1)
               (self', instructions_printed self' env2)
               (steps_before_spawn promote) spawn_step
               (steps_after_spawn promote) (SystemExit 0)
               None None true 210 Hsteps Hpre Hinvoke).
    + change (calls (Printed (start_line svc1 None true 210)
                     :: progress_events (length (steps svc1)) 0
                          (steps_before_spawn promote ++ [spawn_step]))
              = before_spawn promote ++ [m_spawn_instance]).
      change (calls (progress_events (length (steps svc1)) 0
                       (steps_before_spawn promote ++ [spawn_step]))
              = before_spawn promote ++ [m_spawn_instance]).
      rewrite calls_progress_events, fmap_app.
      by rewrite steps_before_spawn_methods.
Qed.

End CAFacts.

(** *** Concrete invocations of the pipeline *)

(** A platform on which [pkispawn] and every collaborator succeed and do
    nothing, and the certificate store holds no agent certificate. *)
Definition CS_CFG : string := "/var/lib/pki/pki-tomcat/conf/ca/CS.cfg".
Definition BACKUP_KEYS_P12 : string :=
  "/var/lib/pki/pki-tomcat/alias/ca_backup_keys.p12".
Definition ROOT_CACERT_P12 : string := "/root/cacert.p12".
Definition installer : string := "ipa-server-install".

Definition quiet_configure :=
  configure_instance (Ext := ()) CS_CFG BACKUP_KEYS_P12 ROOT_CACERT_P12
    installer (λ _ _, "") (λ _, ret ()) (λ _ _, ret ()).

Definition quiet_invoke :=
  ca_invoke (Ext := ()) CS_CFG BACKUP_KEYS_P12 ROOT_CACERT_P12
    installer (λ _, ret ()) (λ _ _, ret ()).

Definition ca_service : Service CAStep :=
  mkService "pki-tomcatd" (Some "certificate server") [] [].

(** The subsystem is stopped and its configuration file is in place. *)
Definition stopped_env : Env () :=
  mkEnv [] false {[ CS_CFG := "ca.enableNonces=true" ]} ().

Definition running_env : Env () :=
  mkEnv [] true {[ CS_CFG := "ca.enableNonces=true" ]} ().

Definition csr_pending_instance : CAInstance :=
  mkCA 1 (Some "/root/ipa.csr") None None false.

Lemma csr_pending_stops_at_spawn_witness :
  ∃ evs,
    quiet_configure None (Some "/root/ipa.csr") None None None false false
                    (ca_service, (CAInstance_init false, stopped_env))
    = ((emit evs (register_steps csr_pending_instance false None false false
                                 ca_service),
        (csr_pending_instance,
         mkEnv [ "The next step is to get /root/ipa.csr signed by your CA and re-run ipa-server-install as:";
                 "ipa-server-install --external-cert-file=/path/to/signed_certificate --external-cert-file=/path/to/external_ca_certificate" ]
               false {[ CS_CFG := "ca.enableNonces=true" ]} ())),
       Raise (SystemExit 0))
    ∧ calls evs = [m_create_ca_user; m_spawn_instance].
Proof.
  destruct (csr_pending_stops_at_spawn CS_CFG BACKUP_KEYS_P12 ROOT_CACERT_P12
              installer (λ _ _, "") (λ _, ret ()) (λ _ _, ret ())
              None "/root/ipa.csr" None None None false false
              ca_service (CAInstance_init false) stopped_env eq_refl)
    as [_ H].
  destruct (H eq_refl stopped_env stopped_env eq_refl eq_refl) as [_ Hrun].
  exact Hrun.
Defined.

(** C3 as the specification states it: every invocation in the
    CSR-pending state ends with the exit of code zero. *)
Definition csr_pending_always_exits
    (pkcs12_info cert chain ra_p12 : option string) (ra_only promote : bool)
    (st : Service CAStep * (CAInstance * Env ())) : Prop :=
  ∀ csr, ∃ st',
    quiet_configure pkcs12_info (Some csr) cert chain ra_p12 ra_only promote st
    = (st', Raise (SystemExit 0)).

(** With [ra_only] set, no step is registered and the run returns. *)
Example configure_instance_csr_ra_only_run :
  quiet_configure None (Some "/root/ipa.csr") None None None true false
                  (ca_service, (CAInstance_init false, stopped_env))
  = ((emit [ Printed "Configuring certificate server (pki-tomcatd). Estimated time: 3 minutes 30 seconds";
             Printed "Done configuring certificate server (pki-tomcatd)." ]
           ca_service,
      (csr_pending_instance, stopped_env)),
     Returned ()).
Proof. reflexivity. Qed.

Lemma csr_pending_ra_only_counterexample :
  ¬ csr_pending_always_exits None None None None true false
      (ca_service, (CAInstance_init false, stopped_env)).
Proof.
  intros H. destruct (H "/root/ipa.csr") as [st' Hrun].
  rewrite configure_instance_csr_ra_only_run in Hrun. discriminate Hrun.
Qed.

(** A plain clone: with and without an agent certificate in the store. *)
Definition plain_clone : CAInstance := mkCA 0 None None None true.

Lemma has_ra_cert_gates_agent_branch_only_witness :
  method <$> steps (register_steps plain_clone false (Some "/root/ra.p12")
                      false false ca_service)
  = spawn_group false false
    ++ [m_configure_certmonger_renewal; m_import_ra_cert (Some "/root/ra.p12")]
    ++ chain_profile_acl_branch true false
  ∧ method <$> steps (register_steps plain_clone true (Some "/root/ra.p12")
                        false false ca_service)
    = spawn_group false false ++ chain_profile_acl_branch true false.
Proof.
  assert (Hext : external (determine_external None None None
                   (set_clone (Some "/root/ca.p12") (CAInstance_init false)))
                 ≠ 1) by (simpl; lia).
  pose proof (proj2 (has_ra_cert_gates_agent_branch_only CS_CFG
            BACKUP_KEYS_P12 ROOT_CACERT_P12 installer (λ _ _, "")
            (λ _, ret ()) (λ _ _, ret ()) (Some "/root/ca.p12") None None None
            (Some "/root/ra.p12") false false ca_service
            (CAInstance_init false) stopped_env Hext)) as H.
  split; [exact (H false)|exact (H true)].
Defined.

Lemma backup_config_refused_when_running_witness :
  backup_config CS_CFG running_env
  = (running_env,
     Raise (RuntimeError
              "Dogtag must be stopped when creating backup of /var/lib/pki/pki-tomcat/conf/ca/CS.cfg"))
  ∧ backup_config CS_CFG stopped_env
    = (mkEnv [] false
             (<[ "/var/lib/pki/pki-tomcat/conf/ca/CS.cfg.ipabkp"
                 := "ca.enableNonces=true" ]>
                {[ CS_CFG := "ca.enableNonces=true" ]}) (),
       Returned ()).
Proof.
  split.
  - exact (proj1 (backup_config_refused_when_running CS_CFG running_env)
                 eq_refl).
  - exact (proj2 (backup_config_refused_when_running CS_CFG stopped_env)
                 eq_refl "ca.enableNonces=true" eq_refl).
Defined.

(** ** The duration formatter *)

(** C6.  [format_seconds] gives the phrase in minutes and seconds with
    the plural [s] on each count other than one: the four values of the
    specification, and the phrase of the specification for every number
    of seconds. *)
Theorem format_seconds_examples :
  format_seconds 65 = "1 minute 5 seconds"
  ∧ format_seconds 60 = "1 minute"
  ∧ format_seconds 1 = "1 second"
  ∧ format_seconds 0 = "0 seconds"
  ∧ format_seconds 90 = "1 minute 30 seconds"
  ∧ format_seconds 120 = "2 minutes"
  ∧ ∀ n, format_seconds n = duration_phrase n.
Proof. repeat split; try reflexivity. apply format_seconds_phrase. Qed.

(** * Further properties *)

(** ** More on the step runner *)

Section StepRunnerMore.

Context {W Method : Type}.
Variable invoke : Method → Py W ().

(** The last line a run that succeeds prints. *)
Definition end_line (self : Service Method) (end_message : option string)
    (show_service_name : bool) : string :=
  from_option id (default_end_message self show_service_name) end_message.

(** The cleanup pass over steps whose flagged ones return normally, then
    over more steps. *)
Lemma cleanup_steps_app post1 : ∀ rest self w w',
  run_all invoke (method <$> flagged post1) w = Some w' →
  cleanup_steps invoke (post1 ++ rest) (self, w)
  = cleanup_steps invoke rest
      (emit (cleanup_events (flagged post1)) self, w').
Proof.
  induction post1 as [|s post1 IH]; intros rest self w w' Hrun.
  - injection Hrun as ->. simpl. by rewrite emit_nil.
  - unfold flagged in *. rewrite filter_cons in Hrun |- *.
    cbn [app cleanup_steps]. unfold bind.
    destruct (decide (run_after_failure s = true)) as [Hf|Hf].
    + rewrite Hf. cbn [fmap list_fmap run_all] in Hrun.
      destruct (invoke (method s) w) as [w1 [[]|e]] eqn:Hs; [|done].
      rewrite (run_step_returns _ _ _ _ _ _ Hs).
      by rewrite (IH _ _ _ _ Hrun), emit_emit.
    + apply not_true_is_false in Hf. rewrite Hf.
      unfold ret. by rewrite (IH _ _ _ _ Hrun).
Qed.

(** What [start_creation] does when every step returns normally. *)
Lemma start_creation_returns self w0 w1 sm em ssn rt :
  run_all invoke (method <$> steps self) w0 = Some w1 →
  start_creation invoke sm em ssn rt (self, w0)
  = ((set_steps []
        (emit (Printed (start_line self sm ssn rt)
               :: progress_events (length (steps self)) 0 (steps self)
               ++ [Printed (end_line self em ssn)]) self),
      w1),
     Returned ()).
Proof.
  intros Hrun. unfold start_creation, start_line, end_line.
  rewrite print_msg_if. cbn [fst snd emit steps].
  rewrite <- (app_nil_r (steps self)) at 2.
  rewrite (try_steps_app _ _ _ _ _ _ _ _ Hrun). cbn [try_steps].
  unfold bind, print_msg. cbn [fst snd]. rewrite !emit_emit.
  unfold set_steps, emit. cbn. by rewrite <- ?app_assoc.
Qed.

(** X1.  When every step returns normally, [start_creation] prints the
    start line, calls every step once in the order of registration, each
    after its numbered progress line, prints the end line, clears the
    list of steps and returns. *)
Theorem start_creation_all_steps_return self w0 w1 sm em ssn rt :
  run_all invoke (method <$> steps self) w0 = Some w1 →
  start_creation invoke sm em ssn rt (self, w0)
  = ((set_steps []
        (emit (Printed (start_line self sm ssn rt)
               :: progress_events (length (steps self)) 0 (steps self)
               ++ [Printed (end_line self em ssn)]) self),
      w1),
     Returned ()).
Proof. apply start_creation_returns. Qed.

(** X2.  [start_creation] clears the list of steps exactly when it
    returns normally: after a run that raises, whatever the exception,
    the list holds the same steps as before, those already run
    included. *)
Theorem start_creation_clears_steps_iff_returns
    sm em ssn rt (st st' : Service Method * W) r :
  start_creation invoke sm em ssn rt st = (st', r) →
  steps st'.1 = match r with Returned _ => [] | Raise _ => steps st.1 end
  ∧ service_name st'.1 = service_name st.1
  ∧ service_desc st'.1 = service_desc st.1.
Proof.
  unfold start_creation. rewrite print_msg_if. simpl.
  set (l0 := Printed _).
  destruct (try_steps invoke _ 0 (steps st.1) (emit [l0] st.1, st.2))
    as [st1 [[e rest]|]] eqn:Htry;
    apply try_steps_calls in Htry as (evs & done & H1 & _ & _);
    cbn [fst snd] in H1.
  - destruct (is_exit_zero e).
    + unfold raise. intros [= <- <-]. by rewrite H1.
    + unfold bind, print_msg, raise. cbn [fst snd].
      destruct (cleanup_steps invoke rest _) as [st2 r2] eqn:Hc.
      apply cleanup_steps_calls in Hc as (evs' & H4 & _). cbn [fst] in H4.
      intros Hr.
      assert (st' = st2 ∧ ∃ e', r = Raise e') as [-> [e' ->]].
      { destruct r2 as [[]|e2]; injection Hr as <- <-; eauto. }
      by rewrite H4, H1.
  - unfold bind, print_msg. cbn [fst snd]. intros [= <- <-]. cbn.
    by rewrite H1.
Qed.

(** X3.  However a run ends, the methods [start_creation] has called
    are methods of registered steps, in the order of registration and
    each step at most once. *)
Theorem start_creation_calls_registered_steps_in_order
    sm em ssn rt (st st' : Service Method * W) r :
  start_creation invoke sm em ssn rt st = (st', r) →
  ∃ evs, output_fd st'.1 = output_fd st.1 ++ evs
         ∧ calls evs `sublist_of` method <$> steps st.1.
Proof. apply start_creation_calls. Qed.

Lemma cleanup_events_app (l1 l2 : list (Step Method)) :
  cleanup_events (l1 ++ l2) = cleanup_events l1 ++ cleanup_events l2.
Proof. induction l1 as [|x l1 IH]; simpl; [done|by rewrite IH]. Qed.

(** X4.  When a step [c] of the cleanup pass raises, the pass ends
    there: the flagged steps after [c] are not called, and the exception
    of [c] reaches the caller in place of the one that started the
    pass. *)
Theorem start_creation_cleanup_step_raises
    self w0 w1 w2 w3 w4 pre s post1 c post2 e e' sm em ssn rt :
  steps self = pre ++ s :: post1 ++ c :: post2 →
  run_all invoke (method <$> pre) w0 = Some w1 →
  invoke (method s) w1 = (w2, Raise e) →
  is_exit_zero e = false →
  run_all invoke (method <$> flagged post1) w2 = Some w3 →
  run_after_failure c = true →
  invoke (method c) w3 = (w4, Raise e') →
  start_creation invoke sm em ssn rt (self, w0)
  = ((emit (Printed (start_line self sm ssn rt)
            :: progress_events (length (steps self)) 0 (pre ++ [s])
            ++ Printed (error_line e)
            :: cleanup_events (flagged post1 ++ [c])) self,
      w4),
     Raise e').
Proof.
  intros Hsteps Hpre Hs He Hpost1 Hc Hraise.
  rewrite (start_creation_raise _ _ _ _ _ _ _ _ _ sm em ssn rt
             Hsteps Hpre Hs).
  rewrite He. cbv zeta. cbn [negb].
  rewrite (cleanup_steps_app _ _ _ _ _ Hpost1). cbn [cleanup_steps].
  unfold bind. rewrite Hc.
  rewrite (run_step_raises _ _ _ _ _ _ _ Hraise), !emit_emit.
  do 2 f_equal.
  rewrite cleanup_events_app. simpl. by rewrite <- ?app_assoc.
Qed.

End StepRunnerMore.

Lemma start_creation_all_steps_return_witness :
  start_creation invoke_scripted None None true (-1)
    (mkService "svc" (Some "a service")
       [scripted_step "a" None false; scripted_step "b" None true] [],
     [])
  = ((mkService "svc" (Some "a service") []
        [ Printed "Configuring a service (svc)";
          Printed "  [1/2]: a"; Called ("a", None);
          Printed "  [2/2]: b"; Called ("b", None);
          Printed "Done configuring a service (svc)." ],
      ["a"; "b"]),
     Returned ()).
Proof.
  exact (start_creation_all_steps_return invoke_scripted
           (mkService "svc" (Some "a service")
              [scripted_step "a" None false; scripted_step "b" None true] [])
           [] ["a"; "b"] None None true (-1) eq_refl).
Defined.

Lemma start_creation_clears_steps_iff_returns_witness :
  steps failing_cleanup
  = [ scripted_step "a" (Some install_failed) false;
      scripted_step "b" (Some cleanup_failed) true;
      scripted_step "c" None true ]
  ∧ service_name failing_cleanup = "svc"
  ∧ service_desc failing_cleanup = None.
Proof.
  exact (start_creation_clears_steps_iff_returns invoke_scripted
           None None true (-1) (failing_cleanup, []) _ _
           start_creation_failing_cleanup_run).
Defined.

Lemma start_creation_calls_registered_steps_in_order_witness :
  ∃ evs,
    [ Printed "Configuring svc";
      Printed "  [1/3]: a"; Called ("a", Some install_failed);
      Printed "  [error] RuntimeError: install failed";
      Printed "  [cleanup]: b"; Called ("b", Some cleanup_failed) ]
    = [] ++ evs
    ∧ calls evs `sublist_of`
        [("a", Some install_failed); ("b", Some cleanup_failed); ("c", None)].
Proof.
  exact (start_creation_calls_registered_steps_in_order invoke_scripted
           None None true (-1) (failing_cleanup, []) _ _
           start_creation_failing_cleanup_run).
Defined.

Lemma start_creation_cleanup_step_raises_witness :
  start_creation invoke_scripted None None true (-1) (failing_cleanup, [])
  = ((emit [ Printed "Configuring svc";
             Printed "  [1/3]: a"; Called ("a", Some install_failed);
             Printed "  [error] RuntimeError: install failed";
             Printed "  [cleanup]: b"; Called ("b", Some cleanup_failed) ]
           failing_cleanup,
      ["a"; "b"]),
     Raise cleanup_failed).
Proof.
  exact (start_creation_cleanup_step_raises invoke_scripted failing_cleanup
           [] [] ["a"] ["a"] ["a"; "b"] []
           (scripted_step "a" (Some install_failed) false) []
           (scripted_step "b" (Some cleanup_failed) true)
           [scripted_step "c" None true]
           install_failed cleanup_failed None None true (-1)
           eq_refl eq_refl eq_refl eq_refl eq_refl eq_refl eq_refl).
Defined.

(** ** [ldap_disable], [ldap_remove_service_container] and more on
    [ldap_enable] *)

Lemma is_enabled_tag_lower (v : string) :
  bool_decide (lower v = "enabledservice") = is_enabled_tag v.
Proof. unfold is_enabled_tag. apply bool_decide_ext. split; congruence. Qed.

Lemma enabled_count_cons (x : string) (l : list string) :
  enabled_count (x :: l)
  = ((if is_enabled_tag x then 1 else 0) + enabled_count l)%nat.
Proof. unfold enabled_count. simpl. by destruct (is_enabled_tag x). Qed.

(** The values that are not the tag. *)
Definition other_values (l : list string) : list string :=
  List.filter (λ v, negb (is_enabled_tag v)) l.

Lemma other_values_cons (x : string) (l : list string) :
  other_values (x :: l)
  = if is_enabled_tag x then other_values l else x :: other_values l.
Proof. unfold other_values. simpl. by destruct (is_enabled_tag x). Qed.

Lemma list_remove_tag (x : string) (l : list string) :
  x ∈ l → is_enabled_tag x = true →
  S (enabled_count (list_remove x l)) = enabled_count l
  ∧ other_values (list_remove x l) = other_values l.
Proof.
  intros Hin Hx. induction l as [|y l IH]; [by apply elem_of_nil in Hin|].
  cbn [list_remove]. case_bool_decide as Hy.
  - subst y. by rewrite enabled_count_cons, other_values_cons, Hx.
  - apply elem_of_cons in Hin as [->|Hin]; [done|].
    destruct (IH Hin) as [IH1 IH2].
    rewrite !enabled_count_cons, !other_values_cons, IH2.
    split; [lia|done].
Qed.

Lemma remove_enabled_tag_loop_spec (values : list string) : ∀ rest,
  rest ⊆ values →
  if existsb is_enabled_tag rest
  then ∃ v, v ∈ values ∧ is_enabled_tag v = true
            ∧ remove_enabled_tag_loop values rest = list_remove v values
  else remove_enabled_tag_loop values rest = values.
Proof.
  induction rest as [|v rest IH]; intros Hsub; simpl; [done|].
  rewrite is_enabled_tag_lower.
  destruct (is_enabled_tag v) eqn:Hv; simpl.
  - exists v. split; [|done]. apply Hsub. by left.
  - apply IH. intros x Hx. apply Hsub. by right.
Qed.

(** What the loop of [ldap_disable] does to the values of a record. *)
Lemma remove_enabled_tag_spec (values : list string) :
  if existsb is_enabled_tag values
  then S (enabled_count (remove_enabled_tag values)) = enabled_count values
       ∧ other_values (remove_enabled_tag values) = other_values values
  else remove_enabled_tag values = values.
Proof.
  pose proof (remove_enabled_tag_loop_spec values values (reflexivity _)) as H.
  unfold remove_enabled_tag.
  destruct (existsb is_enabled_tag values); [|done].
  destruct H as (v & Hin & Hv & ->). by apply list_remove_tag.
Qed.

Section MoreDirectoryFacts.

Context {Os : Type}.
Variable service_disable : Py Os ().

(** [ldap_disable], case by case. *)
Lemma ldap_disable_cases name fqdn suffix (h : Host Os) :
  ldap_disable name fqdn suffix h
  = let dn := service_entry_dn name fqdn suffix in
    match directory h !! dn with
    | Some entry =>
        if has_enabled_tag entry
        then (mkHost (os h)
                (<[dn := set_ipaConfigString
                           (remove_enabled_tag (ipaConfigString entry))
                           entry]> (directory h))
                (ops h ++ [DirGet dn; DirUpdate dn]),
              Returned ())
        else (mkHost (os h) (directory h) (ops h ++ [DirGet dn]), Returned ())
    | None => (mkHost (os h) (directory h) (ops h ++ [DirGet dn]), Returned ())
    end.
Proof.
  unfold ldap_disable. cbv zeta.
  generalize (service_entry_dn name fqdn suffix). intros dn.
  unfold try_except_else, find_entries_base, log_op. cbn.
  destruct (directory h !! dn) as [entry|] eqn:Hentry; cbn; [|done].
  destruct (has_enabled_tag entry) eqn:Htag; cbn; [|done].
  unfold update_entry, log_op. cbn. rewrite Hentry.
  rewrite bool_decide_eq_false_2.
  { unfold ret. by rewrite <- app_assoc. }
  intros Heq. pose proof (remove_enabled_tag_spec (ipaConfigString entry)) as H.
  unfold has_enabled_tag in Htag. rewrite Htag, <- Heq in H. lia.
Qed.

Lemma ldap_disable_removes_one_tag_aux name fqdn suffix (h : Host Os) entry :
  directory h !! service_entry_dn name fqdn suffix = Some entry →
  has_enabled_tag entry = true →
  ∃ entry',
    ldap_disable name fqdn suffix h
    = (mkHost (os h)
              (<[service_entry_dn name fqdn suffix := entry']> (directory h))
              (ops h ++ [DirGet (service_entry_dn name fqdn suffix);
                         DirUpdate (service_entry_dn name fqdn suffix)]),
       Returned ())
    ∧ S (enabled_count (ipaConfigString entry'))
      = enabled_count (ipaConfigString entry).
Proof.
  intros Hentry Htag. rewrite ldap_disable_cases. cbv zeta.
  rewrite Hentry, Htag. eexists. split; [done|].
  pose proof (remove_enabled_tag_spec (ipaConfigString entry)) as H.
  unfold has_enabled_tag in Htag. rewrite Htag in H.
  by destruct H as [H1 H2].
Qed.

(** X5.  On a record that carries the tag, [ldap_disable] returns
    normally after one update of the record: the tag is there once less,
    the other values of the record are the same in the same order, no
    other record is touched and the service manager is left alone. *)
Theorem ldap_disable_removes_one_tag name fqdn suffix (h : Host Os) entry :
  directory h !! service_entry_dn name fqdn suffix = Some entry →
  has_enabled_tag entry = true →
  ∃ entry',
    ldap_disable name fqdn suffix h
    = (mkHost (os h)
              (<[service_entry_dn name fqdn suffix := entry']> (directory h))
              (ops h ++ [DirGet (service_entry_dn name fqdn suffix);
                         DirUpdate (service_entry_dn name fqdn suffix)]),
       Returned ())
    ∧ S (enabled_count (ipaConfigString entry'))
      = enabled_count (ipaConfigString entry)
    ∧ other_values (ipaConfigString entry')
      = other_values (ipaConfigString entry)
    ∧ objectclass entry' = objectclass entry
    ∧ cn entry' = cn entry.
Proof.
  intros Hentry Htag. rewrite ldap_disable_cases. cbv zeta.
  rewrite Hentry, Htag. eexists. split; [done|].
  pose proof (remove_enabled_tag_spec (ipaConfigString entry)) as H.
  unfold has_enabled_tag in Htag. rewrite Htag in H.
  destruct H as [H1 H2]. by cbn.
Qed.

(** X6.  On a record that is absent or does not carry the tag,
    [ldap_disable] is a no-op: it looks at the record, writes nothing
    and returns normally. *)
Theorem ldap_disable_already_disabled name fqdn suffix (h : Host Os) :
  (∀ entry, directory h !! service_entry_dn name fqdn suffix = Some entry →
            has_enabled_tag entry = false) →
  ldap_disable name fqdn suffix h
  = (mkHost (os h) (directory h)
            (ops h ++ [DirGet (service_entry_dn name fqdn suffix)]),
     Returned ()).
Proof.
  intros H. rewrite ldap_disable_cases. cbv zeta.
  destruct (directory h !! service_entry_dn name fqdn suffix) as [entry|];
    [|done].
  by rewrite (H entry eq_refl).
Qed.

(** X7.  [ldap_disable] after an [ldap_enable] that returned: the record
    is still there and no value of it is the tag any more, so that a
    second [ldap_disable] changes nothing.  As for [ldap_enable] twice,
    the first call was not handed the tag in [config] and did not find
    it more than once. *)
Theorem ldap_enable_then_disable name fqdn pw suffix config
    (h h1 : Host Os) :
  enabled_count config = 0%nat →
  (∀ entry, directory h !! service_entry_dn name fqdn suffix = Some entry →
            (enabled_count (ipaConfigString entry) ≤ 1)%nat) →
  ldap_enable service_disable name fqdn pw suffix config h
  = (h1, Returned ()) →
  ∃ h2 entry2,
    ldap_disable name fqdn suffix h1 = (h2, Returned ())
    ∧ directory h2 !! service_entry_dn name fqdn suffix = Some entry2
    ∧ enabled_count (ipaConfigString entry2) = 0%nat
    ∧ directory (ldap_disable name fqdn suffix h2).1 = directory h2.
Proof.
  intros Hconfig Hle Hfirst.
  destruct (ldap_enable_returned _ _ _ _ _ _ _ _ Hfirst)
    as (entry1 & Hentry1 & Htag1 & Hcount).
  specialize (Hcount Hconfig Hle).
  destruct (ldap_disable_removes_one_tag_aux name fqdn suffix h1 entry1
              Hentry1 Htag1) as (entry2 & Hrun & Hc).
  eexists _, entry2. split; [exact Hrun|]. cbn.
  rewrite lookup_insert_eq. split; [done|].
  assert (H0 : enabled_count (ipaConfigString entry2) = 0%nat) by lia.
  split; [done|].
  rewrite ldap_disable_cases. cbv zeta. cbn. rewrite lookup_insert_eq.
  unfold has_enabled_tag.
  by rewrite (proj2 (existsb_enabled_count _) H0).
Qed.

(** X8.  On a record that exists and does not carry the tag,
    [ldap_enable] only appends the tag to the values of the record:
    [config] and the start order of [SERVICE_LIST] are not used, and a
    service name that [SERVICE_LIST] does not know is accepted. *)
Theorem ldap_enable_existing_record name fqdn pw suffix config
    (h : Host Os) o entry :
  service_disable (os h) = (o, Returned ()) →
  directory h !! service_entry_dn name fqdn suffix = Some entry →
  has_enabled_tag entry = false →
  ldap_enable service_disable name fqdn pw suffix config h
  = (mkHost o
       (<[service_entry_dn name fqdn suffix :=
            mkEntry (objectclass entry) (cn entry)
                    (ipaConfigString entry ++ ["enabledService"])]>
          (directory h))
       (ops h ++ [OsDisable; DirGet (service_entry_dn name fqdn suffix);
                  DirUpdate (service_entry_dn name fqdn suffix)]),
     Returned ()).
Proof.
  intros Hos Hentry Htag. rewrite ldap_enable_cases. cbv zeta.
  unfold has_enabled_tag in Htag. by rewrite Hos, Hentry, Htag.
Qed.

(** X9.  For a service name that [SERVICE_LIST] does not know and a
    record that does not exist, [ldap_enable] raises [KeyError] and
    leaves the directory as it was; the service has been disabled at the
    level of the OS by then. *)
Theorem ldap_enable_unknown_service name fqdn pw suffix config
    (h : Host Os) o :
  SERVICE_LIST !! name = None →
  service_disable (os h) = (o, Returned ()) →
  directory h !! service_entry_dn name fqdn suffix = None →
  ldap_enable service_disable name fqdn pw suffix config h
  = (mkHost o (directory h)
            (ops h ++ [OsDisable; DirGet (service_entry_dn name fqdn suffix)]),
     Raise (KeyError name)).
Proof.
  intros Hname Hos Hentry. rewrite ldap_enable_cases. cbv zeta.
  by rewrite Hos, Hentry, Hname.
Qed.

Lemma ldap_remove_service_container_removes_aux name fqdn suffix
    (h : Host Os) :
  ldap_remove_service_container name fqdn suffix h
  = (mkHost (os h) (delete (service_entry_dn name fqdn suffix) (directory h))
            (ops h),
     Returned ()).
Proof.
  unfold ldap_remove_service_container, try_except_else, delete_entry.
  destruct (directory h !! service_entry_dn name fqdn suffix) eqn:Hentry;
    [done|].
  cbn. rewrite delete_id by done. by destruct h.
Qed.

(** X10.  After [ldap_remove_service_container], [ldap_enable] for a
    service of [SERVICE_LIST] creates the record anew, with the tag, the
    start order of [SERVICE_LIST] and [config], whatever the record held
    before. *)
Theorem ldap_remove_then_enable name fqdn pw suffix config (h : Host Os)
    o svc order :
  SERVICE_LIST !! name = Some (svc, order) →
  service_disable (os h) = (o, Returned ()) →
  let h1 := (ldap_remove_service_container name fqdn suffix h).1 in
  ∃ h2,
    ldap_enable service_disable name fqdn pw suffix config h1
    = (h2, Returned ())
    ∧ directory h2 !! service_entry_dn name fqdn suffix
      = Some (mkEntry ["nsContainer"; "ipaConfigObject"] [name]
                (["enabledService"; "startOrder " +:+ pretty order] ++ config))
    ∧ ∀ dn, dn ≠ service_entry_dn name fqdn suffix →
            directory h2 !! dn = directory h !! dn.
Proof.
  intros Hname Hos h1. subst h1.
  rewrite ldap_remove_service_container_removes_aux. cbn [fst].
  rewrite ldap_enable_cases. cbv zeta. cbn [os directory ops].
  rewrite Hos, lookup_delete_eq, Hname.
  eexists. split; [done|]. cbn [directory]. split.
  - by rewrite lookup_insert_eq.
  - intros dn Hdn. by rewrite lookup_insert_ne, lookup_delete_ne.
Qed.

(** Every name below the container of the masters has three components
    at least. *)
Lemma masters_suffix_second (basedn dn : DN) :
  [("cn", "masters"); ("cn", "ipa"); ("cn", "etc")] ++ basedn `suffix_of` dn →
  ∃ attr value, dn !! 1%nat = Some (attr, value).
Proof.
  intros [k ->]. destruct k as [|x [|[attr value] k]]; cbn; eauto.
Qed.

Lemma find_preferred_spec (host_name : string) (entries : list (DN * Entry)) :
  (∀ de, de ∈ entries → ∃ attr value, de.1 !! 1%nat = Some (attr, value)) →
  ∃ b, find_preferred host_name entries = Returned b
       ∧ (b = true ↔ ∃ de attr, de ∈ entries
                                ∧ de.1 !! 1%nat = Some (attr, host_name)).
Proof.
  induction entries as [|[dn e] entries IH]; intros Hall; cbn.
  - exists false. split; [done|]. split; [done|].
    intros (de & attr & Hin & _). by apply elem_of_nil in Hin.
  - destruct (Hall (dn, e)) as (attr & value & Hdn); [by left|].
    unfold dn_second_value. cbn in Hdn. rewrite Hdn.
    case_bool_decide as Hv.
    + exists true. split; [done|]. split; [|done]. intros _.
      exists (dn, e), attr. subst value. split; [by left|done].
    + destruct IH as (b & Hb & Hiff).
      { intros de Hde. apply Hall. by right. }
      exists b. split; [done|]. rewrite Hiff. split.
      * intros (de & a & Hin & Hde). exists de, a. split; [by right|done].
      * intros (de & a & Hin & Hde).
        apply elem_of_cons in Hin as [->|Hin]; [|by eauto].
        cbn in Hde. congruence.
Qed.

(** X11.  [find_providing_server] never raises, leaves the host as it
    is, and answers [None] exactly when no record below the container of
    the masters provides the service.  A host it names is the host of a
    record that provides the service; and it names the preferred host
    whenever a record of that host provides the service. *)
Theorem find_providing_server_spec svcname host_name basedn (h : Host Os) :
  let base := [("cn", "masters"); ("cn", "ipa"); ("cn", "etc")] ++ basedn in
  let provider dn value :=
    ∃ entry attr, directory h !! dn = Some entry ∧ base `suffix_of` dn
                  ∧ provides_service svcname entry = true
                  ∧ dn !! 1%nat = Some (attr, value) in
  ∃ answer,
    find_providing_server svcname host_name basedn h = (h, Returned answer)
    ∧ (answer = None ↔ ∀ dn value, ¬ provider dn value)
    ∧ (∀ value, answer = Some value → ∃ dn, provider dn value)
    ∧ (∀ preferred dn, host_name = Some preferred → provider dn preferred →
                       answer = Some preferred).
Proof.
  intros base provider.
  unfold find_providing_server, try_except_else, find_entries_subtree.
  fold base.
  set (found := List.filter _ (map_to_list (directory h))).
  assert (Hfound : ∀ dn entry, (dn, entry) ∈ found ↔
            directory h !! dn = Some entry ∧ base `suffix_of` dn
            ∧ provides_service svcname entry = true).
  { intros dn entry. subst found.
    rewrite list_elem_of_In, filter_In, <- list_elem_of_In.
    rewrite elem_of_map_to_list, andb_true_iff, bool_decide_eq_true.
    cbn. tauto. }
  assert (Hsecond : ∀ de, de ∈ found →
            ∃ attr value, de.1 !! 1%nat = Some (attr, value)).
  { intros [dn entry] Hin. apply Hfound in Hin as (_ & Hsuf & _).
    by apply masters_suffix_second in Hsuf. }
  destruct found as [|[first_dn first_entry] found'] eqn:Hf.
  - exists None. cbn. split; [done|]. split; [|split].
    + split; [|done]. intros _ dn value (entry & attr & H1 & H2 & H3 & _).
      assert (Hin : (dn, entry) ∈ []) by (by apply Hfound).
      by apply elem_of_nil in Hin.
    + by intros value [=].
    + intros preferred dn _ (entry & attr & H1 & H2 & H3 & _).
      assert (Hin : (dn, entry) ∈ []) by (by apply Hfound).
      by apply elem_of_nil in Hin.
  - destruct (Hsecond (first_dn, first_entry)) as (fattr & fvalue & Hfirst);
      [by left|].
    cbn in Hfirst.
    assert (Hfirst_provider : provider first_dn fvalue).
    { destruct (proj1 (Hfound first_dn first_entry)) as (H1 & H2 & H3);
        [by left|]. by exists first_entry, fattr. }
    destruct host_name as [preferred|].
    + destruct (find_preferred_spec preferred _ Hsecond) as (b & Hb & Hiff).
      rewrite Hb. destruct b.
      * exists (Some preferred). unfold ret. split; [done|].
        destruct (proj1 Hiff eq_refl) as ([dn e] & attr & Hin & Hdn).
        apply Hfound in Hin as (H1 & H2 & H3).
        split; [|split].
        -- split; [done|]. intros Hno. exfalso. apply (Hno dn preferred).
           by exists e, attr.
        -- intros value [= <-]. exists dn. by exists e, attr.
        -- by intros p dn' [= ->] _.
      * exists (Some fvalue). unfold dn_second_value. rewrite Hfirst.
        unfold ret. split; [done|]. split; [|split].
        -- split; [done|]. intros Hno. exfalso.
           by apply (Hno first_dn fvalue).
        -- intros value [= <-]. by exists first_dn.
        -- intros p dn [= <-] (entry & attr & H1 & H2 & H3 & H4).
           assert (Hyes : false = true); [|done].
           apply Hiff. exists (dn, entry), attr. split; [|done].
           by apply Hfound.
    + exists (Some fvalue). unfold dn_second_value. rewrite Hfirst.
      unfold ret. split; [done|]. split; [|split].
      * split; [done|]. intros Hno. exfalso. by apply (Hno first_dn fvalue).
      * intros value [= <-]. by exists first_dn.
      * by intros p dn [=].
Qed.

End MoreDirectoryFacts.

(** *** Concrete calls *)

Definition ca_entry : Entry :=
  mkEntry ["nsContainer"; "ipaConfigObject"] ["CA"]
          ["enabledService"; "startOrder 50"; "caRenewalMaster"].

Definition ca_entry_disabled : Entry :=
  mkEntry ["nsContainer"; "ipaConfigObject"] ["CA"]
          ["startOrder 50"; "caRenewalMaster"].

(** The host after the CA service was enabled, then disabled. *)
Definition ca_disabled_host : Host bool :=
  mkHost false {[ ca_entry_dn := ca_entry_disabled ]}
    [OsDisable; DirGet ca_entry_dn; DirAdd ca_entry_dn;
     DirGet ca_entry_dn; DirUpdate ca_entry_dn].

Example ca_enabled_host_entry :
  directory ca_enabled_host !! ca_entry_dn = Some ca_entry.
Proof. reflexivity. Qed.

Example ca_disabled_host_entry :
  directory ca_disabled_host !! ca_entry_dn = Some ca_entry_disabled.
Proof. reflexivity. Qed.

Example fresh_host_entry : directory fresh_host !! ca_entry_dn = None.
Proof. reflexivity. Qed.

Lemma ldap_disable_removes_one_tag_witness :
  ∃ entry',
    ldap_disable "CA" "ipa.example.test" example_suffix ca_enabled_host
    = (mkHost false (<[ca_entry_dn := entry']> (directory ca_enabled_host))
              (ops ca_enabled_host ++ [DirGet ca_entry_dn; DirUpdate ca_entry_dn]),
       Returned ())
    ∧ S (enabled_count (ipaConfigString entry')) = 1%nat
    ∧ other_values (ipaConfigString entry')
      = ["startOrder 50"; "caRenewalMaster"]
    ∧ objectclass entry' = ["nsContainer"; "ipaConfigObject"]
    ∧ cn entry' = ["CA"].
Proof.
  exact (ldap_disable_removes_one_tag "CA" "ipa.example.test" example_suffix
           ca_enabled_host ca_entry ca_enabled_host_entry eq_refl).
Defined.

Lemma ldap_disable_already_disabled_witness :
  ldap_disable "CA" "ipa.example.test" example_suffix ca_disabled_host
  = (mkHost false (directory ca_disabled_host)
            (ops ca_disabled_host ++ [DirGet ca_entry_dn]),
     Returned ()).
Proof.
  apply (ldap_disable_already_disabled "CA" "ipa.example.test" example_suffix
           ca_disabled_host).
  intros entry H.
  change (directory ca_disabled_host !! ca_entry_dn = Some entry) in H.
  rewrite ca_disabled_host_entry in H. by injection H as <-.
Defined.

Lemma ldap_enable_then_disable_witness :
  ∃ h2 entry2,
    ldap_disable "CA" "ipa.example.test" example_suffix ca_enabled_host
    = (h2, Returned ())
    ∧ directory h2 !! ca_entry_dn = Some entry2
    ∧ enabled_count (ipaConfigString entry2) = 0%nat
    ∧ directory (ldap_disable "CA" "ipa.example.test" example_suffix h2).1
      = directory h2.
Proof.
  exact (ldap_enable_then_disable disable_succeeds "CA" "ipa.example.test"
           None example_suffix ["caRenewalMaster"] fresh_host ca_enabled_host
           eq_refl fresh_host_has_no_record ldap_enable_first_call).
Defined.

Lemma ldap_enable_existing_record_witness :
  ldap_enable disable_succeeds "CA" "ipa.example.test" None example_suffix
              ["ignored"] ca_disabled_host
  = (mkHost false
       (<[ca_entry_dn :=
            mkEntry ["nsContainer"; "ipaConfigObject"] ["CA"]
                    (["startOrder 50"; "caRenewalMaster"]
                     ++ ["enabledService"])]>
          (directory ca_disabled_host))
       (ops ca_disabled_host
        ++ [OsDisable; DirGet ca_entry_dn; DirUpdate ca_entry_dn]),
     Returned ()).
Proof.
  exact (ldap_enable_existing_record disable_succeeds "CA" "ipa.example.test"
           None example_suffix ["ignored"] ca_disabled_host false
           ca_entry_disabled eq_refl ca_disabled_host_entry eq_refl).
Defined.

Example no_such_service : SERVICE_LIST !! "PRINTER" = None.
Proof. reflexivity. Qed.

Example fresh_host_no_printer :
  directory fresh_host
  !! service_entry_dn "PRINTER" "ipa.example.test" example_suffix = None.
Proof. reflexivity. Qed.

Lemma ldap_enable_unknown_service_witness :
  ldap_enable disable_succeeds "PRINTER" "ipa.example.test" None
              example_suffix [] fresh_host
  = (mkHost false (directory fresh_host)
            (ops fresh_host
             ++ [OsDisable;
                 DirGet (service_entry_dn "PRINTER" "ipa.example.test"
                                          example_suffix)]),
     Raise (KeyError "PRINTER")).
Proof.
  exact (ldap_enable_unknown_service disable_succeeds "PRINTER"
           "ipa.example.test" None example_suffix [] fresh_host false
           no_such_service eq_refl fresh_host_no_printer).
Defined.

Example ca_service_order : SERVICE_LIST !! "CA" = Some ("pki-tomcatd", 50).
Proof. reflexivity. Qed.

Lemma ldap_remove_then_enable_witness :
  ∃ h2,
    ldap_enable disable_succeeds "CA" "ipa.example.test" None example_suffix
      []
      (ldap_remove_service_container "CA" "ipa.example.test" example_suffix
         ca_disabled_host).1
    = (h2, Returned ())
    ∧ directory h2 !! ca_entry_dn
      = Some (mkEntry ["nsContainer"; "ipaConfigObject"] ["CA"]
                (["enabledService"; "startOrder " +:+ pretty 50] ++ []))
    ∧ ∀ dn, dn ≠ ca_entry_dn →
            directory h2 !! dn = directory ca_disabled_host !! dn.
Proof.
  exact (ldap_remove_then_enable disable_succeeds "CA" "ipa.example.test"
           None example_suffix [] ca_disabled_host false "pki-tomcatd" 50
           ca_service_order eq_refl).
Defined.

(** ** The parsers of the answers of Dogtag *)

Lemma string_app_cons (a : Ascii.ascii) (s t : string) :
  String a s +:+ t = String a (s +:+ t).
Proof. reflexivity. Qed.

Lemma string_app_nil (t : string) : "" +:+ t = t.
Proof. reflexivity. Qed.

Lemma prefix_empty (s : string) : String.prefix "" s = true.
Proof. by destruct s. Qed.

Lemma chars_app (s t : string) : chars (s +:+ t) = chars s ++ chars t.
Proof.
  induction s as [|a s IH]; [done|].
  rewrite string_app_cons. simpl. by rewrite IH.
Qed.

Lemma split_once_none (sep : Ascii.ascii) (s : string) :
  split_once sep s = None ↔ sep ∉ chars s.
Proof.
  induction s as [|a s IH]; simpl.
  - split; [intros _; apply not_elem_of_nil|done].
  - case_bool_decide as Ha.
    + subst a. split; [done|]. intros H. exfalso. apply H. by left.
    + destruct (split_once sep s) as [[b c]|].
      * split; [done|]. intros H. exfalso.
        assert (Hs : sep ∉ chars s) by (intros Hin; apply H; by right).
        apply IH in Hs. done.
      * split; [|done]. intros _ Hin.
        apply elem_of_cons in Hin as [->|Hin]; [done|].
        by apply (proj1 IH).
Qed.

Lemma split_once_app (sep : Ascii.ascii) (a b : string) :
  sep ∉ chars a → split_once sep (a +:+ String sep b) = Some (a, b).
Proof.
  induction a as [|x a IH]; intros Hno.
  - rewrite string_app_nil. simpl. by rewrite bool_decide_eq_true_2.
  - rewrite string_app_cons. simpl.
    rewrite bool_decide_eq_false_2.
    + rewrite IH; [done|]. intros Hin. apply Hno. by right.
    + intros ->. apply Hno. by left.
Qed.

(** A replacement brings in characters of the new text only. *)
Lemma str_replace_from_chars (old new : string) : ∀ s skip a,
  a ∈ chars (str_replace_from old new skip s) →
  a ∈ chars s ∨ a ∈ chars new.
Proof.
  induction s as [|x s IH]; intros skip a.
  - simpl. intros H. by apply elem_of_nil in H.
  - cbn [str_replace_from]. destruct skip as [|skip].
    + destruct (String.prefix old (String x s)).
      * rewrite chars_app, elem_of_app. intros [H|H]; [by right|].
        apply IH in H as [H|H]; [left; by right|by right].
      * simpl. rewrite elem_of_cons. intros [->|H]; [left; by left|].
        apply IH in H as [H|H]; [left; by right|by right].
    + intros H. apply IH in H as [H|H]; [left; by right|by right].
Qed.

(** Replacing one character by nothing leaves none of it. *)
Lemma str_replace_char_gone (c : Ascii.ascii) : ∀ s,
  c ∉ chars (str_replace (String c "") "" s).
Proof.
  unfold str_replace. induction s as [|x s IH]; simpl.
  - apply not_elem_of_nil.
  - destruct (Ascii.ascii_dec c x) as [->|Hne].
    + destruct s; exact IH.
    + simpl. intros Hin. apply elem_of_cons in Hin as [Hin|Hin]; done.
Qed.

(** A replacement whose pattern starts with a character that the text
    does not have changes nothing. *)
Lemma str_replace_absent (c : Ascii.ascii) (old new : string) : ∀ s,
  c ∉ chars s → str_replace (String c old) new s = s.
Proof.
  unfold str_replace. induction s as [|x s IH]; intros Hno; simpl; [done|].
  destruct (Ascii.ascii_dec c x) as [->|Hne].
  - exfalso. apply Hno. by left.
  - rewrite IH; [done|]. intros Hin. apply Hno. by right.
Qed.

(** Replacing one character by nothing in a text that has it at both
    ends only. *)
Lemma str_replace_char_app (c : Ascii.ascii) (s t : string) :
  str_replace (String c "") "" (s +:+ t)
  = str_replace (String c "") "" s +:+ str_replace (String c "") "" t.
Proof.
  unfold str_replace. induction s as [|x s IH]; [done|].
  rewrite string_app_cons. simpl.
  destruct (Ascii.ascii_dec c x) as [->|Hne].
  - destruct s, t; simpl in *; exact IH.
  - by rewrite string_app_cons, IH.
Qed.

Lemma js_escape_chars (value : string) :
  ∀ a, a ∈ chars (js_escape value) →
       a ∈ chars value ∨ a = backslash ∨ a = letter_n ∨ a = letter_r.
Proof.
  induction value as [|x value IH]; intros a; simpl.
  - intros H. by apply elem_of_nil in H.
  - destruct (bool_decide (x = line_feed)), (bool_decide (x = carriage_return));
      simpl; rewrite ?elem_of_cons;
      intros Hin; destruct_or!; try (by auto);
      try (left; by left);
      apply IH in Hin; destruct_or!; auto; left; by right.
Qed.

Lemma str_replace_from_miss (c x : Ascii.ascii) (old new s : string) :
  c ≠ x →
  str_replace_from (String c old) new 0 (String x s)
  = String x (str_replace_from (String c old) new 0 s).
Proof.
  intros Hne. cbn [str_replace_from String.prefix].
  by destruct (Ascii.ascii_dec c x).
Qed.

Lemma str_replace_from_hit (c d x : Ascii.ascii) (s : string) :
  str_replace_from (String c (String d "")) (String x "") 0
    (String c (String d s))
  = String x (str_replace_from (String c (String d "")) (String x "") 0 s).
Proof.
  cbn [str_replace_from String.prefix].
  destruct (Ascii.ascii_dec c c) as [_|Hne]; [|done].
  destruct (Ascii.ascii_dec d d) as [_|Hne]; [|done].
  by rewrite prefix_empty.
Qed.

Lemma str_replace_from_near_miss (c d e x : Ascii.ascii) (s : string) :
  d ≠ e → c ≠ e →
  str_replace_from (String c (String d "")) (String x "") 0
    (String c (String e s))
  = String c (String e
      (str_replace_from (String c (String d "")) (String x "") 0 s)).
Proof.
  intros Hde Hce. cbn [str_replace_from String.prefix].
  destruct (Ascii.ascii_dec c c) as [_|Hne]; [|done].
  destruct (Ascii.ascii_dec d e) as [Heq|_]; [done|].
  by destruct (Ascii.ascii_dec c e).
Qed.

(** Undoing the escapes of the line feeds and of the carriage returns. *)
Lemma unescape_line_feeds (value : string) :
  backslash ∉ chars value →
  str_replace (String backslash "r") (String carriage_return "")
    (str_replace (String backslash "n") (String line_feed "")
       (js_escape value))
  = value.
Proof.
  unfold str_replace. induction value as [|x value IH]; intros Hno; [done|].
  assert (Hx : backslash ≠ x) by (intros <-; apply Hno; by left).
  assert (Hvalue : backslash ∉ chars value)
    by (intros Hin; apply Hno; by right).
  specialize (IH Hvalue). cbn [js_escape].
  case_bool_decide as Hlf; [|case_bool_decide as Hcr].
  - subst x. unfold letter_n.
    rewrite str_replace_from_hit, str_replace_from_miss by exact Hx.
    by rewrite IH.
  - subst x. unfold letter_r.
    rewrite str_replace_from_near_miss by done.
    by rewrite str_replace_from_hit, IH.
  - rewrite !str_replace_from_miss by exact Hx. by rewrite IH.
Qed.

Lemma prefix_app (a b : string) : String.prefix a (a +:+ b) = true.
Proof.
  induction a as [|x a IH]; [apply prefix_empty|].
  rewrite string_app_cons. simpl.
  by destruct (Ascii.ascii_dec x x).
Qed.

Lemma get_value_js_assign_aux (name value : string) :
  equals_sign ∉ chars name → plain value →
  get_value (js_assign name value) = Some value.
Proof.
  intros Hname (Hq & Hs & Hb). unfold get_value, js_assign.
  rewrite split_once_app by done. cbv beta iota zeta. f_equal.
  assert (Hesc : ∀ c, c ∉ chars value → c ≠ backslash → c ≠ letter_n →
                      c ≠ letter_r → c ∉ chars (js_escape value)).
  { intros c Hc ? ? ? Hin. apply js_escape_chars in Hin. by destruct_or!. }
  change (String double_quote (js_escape value +:+ String double_quote ";"))
    with (String double_quote "" +:+ js_escape value
          +:+ (String double_quote "" +:+ ";")).
  rewrite !str_replace_char_app.
  rewrite (str_replace_absent double_quote "" "" (js_escape value))
    by (apply Hesc; done).
  change (str_replace (String double_quote "") "" (String double_quote ""))
    with "".
  change (str_replace (String double_quote "") "" ";") with ";".
  rewrite !string_app_nil.
  change ";" with (String semicolon "").
  rewrite (str_replace_absent semicolon "" "" (js_escape value))
    by (apply Hesc; done).
  change (str_replace (String semicolon "") "" (String semicolon ""))
    with "".
  assert (Hnil : ∀ s, s +:+ "" = s).
  { induction s as [|x s IH]; [done|]. by rewrite string_app_cons, IH. }
  rewrite Hnil. by apply unescape_line_feeds.
Qed.

(** X12 [get_value]: a line without an equals sign has no value, and
    this is the only way to have none; a value that is found holds
    neither a double quote nor a semicolon. *)
Theorem get_value_spec (s : string) :
  (get_value s = None ↔ equals_sign ∉ chars s)
  ∧ (∀ value, get_value s = Some value →
       (double_quote ∉ chars value) ∧ (semicolon ∉ chars value)).
Proof.
  unfold get_value. split.
  - rewrite <- split_once_none.
    by destruct (split_once equals_sign s) as [[? ?]|].
  - intros value. destruct (split_once equals_sign s) as [[? rest]|]; [|done].
    cbv zeta. intros [= <-].
    assert (Hgone : ∀ c, c ≠ line_feed → c ≠ carriage_return →
      ∀ t, c ∉ chars t →
        c ∉ chars (str_replace (String backslash "r")
                     (String carriage_return "")
                     (str_replace (String backslash "n")
                        (String line_feed "") t))).
    { intros c Hlf Hcr t Ht Hin.
      apply str_replace_from_chars in Hin as [Hin|Hin].
      - apply str_replace_from_chars in Hin as [Hin|Hin]; [done|].
        apply elem_of_cons in Hin as [Hin|Hin]; [done|].
        by apply elem_of_nil in Hin.
      - apply elem_of_cons in Hin as [Hin|Hin]; [done|].
        by apply elem_of_nil in Hin. }
    split; apply Hgone; try done.
    + intros Hin. apply str_replace_from_chars in Hin as [Hin|Hin].
      * by apply str_replace_char_gone in Hin.
      * by apply elem_of_nil in Hin.
    + apply str_replace_char_gone.
Qed.

(** X13 [get_value] reads back what a Javascript assignment holds: from
    the line [name="value";], with the line feeds and carriage returns
    of the value escaped, it gives the value, for every name without an
    equals sign and every value without double quote, semicolon and
    backslash. *)
Theorem get_value_js_assign (name value : string) :
  equals_sign ∉ chars name → plain value →
  get_value (js_assign name value) = Some value.
Proof. apply get_value_js_assign_aux. Qed.

(** A value of two lines with an equals sign. *)
Definition two_lines : string :=
  "a" +:+ String line_feed ("=" +:+ String carriage_return "b").

Ltac not_among :=
  vm_compute; intros Hin;
  repeat (apply elem_of_cons in Hin as [Hin|Hin]; [discriminate Hin|]);
  by apply elem_of_nil in Hin.

Lemma get_value_js_assign_witness :
  get_value (js_assign "outputList.outputVal" two_lines) = Some two_lines.
Proof.
  apply get_value_js_assign; [|repeat split]; not_among.
Defined.

Lemma kept_truthy (value : string) : kept value → truthy (Some value) = true.
Proof. intros [_ Hne]. by destruct value. Qed.

Lemma prefix_js_assign (name value : string) :
  String.prefix name (js_assign name value) = true.
Proof. apply prefix_app. Qed.

(** One entry of the output list stores its pair. *)
Lemma get_outputList_block (m : gmap string string) (kv : string * string)
    (rest : list string) :
  kept kv.1 → kept kv.2 →
  foldl get_outputList_step (mkOutputState None None m)
    (output_block kv ++ rest)
  = foldl get_outputList_step
      (mkOutputState None None (<[kv.1 := kv.2]> m)) rest.
Proof.
  intros Hk Hv. destruct kv as [k v]. simpl in Hk, Hv.
  unfold output_block. cbn [app foldl fst snd]. f_equal.
  unfold get_outputList_step at 3.
  change (String.prefix "outputList = new" "outputList = new Object;")
    with true.
  change (String.prefix "outputList.outputId" "outputList = new Object;")
    with false.
  change (String.prefix "outputList.outputVal" "outputList = new Object;")
    with false.
  cbn [out_varname out_value outputdict].
  unfold get_outputList_step at 2.
  change (String.prefix "outputList = new"
            (js_assign "outputList.outputId" k)) with false.
  change (String.prefix "outputList.outputVal"
            (js_assign "outputList.outputId" k)) with false.
  rewrite !prefix_js_assign.
  rewrite get_value_js_assign_aux; [|not_among|apply Hk].
  cbn [out_varname out_value outputdict].
  unfold get_outputList_step.
  change (String.prefix "outputList = new"
            (js_assign "outputList.outputVal" v)) with false.
  change (String.prefix "outputList.outputId"
            (js_assign "outputList.outputVal" v)) with false.
  rewrite !prefix_js_assign.
  rewrite get_value_js_assign_aux; [|not_among|apply Hv].
  cbn [out_varname out_value outputdict].
  by rewrite !kept_truthy.
Qed.

(** X14 [get_outputList] reads back the entries of an output list: from
    the lines of the entries, each with a name and a value that are not
    empty and hold no double quote, semicolon or backslash, it gives the
    dictionary of the pairs, a later entry of a name replacing an
    earlier one. *)
Theorem get_outputList_blocks (pairs : list (string * string)) :
  Forall (λ kv, kept kv.1 ∧ kept kv.2) pairs →
  get_outputList (pairs ≫= output_block) = assign_all ∅ pairs.
Proof.
  unfold get_outputList, assign_all. generalize (∅ : gmap string string).
  induction pairs as [|kv pairs IH]; intros m Hall; [done|].
  apply Forall_cons in Hall as [[Hk Hv] Hall].
  change ((kv :: pairs) ≫= output_block)
    with (output_block kv ++ (pairs ≫= output_block)).
  rewrite get_outputList_block by done. simpl. by apply IH.
Qed.



Ltac is_kept := split; [repeat split; not_among | discriminate].

Lemma get_outputList_blocks_witness :
  get_outputList ([("a", "1"); ("b", "2"); ("a", "3")] ≫= output_block)
  = assign_all ∅ [("a", "1"); ("b", "2"); ("a", "3")].
Proof.
  apply get_outputList_blocks.
  repeat (apply Forall_cons; split; [split; is_kept|]). apply Forall_nil_2.
Defined.


(** ** The renewal master *)

Lemma without_renewal_tag_clean (values : list string) :
  existsb is_renewal_tag (without_renewal_tag values) = false.
Proof.
  unfold without_renewal_tag.
  induction values as [|x values IH]; [done|]. simpl.
  destruct (is_renewal_tag x) eqn:Hx; simpl; [done|]. by rewrite Hx.
Qed.

Lemma without_renewal_tag_changes (values : list string) :
  existsb is_renewal_tag values = true → values ≠ without_renewal_tag values.
Proof.
  intros Htag Heq. rewrite Heq in Htag.
  by rewrite without_renewal_tag_clean in Htag.
Qed.

Lemma caRenewalMaster_is_renewal_tag : is_renewal_tag "caRenewalMaster" = true.
Proof. reflexivity. Qed.

Lemma masters_dn_suffix_ca_master_dn (fqdn : string) (basedn : DN) :
  masters_dn basedn `suffix_of` ca_master_dn fqdn basedn.
Proof. by apply suffix_app_r. Qed.

Section RenewalMasterFacts.

Context {Os : Type}.

Lemma update_entry_changes (dn : DN) (old new : Entry) (h : Host Os) :
  directory h !! dn = Some old →
  ipaConfigString old ≠ ipaConfigString new →
  update_entry dn new h
  = (mkHost (os h) (<[dn := new]> (directory h)) (ops h ++ [DirUpdate dn]),
     Returned ()).
Proof.
  intros Hold Hne. unfold update_entry, log_op.
  cbn [directory os ops]. rewrite Hold.
  by rewrite bool_decide_eq_false_2.
Qed.

(** The loop of [set_renewal_master]: every entry found but that of the
    new master loses the tag, and nothing else changes. *)
Lemma demote_renewal_masters_spec (mdn : DN) (m : Entry) :
  ∀ (entries : list (DN * Entry)) (me : option (DN * Entry)) (h : Host Os),
    NoDup entries.*1 →
    (∀ (dn : DN) e, (dn, e) ∈ entries →
       directory h !! dn = Some e ∧ has_renewal_tag e = true) →
    (me = Some (mdn, m) ∨ (me = None ∧ mdn ∉ entries.*1)) →
    ∃ h',
      demote_renewal_masters me entries h
      = (h', Returned (if bool_decide (mdn ∈ entries.*1) then None else me))
      ∧ os h' = os h
      ∧ (∀ k : DN, k ∉ entries.*1 → directory h' !! k = directory h !! k)
      ∧ (∀ (k : DN) e, (k, e) ∈ entries → k ≠ mdn →
           directory h' !! k
           = Some (set_ipaConfigString
                     (without_renewal_tag (ipaConfigString e)) e))
      ∧ directory h' !! mdn = directory h !! mdn.
Proof.
  induction entries as [|[dn e] entries IH]; intros me h Hnodup Hfound Hme.
  - exists h. cbn [demote_renewal_masters].
    rewrite bool_decide_eq_false_2 by (rewrite fmap_nil; apply not_elem_of_nil).
    repeat split; try done. intros k e' Hin. by apply elem_of_nil in Hin.
  - rewrite fmap_cons in Hnodup. apply NoDup_cons in Hnodup as [Hdn Hnodup].
    cbn [fst] in Hdn.
    destruct (decide (dn = mdn)) as [->|Hne].
    + (* the entry of the new master *)
      destruct Hme as [->|[_ Hnot]];
        [|exfalso; apply Hnot; rewrite fmap_cons; by left].
      cbn [demote_renewal_masters]. rewrite bool_decide_eq_true_2 by done.
      destruct (IH None h Hnodup) as (h' & Hrun & Hos & Hout & Hin & Hm).
      { intros dn' e' Hel. apply Hfound. by right. }
      { by right. }
      exists h'. rewrite Hrun.
      rewrite (bool_decide_eq_true_2 (mdn ∈ ((mdn, e) :: entries).*1))
        by (rewrite fmap_cons; by left).
      split; [by destruct (bool_decide (mdn ∈ entries.*1))|].
      split; [done|]. split; [|split; [|done]].
      * intros k Hk. apply Hout. intros Hel. apply Hk.
        rewrite fmap_cons. by right.
      * intros k e' Hel Hkne. apply elem_of_cons in Hel as [[= -> ->]|Hel];
          [done|]. by apply Hin.
    + (* an entry of another host *)
      destruct (Hfound dn e) as [Hlook Htag]; [by left|].
      assert (Hcond : match me with
                      | Some (master_dn, _) => bool_decide (dn = master_dn)
                      | None => false
                      end = false).
      { destruct Hme as [->|[-> _]]; [|done]. by apply bool_decide_eq_false_2. }
      cbn [demote_renewal_masters]. rewrite Hcond.
      unfold bind at 1. unfold getitem_ipaConfigString.
      assert (Hvalues : ipaConfigString e ≠ []).
      { intros Hnil. unfold has_renewal_tag in Htag. by rewrite Hnil in Htag. }
      destruct (ipaConfigString e) as [|v values] eqn:Hcfg; [done|].
      unfold ret at 1. unfold bind at 1.
      rewrite (update_entry_changes dn e) by
        (try done; cbn [ipaConfigString set_ipaConfigString]; rewrite Hcfg;
         apply without_renewal_tag_changes; by rewrite <- Hcfg).
      set (h1 := mkHost _ _ _).
      destruct (IH me h1 Hnodup) as (h' & Hrun & Hos & Hout & Hin & Hm).
      { intros dn' e' Hel.
        assert (dn' ≠ dn).
        { intros ->. apply Hdn.
          by apply (list_elem_of_fmap_2 fst _ (dn, e')). }
        destruct (Hfound dn' e') as [Hlook' Htag']; [by right|].
        split; [|done]. unfold h1. cbn [directory].
        by rewrite lookup_insert_ne. }
      { destruct Hme as [->|[-> Hnot]]; [by left|right].
        split; [done|]. intros Hel. apply Hnot. rewrite fmap_cons. by right. }
      exists h'. rewrite Hrun.
      assert (Hsame : bool_decide (mdn ∈ ((dn, e) :: entries).*1)
                      = bool_decide (mdn ∈ entries.*1)).
      { apply bool_decide_ext. rewrite fmap_cons, elem_of_cons.
        cbn [fst]. split; [intros [Heq|Hel]; [by subst|done]|by right]. }
      rewrite Hsame. split; [done|]. split; [by rewrite Hos|].
      split; [|split].
      * intros k Hk. rewrite fmap_cons, not_elem_of_cons in Hk.
        destruct Hk as [Hkdn Hk]. rewrite Hout by done.
        unfold h1. cbn [directory]. by rewrite lookup_insert_ne.
      * intros k e' Hel Hkne. apply elem_of_cons in Hel as [[= -> ->]|Hel].
        -- rewrite Hout by done. unfold h1. cbn [directory].
           rewrite lookup_insert_eq. by rewrite Hcfg.
        -- by apply Hin.
      * rewrite Hm. unfold h1. cbn [directory]. by rewrite lookup_insert_ne.
Qed.

Lemma elem_of_list_filter_bool {A} (f : A → bool) (l : list A) (x : A) :
  x ∈ List.filter f l ↔ x ∈ l ∧ f x = true.
Proof. rewrite !list_elem_of_In. apply filter_In. Qed.

Lemma NoDup_fst_list_filter {A B} (f : A * B → bool) (l : list (A * B)) :
  NoDup l.*1 → NoDup (List.filter f l).*1.
Proof.
  induction l as [|x l IH]; [done|].
  rewrite fmap_cons. intros [Hx Hl]%NoDup_cons. simpl.
  destruct (f x); [|by apply IH].
  rewrite fmap_cons. apply NoDup_cons. split; [|by apply IH].
  intros Hin. apply Hx. apply list_elem_of_fmap in Hin as (y & -> & Hy).
  apply elem_of_list_filter_bool in Hy as [Hy _].
  by apply list_elem_of_fmap_2.
Qed.

(** The search that ends with "not found" caught gives the entries that
    pass, none included, and leaves the host as it is. *)
Lemma find_entries_subtree_or_nil (passes : Entry → bool) (base_dn : DN)
    (h : Host Os) :
  try_except_else (find_entries_subtree passes base_dn) (is_a NotFound)
    (λ _, ret []) ret h
  = (h, Returned
          (List.filter (λ de : DN * Entry,
                          bool_decide (base_dn `suffix_of` de.1)
                          && passes de.2)
                       (map_to_list (directory h)))).
Proof.
  unfold try_except_else, find_entries_subtree.
  by destruct (List.filter _ _).
Qed.

(** The entries that [set_renewal_master] finds. *)
Definition renewal_masters_found (basedn : DN) (h : Host Os)
  : list (DN * Entry) :=
  List.filter (λ de : DN * Entry,
                 bool_decide (masters_dn basedn `suffix_of` de.1)
                 && is_ca_renewal_master de.2)
              (map_to_list (directory h)).

Lemma renewal_masters_found_spec (basedn : DN) (h : Host Os) dn e :
  (dn, e) ∈ renewal_masters_found basedn h
  ↔ directory h !! dn = Some e ∧ masters_dn basedn `suffix_of` dn
    ∧ is_ca_renewal_master e = true.
Proof.
  unfold renewal_masters_found.
  rewrite elem_of_list_filter_bool, elem_of_map_to_list. cbn [fst snd].
  rewrite andb_true_iff, bool_decide_eq_true. tauto.
Qed.

(** What [set_renewal_master] leaves in the directory, entry by
    entry. *)
Definition after_set_renewal_master (fqdn : string) (basedn : DN)
    (dir : gmap DN Entry) (k : DN) : option Entry :=
  match dir !! k with
  | None => None
  | Some e =>
      if bool_decide (k = ca_master_dn fqdn basedn)
      then if is_ca_renewal_master e then Some e
           else Some (set_ipaConfigString
                        (ipaConfigString e ++ ["caRenewalMaster"]) e)
      else if bool_decide (masters_dn basedn `suffix_of` k)
              && is_ca_renewal_master e
           then Some (set_ipaConfigString
                        (without_renewal_tag (ipaConfigString e)) e)
           else Some e
  end.

Lemma set_renewal_master_run (fqdn : string) (basedn : DN) (h : Host Os)
    (e : Entry) :
  directory h !! ca_master_dn fqdn basedn = Some e →
  ipaConfigString e ≠ [] →
  ∃ h', set_renewal_master fqdn basedn h = (h', Returned ())
        ∧ os h' = os h
        ∧ ∀ k : DN, directory h' !! k
               = after_set_renewal_master fqdn basedn (directory h) k.
Proof.
  intros Hmaster Hvalues. unfold set_renewal_master. cbv zeta.
  set (mdn := ca_master_dn fqdn basedn) in *.
  unfold bind at 1. rewrite find_entries_subtree_or_nil.
  fold (renewal_masters_found basedn h).
  unfold bind at 1. unfold get_entry at 1. unfold log_op at 1 2.
  cbn [directory os ops]. rewrite Hmaster.
  set (h1 := mkHost _ _ _).
  assert (Hdir1 : directory h1 = directory h) by done.
  destruct (demote_renewal_masters_spec mdn e
              (renewal_masters_found basedn h) (Some (mdn, e)) h1)
    as (h2 & Hrun & Hos & Hout & Hin & Hm).
  { apply NoDup_fst_list_filter, NoDup_fst_map_to_list. }
  { intros dn e' Hel. apply renewal_masters_found_spec in Hel
      as (Hlook & _ & Hpass).
    split; [done|]. unfold is_ca_renewal_master in Hpass.
    by apply andb_true_iff in Hpass as [_ ?]. }
  { by left. }
  unfold bind at 1. rewrite Hrun.
  assert (Hkeys : ∀ k : DN, k ∈ (renewal_masters_found basedn h).*1
                       ↔ ∃ e0, directory h !! k = Some e0
                               ∧ masters_dn basedn `suffix_of` k
                               ∧ is_ca_renewal_master e0 = true).
  { intros k. rewrite list_elem_of_fmap. split.
    - intros ([k' e0] & -> & Hel). exists e0.
      by apply renewal_masters_found_spec.
    - intros (e0 & Hel). exists (k, e0). split; [done|].
      by apply renewal_masters_found_spec. }
  assert (Hothers : ∀ k : DN, k ≠ mdn →
            directory h2 !! k
            = after_set_renewal_master fqdn basedn (directory h) k).
  { intros k Hk. unfold after_set_renewal_master. fold mdn.
    rewrite (bool_decide_eq_false_2 (k = mdn)) by done.
    destruct (decide (k ∈ (renewal_masters_found basedn h).*1)) as [Hel|Hel].
    - apply Hkeys in Hel as (e0 & Hlook & Hsuf & Hpass).
      rewrite Hlook, Hpass, bool_decide_eq_true_2 by done. cbn [andb].
      apply Hin; [|done]. by apply renewal_masters_found_spec.
    - rewrite Hout, Hdir1 by done.
      destruct (directory h !! k) as [e0|] eqn:Hlook; [|done].
      destruct (bool_decide (masters_dn basedn `suffix_of` k)
                && is_ca_renewal_master e0) eqn:Hcond; [|done].
      exfalso. apply Hel, Hkeys. exists e0.
      apply andb_true_iff in Hcond as [?%bool_decide_eq_true ?]. done. }
  assert (Hmkey : mdn ∈ (renewal_masters_found basedn h).*1
                  ↔ is_ca_renewal_master e = true).
  { rewrite Hkeys. split.
    - intros (e0 & Hlook & _ & Hpass). rewrite Hmaster in Hlook.
      by injection Hlook as <-.
    - intros Hpass. exists e. split; [done|]. split; [|done].
      apply masters_dn_suffix_ca_master_dn. }
  case_bool_decide as Hfoundm.
  - (* the new master is a renewal master already *)
    exists h2. split; [done|]. split; [by rewrite Hos|]. intros k.
    destruct (decide (k = mdn)) as [->|Hk]; [|by apply Hothers].
    rewrite Hm, Hdir1, Hmaster. unfold after_set_renewal_master. fold mdn.
    rewrite Hmaster, bool_decide_eq_true_2 by done.
    apply Hmkey in Hfoundm. by rewrite Hfoundm.
  - (* the new master gets the tag *)
    unfold bind at 1. unfold getitem_ipaConfigString.
    destruct (ipaConfigString e) as [|v values] eqn:Hcfg; [done|].
    unfold ret at 1.
    rewrite (update_entry_changes mdn e); cycle 1.
    { by rewrite Hm, Hdir1. }
    { cbn [ipaConfigString set_ipaConfigString]. rewrite Hcfg.
      rewrite <- Hcfg. apply app_singleton_neq. }
    eexists. split; [done|]. cbn [os directory]. split; [by rewrite Hos|].
    intros k. destruct (decide (k = mdn)) as [->|Hk].
    + rewrite lookup_insert_eq. unfold after_set_renewal_master. fold mdn.
      rewrite Hmaster, bool_decide_eq_true_2 by done.
      destruct (is_ca_renewal_master e) eqn:Hpass;
        [exfalso; by apply Hfoundm, Hmkey|].
      by rewrite Hcfg.
    + rewrite lookup_insert_ne by done. by apply Hothers.
Qed.

End RenewalMasterFacts.

Lemma list_filter_nil {A} (f : A → bool) (l : list A) :
  (∀ x, x ∈ l → f x = false) → List.filter f l = [].
Proof.
  induction l as [|x l IH]; intros Hall; [done|]. simpl.
  rewrite (Hall x) by (by left). apply IH. intros y Hy. apply Hall. by right.
Qed.

Lemma ca_master_dn_suffix_inj (fqdn1 fqdn2 : string) (basedn : DN) :
  ca_master_dn fqdn1 basedn `suffix_of` ca_master_dn fqdn2 basedn →
  fqdn1 = fqdn2.
Proof.
  intros [pre Heq]. destruct pre as [|x pre].
  - by injection Heq.
  - apply (f_equal length) in Heq. unfold ca_master_dn in Heq.
    rewrite !length_app in Heq. simpl in Heq. lia.
Qed.

Lemma has_renewal_tag_appended (e : Entry) :
  has_renewal_tag
    (set_ipaConfigString (ipaConfigString e ++ ["caRenewalMaster"]) e) = true.
Proof.
  unfold has_renewal_tag. cbn [ipaConfigString set_ipaConfigString].
  rewrite existsb_app. apply orb_true_iff. by right.
Qed.

Lemma has_renewal_tag_stripped (e : Entry) :
  has_renewal_tag
    (set_ipaConfigString (without_renewal_tag (ipaConfigString e)) e) = false.
Proof.
  unfold has_renewal_tag. cbn [ipaConfigString set_ipaConfigString].
  apply without_renewal_tag_clean.
Qed.

Section RenewalMasterTheorems.

Context {Os : Type}.

(** The query of [is_renewal_master] answers by the entries at and
    below the entry of the host. *)
Lemma is_renewal_master_true (fqdn : string) (basedn : DN) (h : Host Os)
    (e : Entry) :
  directory h !! ca_master_dn fqdn basedn = Some e →
  has_renewal_tag e = true →
  is_renewal_master fqdn basedn h = (h, Returned true).
Proof.
  intros Hlook Htag. unfold is_renewal_master, try_except_else,
    find_entries_subtree. cbv zeta.
  destruct (List.filter _ _) as [|x l] eqn:Hfilter; [|done].
  exfalso. apply (not_elem_of_nil (ca_master_dn fqdn basedn, e)).
  rewrite <- Hfilter. apply elem_of_list_filter_bool. split.
  - by apply elem_of_map_to_list.
  - cbn [fst snd]. by rewrite Htag, bool_decide_eq_true_2.
Qed.

Lemma is_renewal_master_false (fqdn : string) (basedn : DN) (h : Host Os) :
  (∀ (k : DN) e, ca_master_dn fqdn basedn `suffix_of` k →
          directory h !! k = Some e → has_renewal_tag e = false) →
  is_renewal_master fqdn basedn h = (h, Returned false).
Proof.
  intros Hnone. unfold is_renewal_master, try_except_else,
    find_entries_subtree. cbv zeta.
  rewrite list_filter_nil; [done|].
  intros [k e] Hel%elem_of_map_to_list. cbn [fst snd].
  case_bool_decide as Hsuf; [|done]. cbn [andb]. by apply (Hnone k).
Qed.

(** X16 [set_renewal_master] leaves one renewal master: when the host
    has its CA entry, with a configuration value, the call returns;
    afterwards that entry holds the tag, no other entry below the
    masters passes the filter of the renewal master, the entries
    elsewhere are as before, and no entry appeared or went away. *)
Theorem set_renewal_master_one_master (fqdn : string) (basedn : DN)
    (h : Host Os) (e : Entry) :
  directory h !! ca_master_dn fqdn basedn = Some e →
  ipaConfigString e ≠ [] →
  ∃ h', set_renewal_master fqdn basedn h = (h', Returned ())
    ∧ (∃ e', directory h' !! ca_master_dn fqdn basedn = Some e'
             ∧ has_renewal_tag e' = true)
    ∧ (∀ (k : DN) e', masters_dn basedn `suffix_of` k →
               k ≠ ca_master_dn fqdn basedn →
               directory h' !! k = Some e' →
               is_ca_renewal_master e' = false)
    ∧ (∀ k : DN, ¬ masters_dn basedn `suffix_of` k →
            directory h' !! k = directory h !! k)
    ∧ (∀ k : DN, is_Some (directory h' !! k) ↔ is_Some (directory h !! k)).
Proof.
  intros Hmaster Hvalues.
  destruct (set_renewal_master_run fqdn basedn h e Hmaster Hvalues)
    as (h' & Hrun & _ & Hdir).
  exists h'. split; [done|]. split; [|split; [|split]].
  - rewrite Hdir. unfold after_set_renewal_master.
    rewrite Hmaster, bool_decide_eq_true_2 by done.
    destruct (is_ca_renewal_master e) eqn:Hpass.
    + exists e. split; [done|]. unfold is_ca_renewal_master in Hpass.
      by apply andb_true_iff in Hpass as [_ ?].
    + eexists. split; [done|]. apply has_renewal_tag_appended.
  - intros k e' Hsuf Hk. rewrite Hdir. unfold after_set_renewal_master.
    destruct (directory h !! k) as [e0|]; [|done].
    rewrite bool_decide_eq_false_2, (bool_decide_eq_true_2 _ Hsuf) by done.
    cbn [andb]. destruct (is_ca_renewal_master e0) eqn:Hpass.
    + intros [= <-]. unfold is_ca_renewal_master.
      rewrite has_renewal_tag_stripped. apply andb_false_r.
    + by intros [= <-].
  - intros k Hsuf. rewrite Hdir. unfold after_set_renewal_master.
    destruct (directory h !! k) as [e0|]; [|done].
    rewrite bool_decide_eq_false_2.
    + by rewrite (bool_decide_eq_false_2 _ Hsuf).
    + intros ->. apply Hsuf, masters_dn_suffix_ca_master_dn.
  - intros k. rewrite Hdir. unfold after_set_renewal_master.
    destruct (directory h !! k) as [e0|]; [|done].
    split; [by eexists|]. intros _.
    repeat match goal with |- context [if ?b then _ else _] => destruct b end;
      by eexists.
Qed.

(** X17 [set_renewal_master] for a host without CA entry: the call ends
    with "not found" from the read of that entry, before any entry is
    changed, so the renewal master there was stays. *)
Theorem set_renewal_master_no_entry (fqdn : string) (basedn : DN)
    (h : Host Os) :
  directory h !! ca_master_dn fqdn basedn = None →
  set_renewal_master fqdn basedn h
  = (mkHost (os h) (directory h)
            (ops h ++ [DirGet (ca_master_dn fqdn basedn)]),
     Raise NotFound).
Proof.
  intros Hmaster. unfold set_renewal_master. cbv zeta.
  unfold bind at 1. rewrite find_entries_subtree_or_nil.
  unfold bind at 1. unfold get_entry, log_op. cbn [directory os ops].
  by rewrite Hmaster.
Qed.

(** X18 [set_renewal_master], then [is_renewal_master]: after the call
    returned, the host is a renewal master by [is_renewal_master], and
    no other host is, when the entries at and below the CA entry of that
    other host have [CA] as a name. *)
Theorem set_renewal_master_then_is_renewal_master (fqdn : string)
    (basedn : DN) (h : Host Os) (e : Entry) :
  directory h !! ca_master_dn fqdn basedn = Some e →
  ipaConfigString e ≠ [] →
  ∃ h', set_renewal_master fqdn basedn h = (h', Returned ())
    ∧ is_renewal_master fqdn basedn h' = (h', Returned true)
    ∧ ∀ other,
        other ≠ fqdn →
        (∀ (k : DN) e0, ca_master_dn other basedn `suffix_of` k →
                 directory h !! k = Some e0 →
                 existsb (λ c, bool_decide (lower c = lower "CA")) (cn e0)
                 = true) →
        is_renewal_master other basedn h' = (h', Returned false).
Proof.
  intros Hmaster Hvalues.
  destruct (set_renewal_master_run fqdn basedn h e Hmaster Hvalues)
    as (h' & Hrun & _ & Hdir).
  exists h'. split; [done|]. split.
  - assert (Hnew : ∃ e', directory h' !! ca_master_dn fqdn basedn = Some e'
                         ∧ has_renewal_tag e' = true).
    { rewrite Hdir. unfold after_set_renewal_master.
      rewrite Hmaster, bool_decide_eq_true_2 by done.
      destruct (is_ca_renewal_master e) eqn:Hpass.
      - exists e. split; [done|]. unfold is_ca_renewal_master in Hpass.
        by apply andb_true_iff in Hpass as [_ ?].
      - eexists. split; [done|]. apply has_renewal_tag_appended. }
    destruct Hnew as (e' & Hlook & Htag).
    by apply (is_renewal_master_true fqdn basedn h' e').
  - intros other Hother Hcn. apply is_renewal_master_false.
    intros k e' Hsuf. rewrite Hdir. unfold after_set_renewal_master.
    destruct (directory h !! k) as [e0|] eqn:Hlook; [|done].
    assert (Hk : k ≠ ca_master_dn fqdn basedn).
    { intros ->. by apply Hother, (ca_master_dn_suffix_inj _ _ basedn). }
    rewrite bool_decide_eq_false_2 by done.
    destruct (bool_decide (masters_dn basedn `suffix_of` k)
              && is_ca_renewal_master e0) eqn:Hcond.
    + intros [= <-]. apply has_renewal_tag_stripped.
    + intros [= <-]. apply andb_false_iff in Hcond as [Hcond|Hcond].
      * exfalso. apply bool_decide_eq_false in Hcond. apply Hcond.
        etrans; [|exact Hsuf]. unfold ca_master_dn. by apply suffix_app_r.
      * unfold is_ca_renewal_master in Hcond.
        by rewrite (Hcn k e0 Hsuf Hlook) in Hcond.
Qed.

Variable service_disable : Py Os ().

(** X19 [__enable_instance] makes the first master the renewal master
    and a clone none: on a host whose service manager disables the
    service and whose directory has no entry at or below the CA entry
    of the host, the call returns, and [is_renewal_master] answers true
    afterwards exactly when the instance is not a clone. *)
Theorem enable_instance_renewal_master (fqdn : string) (basedn : DN)
    (self : CAInstance) (h : Host Os) (o : Os) :
  service_disable (os h) = (o, Returned ()) →
  (∀ k : DN, ca_master_dn fqdn basedn `suffix_of` k →
          directory h !! k = None) →
  ∃ h', enable_instance service_disable fqdn basedn self h = (h', Returned ())
    ∧ is_renewal_master fqdn basedn h' = (h', Returned (negb (clone self))).
Proof.
  intros Hdisable Hnone. unfold enable_instance. cbv zeta.
  rewrite ldap_enable_cases. cbv zeta. rewrite Hdisable.
  change (service_entry_dn "CA" fqdn basedn) with (ca_master_dn fqdn basedn).
  rewrite (Hnone (ca_master_dn fqdn basedn)) by done.
  rewrite ca_service_order. eexists. split; [done|].
  set (entry := mkEntry _ _ _).
  assert (Htag : has_renewal_tag entry = negb (clone self)).
  { unfold entry. by destruct (clone self). }
  destruct (clone self); cbn [negb] in *.
  - apply is_renewal_master_false. intros k e' Hsuf. cbn [directory].
    destruct (decide (k = ca_master_dn fqdn basedn)) as [->|Hk].
    + rewrite lookup_insert_eq. by intros [= <-].
    + rewrite lookup_insert_ne by done. by rewrite Hnone.
  - apply (is_renewal_master_true _ _ _ entry); [|done].
    cbn [directory]. by rewrite lookup_insert_eq.
Qed.

End RenewalMasterTheorems.

(** *** Concrete calls *)

Definition replica_dn : DN := ca_master_dn "replica.example.test" example_suffix.

Definition replica_entry : Entry :=
  mkEntry ["nsContainer"; "ipaConfigObject"] ["CA"]
          ["enabledService"; "startOrder 50"].

(** A host that knows two masters with a CA, the first one the renewal
    master. *)
Definition two_masters_host : Host bool :=
  mkHost false (<[replica_dn := replica_entry]> (directory ca_enabled_host)) [].

Example two_masters_host_replica :
  directory two_masters_host !! replica_dn = Some replica_entry.
Proof. reflexivity. Qed.

Example ca_enabled_host_no_replica :
  directory ca_enabled_host !! replica_dn = None.
Proof. reflexivity. Qed.

Example replica_entry_values : ipaConfigString replica_entry ≠ [].
Proof. discriminate. Qed.

Lemma set_renewal_master_one_master_witness :
  ∃ h', set_renewal_master "replica.example.test" example_suffix
          two_masters_host = (h', Returned ())
    ∧ (∃ e', directory h' !! replica_dn = Some e'
             ∧ has_renewal_tag e' = true)
    ∧ (∀ (k : DN) e', masters_dn example_suffix `suffix_of` k →
               k ≠ replica_dn →
               directory h' !! k = Some e' →
               is_ca_renewal_master e' = false)
    ∧ (∀ k : DN, ¬ masters_dn example_suffix `suffix_of` k →
            directory h' !! k = directory two_masters_host !! k)
    ∧ (∀ k : DN, is_Some (directory h' !! k)
                 ↔ is_Some (directory two_masters_host !! k)).
Proof.
  exact (set_renewal_master_one_master "replica.example.test" example_suffix
           two_masters_host replica_entry two_masters_host_replica
           replica_entry_values).
Defined.

Lemma set_renewal_master_no_entry_witness :
  set_renewal_master "replica.example.test" example_suffix ca_enabled_host
  = (mkHost (os ca_enabled_host) (directory ca_enabled_host)
            (ops ca_enabled_host ++ [DirGet replica_dn]),
     Raise NotFound).
Proof.
  exact (set_renewal_master_no_entry "replica.example.test" example_suffix
           ca_enabled_host ca_enabled_host_no_replica).
Defined.

Lemma set_renewal_master_then_is_renewal_master_witness :
  ∃ h', set_renewal_master "replica.example.test" example_suffix
          two_masters_host = (h', Returned ())
    ∧ is_renewal_master "replica.example.test" example_suffix h'
      = (h', Returned true)
    ∧ ∀ other,
        other ≠ "replica.example.test" →
        (∀ (k : DN) e0, ca_master_dn other example_suffix `suffix_of` k →
                 directory two_masters_host !! k = Some e0 →
                 existsb (λ c, bool_decide (lower c = lower "CA")) (cn e0)
                 = true) →
        is_renewal_master other example_suffix h' = (h', Returned false).
Proof.
  exact (set_renewal_master_then_is_renewal_master "replica.example.test"
           example_suffix two_masters_host replica_entry
           two_masters_host_replica replica_entry_values).
Defined.

Example fresh_host_empty (k : DN) : directory fresh_host !! k = None.
Proof. apply lookup_empty. Qed.

Lemma enable_instance_renewal_master_witness :
  ∃ h', enable_instance disable_succeeds "ipa.example.test" example_suffix
          (CAInstance_init false) fresh_host = (h', Returned ())
    ∧ is_renewal_master "ipa.example.test" example_suffix h'
      = (h', Returned (negb (clone (CAInstance_init false)))).
Proof.
  exact (enable_instance_renewal_master disable_succeeds "ipa.example.test"
           example_suffix (CAInstance_init false) fresh_host false eq_refl
           (λ k _, fresh_host_empty k)).
Defined.

(** ** The steps of [configure_instance] and failures *)

(** Updates of the runner that only append steps without the flag
    [run_after_failure]. *)
Definition appends_unflagged (f : Service CAStep → Service CAStep) : Prop :=
  ∃ l, Forall (λ s, run_after_failure s = false) l
       ∧ ∀ svc, f svc = set_steps (steps svc ++ l) svc.

Lemma appends_unflagged_id : appends_unflagged (λ svc, svc).
Proof.
  exists []. split; [done|]. intros [name desc l out]. unfold set_steps.
  simpl. by rewrite app_nil_r.
Qed.

Lemma appends_unflagged_step msg m : appends_unflagged (step msg m false).
Proof. exists [mkStep msg m false]. split; [|done]. by repeat constructor. Qed.

Lemma appends_unflagged_then f g :
  appends_unflagged f → appends_unflagged g →
  appends_unflagged (λ svc, f svc |> g).
Proof.
  intros (l1 & Hl1 & H1) (l2 & Hl2 & H2). exists (l1 ++ l2).
  split; [by apply Forall_app|]. intros svc.
  unfold then_do. rewrite H2, H1. unfold set_steps. simpl.
  by rewrite app_assoc.
Qed.

Lemma appends_unflagged_when c f :
  appends_unflagged f → appends_unflagged (when c f).
Proof. intros H. destruct c; [exact H|apply appends_unflagged_id]. Qed.

Lemma appends_unflagged_if (c : bool) f g :
  appends_unflagged f → appends_unflagged g →
  appends_unflagged (if c then f else g).
Proof. by destruct c. Qed.

Lemma register_steps_unflagged self has_ra_cert ra_p12 ra_only promote :
  appends_unflagged (register_steps self has_ra_cert ra_p12 ra_only promote).
Proof.
  unfold register_steps.
  repeat first
    [ apply appends_unflagged_id | apply appends_unflagged_step
    | apply appends_unflagged_when | apply appends_unflagged_if
    | apply appends_unflagged_then ].
Qed.

Lemma declared_steps_unflagged self has_ra_cert ra_p12 ra_only promote :
  Forall (λ s, run_after_failure s = false)
         (declared_steps self has_ra_cert ra_p12 ra_only promote).
Proof.
  destruct (register_steps_unflagged self has_ra_cert ra_p12 ra_only promote)
    as (l & Hl & H).
  unfold declared_steps. rewrite H. exact Hl.
Qed.

Lemma flagged_unflagged {Method} (l : list (Step Method)) :
  Forall (λ s, run_after_failure s = false) l → flagged l = [].
Proof.
  unfold flagged. induction 1 as [|s l Hs _ IH]; [done|].
  rewrite filter_cons. destruct (decide (run_after_failure s = true)) as [Hf|_].
  - by rewrite Hs in Hf.
  - exact IH.
Qed.

Section CAFailures.

Context {Ext : Type}.
Variable CA_CS_CFG_PATH : string.
Variable CA_BACKUP_KEYS_P12 : string.
Variable CACERT_P12 : string.
Variable argv0 : string.
Variable get_cert_from_db : Env Ext → string → string.
Variable pkispawn : CAInstance → Py (Env Ext) ().
Variable collaborator : CAStep → CAInstance → Py (Env Ext) ().

(** X20 A step of [configure_instance] that fails ends the run: no step
    is registered with [run_after_failure], so that, on a runner
    without earlier steps, once a step raises an exception that is not
    an exit with code zero after the steps before it returned, the line
    of the error is printed, no step after it is called, and the
    exception reaches the caller. *)
Theorem configure_instance_failure_ends_run
    pkcs12_info csr cert chain ra_p12 ra_only promote svc self env
    pre s post w1 w2 e :
  let self' :=
    determine_external csr cert chain (set_clone pkcs12_info self) in
  let svc' :=
    register_steps self' (has_ra_cert_check get_cert_from_db self' env)
                   ra_p12 ra_only promote svc in
  steps svc = [] →
  steps svc' = pre ++ s :: post →
  run_all (ca_invoke CA_CS_CFG_PATH CA_BACKUP_KEYS_P12 CACERT_P12 argv0
                     pkispawn collaborator)
          (method <$> pre) (self', env) = Some w1 →
  ca_invoke CA_CS_CFG_PATH CA_BACKUP_KEYS_P12 CACERT_P12 argv0 pkispawn
            collaborator (method s) w1 = (w2, Raise e) →
  is_exit_zero e = false →
  configure_instance CA_CS_CFG_PATH CA_BACKUP_KEYS_P12 CACERT_P12 argv0
    get_cert_from_db pkispawn collaborator
    pkcs12_info csr cert chain ra_p12 ra_only promote (svc, (self, env))
  = ((emit (Printed (start_line svc' None true 210)
            :: progress_events (length (steps svc')) 0 (pre ++ [s])
            ++ [Printed (error_line e)]) svc',
      w2),
     Raise e).
Proof.
  intros self' svc' Hsvc Hsteps Hpre Hs He.
  unfold configure_instance. fold self'. fold svc'.
  rewrite (start_creation_raise _ _ _ _ _ _ _ _ _ None None true 210
             Hsteps Hpre Hs).
  cbv zeta. rewrite He.
  assert (Hpost : flagged post = []).
  { apply flagged_unflagged.
    assert (Hall : Forall (λ s, run_after_failure s = false) (steps svc')).
    { unfold svc'. rewrite register_steps_appends. cbn [steps set_steps].
      rewrite Hsvc, app_nil_l. apply declared_steps_unflagged. }
    rewrite Hsteps in Hall. apply Forall_app in Hall as [_ Hall].
    by apply Forall_cons in Hall as [_ Hall]. }
  rewrite (cleanup_steps_returns _ post _ w2 w2) by (by rewrite Hpost).
  rewrite Hpost. cbn [cleanup_events]. by rewrite emit_nil.
Qed.

(** X21 The step [CAInstance.backup_config] never fails: while the
    [pki-tomcat] service runs, or without the configuration file, it
    changes nothing and returns; otherwise it returns after the file
    was copied to the path with the suffix [.ipabkp]. *)
Theorem CAInstance_backup_config_never_fails (env : Env Ext) :
  CAInstance_backup_config CA_CS_CFG_PATH env
  = (if pki_tomcatd_running env then env
     else match files env !! CA_CS_CFG_PATH with
          | Some content =>
              set_files (<[CA_CS_CFG_PATH +:+ ".ipabkp" := content]>
                           (files env)) env
          | None => env
          end,
     Returned ()).
Proof.
  unfold CAInstance_backup_config, try_except_else, backup_config,
    shutil_copy, raise.
  destruct (pki_tomcatd_running env); [done|].
  by destruct (files env !! CA_CS_CFG_PATH).
Qed.

End CAFailures.

(** *** A concrete failure *)

(** A platform on which the setup of certmonger fails. *)
Definition certmonger_fails (m : CAStep) (_ : CAInstance) : Py (Env ()) () :=
  match m with
  | m_configure_certmonger_renewal =>
      raise (RuntimeError "certmonger is not running")
  | _ => ret ()
  end.

Definition certmonger_step : Step CAStep :=
  mkStep "configure certmonger for renewals" m_configure_certmonger_renewal
         false.

Definition request_ra_step : Step CAStep :=
  mkStep "requesting RA certificate from CA" m_request_ra_certificate false.

Lemma configure_instance_failure_ends_run_witness :
  ∃ svc',
    configure_instance (Ext := ()) CS_CFG BACKUP_KEYS_P12 ROOT_CACERT_P12
      installer (λ _ _, "") (λ _, ret ()) certmonger_fails
      None None None None None true false
      (ca_service, (CAInstance_init false, stopped_env))
    = ((svc', (CAInstance_init false, stopped_env)),
       Raise (RuntimeError "certmonger is not running"))
    ∧ steps svc' = [certmonger_step; request_ra_step]
    ∧ calls (output_fd svc') = [m_configure_certmonger_renewal].
Proof.
  eexists. split.
  - exact (configure_instance_failure_ends_run CS_CFG BACKUP_KEYS_P12
             ROOT_CACERT_P12 installer (λ _ _, "") (λ _, ret ())
             certmonger_fails None None None None None true false
             ca_service (CAInstance_init false) stopped_env
             [] certmonger_step [request_ra_step]
             (CAInstance_init false, stopped_env)
             (CAInstance_init false, stopped_env)
             (RuntimeError "certmonger is not running")
             eq_refl eq_refl eq_refl eq_refl eq_refl).
  - split; reflexivity.
Defined.

(** ** The key retrieval of lightweight CAs *)

Section KeyRetrievalFacts.

Context {W : Type}.
Variable CA_CS_CFG_PATH : string.
Variable setup_kerberos : Py W ().
Variable setup_custodia : Py W ().
Variable set_directive : string → string → string → Py W ().

Lemma setup_lightweight_ca_key_retrieval_once (u : UpgradeState)
    (w w1 : W) :
  u !! ("dogtag", "setup_lwca_key_retrieval") ≠ Some true →
  key_retrieval_setup CA_CS_CFG_PATH setup_kerberos setup_custodia
                      set_directive w = (w1, Returned ()) →
  setup_lightweight_ca_key_retrieval CA_CS_CFG_PATH setup_kerberos
    setup_custodia set_directive (u, w)
  = ((<[("dogtag", "setup_lwca_key_retieval") := true]> u, w1), Returned ()).
Proof.
  intros Hguard Hrun.
  unfold setup_lightweight_ca_key_retrieval, get_upgrade_state, bind at 1.
  cbn [fst snd]. rewrite (bool_decide_eq_false_2 _ Hguard).
  unfold bind, on_world, set_upgrade_state. cbn [fst snd].
  by rewrite Hrun.
Qed.

(** X22 [setup_lightweight_ca_key_retrieval] does not remember that it
    ran: the state it sets has another name than the state its guard
    reads, so that a second call, after a first one that found the guard
    unset and returned, runs the whole setup again. *)
Theorem setup_lightweight_ca_key_retrieval_runs_again
    (u : UpgradeState) (w w1 w2 : W) :
  u !! ("dogtag", "setup_lwca_key_retrieval") ≠ Some true →
  key_retrieval_setup CA_CS_CFG_PATH setup_kerberos setup_custodia
                      set_directive w = (w1, Returned ()) →
  key_retrieval_setup CA_CS_CFG_PATH setup_kerberos setup_custodia
                      set_directive w1 = (w2, Returned ()) →
  (setup_lightweight_ca_key_retrieval CA_CS_CFG_PATH setup_kerberos
     setup_custodia set_directive ;;;
   setup_lightweight_ca_key_retrieval CA_CS_CFG_PATH setup_kerberos
     setup_custodia set_directive) (u, w)
  = ((<[("dogtag", "setup_lwca_key_retieval") := true]> u, w2), Returned ()).
Proof.
  intros Hguard Hfirst Hsecond. unfold bind.
  rewrite (setup_lightweight_ca_key_retrieval_once u w w1 Hguard Hfirst).
  assert (Hguard' : <[("dogtag", "setup_lwca_key_retieval") := true]> u
                    !! ("dogtag", "setup_lwca_key_retrieval") ≠ Some true).
  { by rewrite lookup_insert_ne. }
  rewrite (setup_lightweight_ca_key_retrieval_once _ w1 w2 Hguard' Hsecond).
  by rewrite insert_insert_eq.
Qed.

End KeyRetrievalFacts.

(** ** [Service.move_service] *)

Lemma kerberos_dn_not_service_dn (principal realm : string) (suffix : DN) :
  kerberos_principal_dn principal realm suffix
  ≠ service_principal_dn principal suffix.
Proof. unfold kerberos_principal_dn, service_principal_dn. by intros [=]. Qed.

Section MoveServiceFacts.

Variable list_of_set : list attr_value → list attr_value.

(** X23 [move_service] moves the entry of the principal: with the entry
    under the Kerberos container, object classes in it, and no entry
    under the new name, the call returns the new name; the old name is
    gone, the new name holds the entry without the password policy
    reference, with the classes of a service, the identifier to
    generate and the host as manager, and every other entry is as
    before. *)
Theorem move_service_moves (principal realm fqdn : string) (suffix : DN)
    (d : Ldap) (entry : LdapEntry) (classes : list attr_value) :
  d !! kerberos_principal_dn principal realm suffix = Some entry →
  entry !! "objectclass" = Some classes →
  d !! service_principal_dn principal suffix = None →
  ∃ d' entry',
    move_service list_of_set principal realm fqdn suffix d
    = (d', Returned (Some (service_principal_dn principal suffix)))
    ∧ d' !! kerberos_principal_dn principal realm suffix = None
    ∧ d' !! service_principal_dn principal suffix = Some entry'
    ∧ (∀ dn : DN, dn ≠ kerberos_principal_dn principal realm suffix →
                  dn ≠ service_principal_dn principal suffix →
                  d' !! dn = d !! dn)
    ∧ entry' !! "krbpwdpolicyreference" = None
    ∧ entry' !! "objectclass"
      = Some (list_of_set (classes ++ [Text "ipaobject"; Text "ipaservice";
                                       Text "pkiuser"]))
    ∧ entry' !! "ipauniqueid" = Some [Text "autogenerate"]
    ∧ entry' !! "managedby" = Some [Name (host_dn fqdn suffix)]
    ∧ (∀ attr : string,
         attr ∉ ["krbpwdpolicyreference"; "objectclass"; "ipauniqueid";
                 "managedby"] →
         entry' !! attr = entry !! attr).
Proof.
  intros Hold Hclasses Hnew.
  pose proof (kerberos_dn_not_service_dn principal realm suffix) as Hne.
  unfold move_service, try_except_else, ldap_get_entry. cbv zeta.
  rewrite Hold. unfold bind at 1. unfold ldap_delete_entry. rewrite Hold.
  rewrite lookup_delete_ne by done. rewrite Hclasses.
  unfold bind, ldap_add_entry, ret.
  rewrite lookup_delete_ne, Hnew by done.
  eexists _, _. split; [done|].
  split; [by rewrite lookup_insert_ne, lookup_delete_eq|].
  split; [by rewrite lookup_insert_eq|].
  split; [intros dn H1 H2; by rewrite lookup_insert_ne, lookup_delete_ne|].
  unfold moved_entry. cbv zeta.
  split; [by rewrite !lookup_insert_ne, lookup_delete_eq|].
  split; [by rewrite lookup_insert_ne, lookup_insert_ne, lookup_insert_eq|].
  split; [by rewrite lookup_insert_ne, lookup_insert_eq|].
  split; [by rewrite lookup_insert_eq|].
  intros attr Hattr. rewrite !not_elem_of_cons in Hattr.
  destruct Hattr as (H1 & H2 & H3 & H4 & _).
  by rewrite !lookup_insert_ne, lookup_delete_ne.
Qed.

(** X24 [move_service] is not undone when it fails: with an entry under
    the new name already, the entry of the principal is deleted first
    and the addition then fails with "duplicate entry"; the entry that
    was read is in the directory no more, and the entry under the new
    name is the one that was there. *)
Theorem move_service_target_exists (principal realm fqdn : string)
    (suffix : DN) (d : Ldap) (entry other : LdapEntry)
    (classes : list attr_value) :
  d !! kerberos_principal_dn principal realm suffix = Some entry →
  entry !! "objectclass" = Some classes →
  d !! service_principal_dn principal suffix = Some other →
  move_service list_of_set principal realm fqdn suffix d
  = (delete (kerberos_principal_dn principal realm suffix) d,
     Raise DuplicateEntry).
Proof.
  intros Hold Hclasses Hnew.
  pose proof (kerberos_dn_not_service_dn principal realm suffix) as Hne.
  unfold move_service, try_except_else, ldap_get_entry. cbv zeta.
  rewrite Hold. unfold bind at 1. unfold ldap_delete_entry. rewrite Hold.
  rewrite lookup_delete_ne by done. rewrite Hclasses.
  unfold bind, ldap_add_entry.
  by rewrite lookup_delete_ne, Hnew by done.
Qed.

End MoveServiceFacts.

(** *** Concrete calls *)

(** A platform that notes what is done. *)
Definition noted (what : string) : Py (list string) () :=
  λ w, (w ++ [what], Returned ()).

Definition noted_setup : Py (UpgradeState * list string) () :=
  setup_lightweight_ca_key_retrieval CS_CFG (noted "kerberos")
    (noted "custodia") (λ _ k _, noted k).

Lemma setup_lightweight_ca_key_retrieval_runs_again_witness :
  (noted_setup ;;; noted_setup) (∅, [])
  = ((<[("dogtag", "setup_lwca_key_retieval") := true]> ∅,
      [ "kerberos"; "custodia"; "features.authority.keyRetrieverClass";
        "features.authority.keyRetrieverConfig.executable";
        "kerberos"; "custodia"; "features.authority.keyRetrieverClass";
        "features.authority.keyRetrieverConfig.executable" ]),
     Returned ()).
Proof.
  exact (setup_lightweight_ca_key_retrieval_runs_again CS_CFG
           (noted "kerberos") (noted "custodia") (λ _ k _, noted k)
           ∅ [] _ _ ltac:(by rewrite lookup_empty) eq_refl eq_refl).
Defined.

Definition http_principal : string := "HTTP/ipa.example.test@EXAMPLE.TEST".

Definition http_kerberos_dn : DN :=
  kerberos_principal_dn http_principal "EXAMPLE.TEST" example_suffix.

Definition http_service_dn : DN :=
  service_principal_dn http_principal example_suffix.

(** The entry as kadmin.local creates it. *)
Definition http_principal_entry : LdapEntry :=
  {[ "objectclass" := [Text "krbprincipal"; Text "krbprincipalaux"];
     "krbprincipalname" := [Text http_principal];
     "krbpwdpolicyreference" := [Name [("cn", "Default Service Password Policy")]] ]}.

Definition after_kadmin : Ldap := {[ http_kerberos_dn := http_principal_entry ]}.

(** The directory when the service was there before. *)
Definition after_kadmin_again : Ldap :=
  <[http_service_dn := http_principal_entry]> after_kadmin.

Lemma move_service_moves_witness :
  ∃ d' entry',
    move_service remove_dups http_principal "EXAMPLE.TEST" "ipa.example.test"
                 example_suffix after_kadmin
    = (d', Returned (Some http_service_dn))
    ∧ d' !! http_kerberos_dn = None
    ∧ d' !! http_service_dn = Some entry'
    ∧ (∀ dn : DN, dn ≠ http_kerberos_dn → dn ≠ http_service_dn →
                  d' !! dn = after_kadmin !! dn)
    ∧ entry' !! "krbpwdpolicyreference" = None
    ∧ entry' !! "objectclass"
      = Some (remove_dups
                ([Text "krbprincipal"; Text "krbprincipalaux"]
                 ++ [Text "ipaobject"; Text "ipaservice"; Text "pkiuser"]))
    ∧ entry' !! "ipauniqueid" = Some [Text "autogenerate"]
    ∧ entry' !! "managedby"
      = Some [Name (host_dn "ipa.example.test" example_suffix)]
    ∧ (∀ attr : string,
         attr ∉ ["krbpwdpolicyreference"; "objectclass"; "ipauniqueid";
                 "managedby"] →
         entry' !! attr = http_principal_entry !! attr).
Proof.
  exact (move_service_moves remove_dups http_principal "EXAMPLE.TEST"
           "ipa.example.test" example_suffix after_kadmin
           http_principal_entry
           [Text "krbprincipal"; Text "krbprincipalaux"]
           eq_refl eq_refl eq_refl).
Defined.

Lemma move_service_target_exists_witness :
  move_service remove_dups http_principal "EXAMPLE.TEST" "ipa.example.test"
               example_suffix after_kadmin_again
  = (delete http_kerberos_dn after_kadmin_again, Raise DuplicateEntry).
Proof.
  exact (move_service_target_exists remove_dups http_principal "EXAMPLE.TEST"
           "ipa.example.test" example_suffix after_kadmin_again
           http_principal_entry http_principal_entry
           [Text "krbprincipal"; Text "krbprincipalaux"]
           eq_refl eq_refl eq_refl).
Defined.

(** ** [SimpleServiceInstance] *)

Section SimpleFacts.

Variable name : string.

(** The store after the two steps saved the state of the service. *)
Definition saved_state (o : Managed) (store : StateStore) : StateStore :=
  <[(name, "enabled") := enabled o]> (<[(name, "running") := running o]> store).

Lemma simple_steps_run (fqdn : string) (suffix : DN) (realm : option string)
    (h : Host Managed) (store : StateStore) :
  run_all (simple_invoke name) [m_start; m_enable]
          (mkSimple None fqdn suffix realm, (h, store))
  = Some (mkSimple None fqdn suffix realm,
          (mkHost (mkManaged true true) (directory h) (ops h),
           saved_state (os h) store)).
Proof. reflexivity. Qed.

(** [uninstall] brings the service to the state that was saved. *)
Lemma uninstall_restores (svc : Service SimpleStep)
    (self : SimpleServiceInstance) (now saved : Managed)
    (dir : gmap DN Entry) (log : list Op) (store : StateStore) :
  ∃ svc',
    uninstall name (svc, (self, (mkHost now dir log, saved_state saved store)))
    = ((svc',
        (self,
         (mkHost saved dir log,
          delete (name, "enabled") (delete (name, "running") store)))),
       Returned ())
    ∧ steps svc' = steps svc.
Proof.
  unfold uninstall. unfold bind at 1. cbn [fst snd].
  set (store1 := saved_state saved store).
  assert (Hrunning : store1 !! (name, "running") = Some (running saved)).
  { unfold store1, saved_state.
    by rewrite lookup_insert_ne, lookup_insert_eq by (by intros [=]). }
  assert (Henabled : delete (name, "running") store1 !! (name, "enabled")
                     = Some (enabled saved)).
  { unfold store1, saved_state.
    by rewrite lookup_delete_ne, lookup_insert_eq by (by intros [=]). }
  assert (Hstore : delete (name, "enabled") (delete (name, "running") store1)
                   = delete (name, "enabled") (delete (name, "running") store)).
  { unfold store1, saved_state.
    by rewrite delete_insert_ne, delete_insert_eq, delete_insert_eq
      by (by intros [=]). }
  destruct saved as [r n]. cbn [running enabled] in *.
  destruct (has_state name store1);
    unfold bind, on_machine, on_managed, stop, managed_disable,
      restore_state, start, enable, print_msg, ret;
    cbn [fst snd os directory ops running enabled];
    rewrite Hrunning, Henabled, Hstore;
    eexists; (split; [destruct r, n; reflexivity|done]).
Qed.

(** X25 [create_instance], then [uninstall], without a record in the
    directory: on a runner without steps the installation returns with
    the service running and started on boot, its former state saved;
    the removal that follows returns with the service running, and
    started on boot, exactly as it was before the installation, with
    the saved state cleared and the directory untouched. *)
Theorem create_instance_then_uninstall (fqdn : string) (suffix : DN)
    (realm : option string) (svc : Service SimpleStep)
    (self : SimpleServiceInstance) (h : Host Managed) (store : StateStore) :
  steps svc = [] →
  ∃ svc1 svc2,
    create_instance name None fqdn suffix realm (svc, (self, (h, store)))
    = ((svc1,
        (mkSimple None fqdn suffix realm,
         (mkHost (mkManaged true true) (directory h) (ops h),
          saved_state (os h) store))),
       Returned ())
    ∧ steps svc1 = []
    ∧ uninstall name
        (svc1,
         (mkSimple None fqdn suffix realm,
          (mkHost (mkManaged true true) (directory h) (ops h),
           saved_state (os h) store)))
      = ((svc2,
          (mkSimple None fqdn suffix realm,
           (h, delete (name, "enabled") (delete (name, "running") store)))),
         Returned ()).
Proof.
  intros Hsteps. destruct svc as [sname desc l out]. cbn [steps] in Hsteps.
  subst l. unfold create_instance. cbv zeta.
  unfold then_do, step, set_steps.
  cbn [steps service_name service_desc output_fd app].
  rewrite (start_creation_returns (simple_invoke name)
             (mkService sname desc
                [ mkStep ("starting " +:+ name +:+ " ") m_start false;
                  mkStep ("configuring " +:+ name +:+ " to start on boot")
                         m_enable false ] out)
             _ _ _ _ _ _ (simple_steps_run fqdn suffix realm h store)).
  set (svc1 := set_steps [] _).
  destruct (uninstall_restores svc1 (mkSimple None fqdn suffix realm)
              (mkManaged true true) (os h) (directory h) (ops h) store)
    as (svc2 & Hun & _).
  exists svc1, svc2. split; [done|]. split; [done|].
  rewrite Hun. by destruct h.
Qed.

End SimpleFacts.

(** *** A concrete installation *)

Definition ntpd_service : Service SimpleStep := mkService "ntpd" None [] [].

Definition ntpd_instance : SimpleServiceInstance :=
  mkSimple None "ipa.example.test" example_suffix (Some "EXAMPLE.TEST").

(** A host on which the service runs, without being started on boot. *)
Definition ntpd_host : Host Managed := mkHost (mkManaged true false) ∅ [].

Lemma create_instance_then_uninstall_witness :
  ∃ svc1 svc2,
    create_instance "ntpd" None "ipa.example.test" example_suffix
      (Some "EXAMPLE.TEST") (ntpd_service, (ntpd_instance, (ntpd_host, ∅)))
    = ((svc1,
        (ntpd_instance,
         (mkHost (mkManaged true true) ∅ [],
          saved_state "ntpd" (mkManaged true false) ∅))),
       Returned ())
    ∧ steps svc1 = []
    ∧ uninstall "ntpd"
        (svc1,
         (ntpd_instance,
          (mkHost (mkManaged true true) ∅ [],
           saved_state "ntpd" (mkManaged true false) ∅)))
      = ((svc2,
          (ntpd_instance,
           (ntpd_host,
            delete ("ntpd", "enabled") (delete ("ntpd", "running") ∅)))),
         Returned ()).
Proof.
  exact (create_instance_then_uninstall "ntpd" "ipa.example.test"
           example_suffix (Some "EXAMPLE.TEST") ntpd_service ntpd_instance
           ntpd_host ∅ eq_refl).
Defined.
